(** * automate: element search, tree walk and window focus

    A shallow embedding of the element-abstraction layer of the [automate]
    package (module paths are given relative to the repository root):

    - [automate/common.py]           geometry ([Rect], [Point]);
    - [automate/impl/base.py]        the tree walk shared by the backends;
    - [automate/impl/uia.py]         the accessibility backend's [Condition];
    - [automate/impl/win32.py]       the window-handle backend: [Condition],
                                     [Element], [Window];
    - [automate/winterop/user32.py]  the thin wrappers over user32.

    The repository also holds an older revision of the same modules under
    [src/automate/]; where it differs in a way that matters to a property
    below, its code is embedded next to the current one, in a module named
    [Legacy].

    Python integers are [Z], strings are [string] (ASCII), [None]-able
    arguments are [option].  Exceptions are values of [Exn]; code that can
    raise lives in a state-and-exception monad whose state survives a raise,
    as a Python object's fields do. *)

From Stdlib Require Import ZArith List String Ascii Bool Lia.
From stdpp Require Import gmap strings list.

Import ListNotations.
Local Open Scope string_scope.
Local Open Scope list_scope.
Local Open Scope Z_scope.

(** * Part I: the program *)

(** ** Exceptions and results *)

(** The exceptions the modelled code raises.  All of them derive from
    Python's [Exception], so an [except Exception] clause catches each. *)
Inductive Exn : Type :=
| WinError (code : Z)               (* ctypes.WinError(get_last_error()) *)
| ValueError (msg : string)
| IndexError
| NotImplementedError
| PlainException (msg : string)     (* raise Exception("...") *)
| AttributeError (msg : string)
| Win32NotAWindowError (msg : string)
| pywintypes_error (code : Z)
| UIAConditionNotCreatedError (msg : string)
| COMError (hresult : Z).

Inductive result (A : Type) : Type :=
| Ok (a : A)
| Raise (e : Exn).
Arguments Ok {A} a.
Arguments Raise {A} e.

(** ** Stateful code

    [M S A] is a computation over a store [S] that returns an [A] or raises.
    The store is handed on when the computation raises: what a Python
    function did to shared objects before raising stays done.  [None] is
    reserved for a loop that has not finished within its fuel. *)
Definition M (S A : Type) : Type := S -> option (result A * S).

Definition ret {S A} (a : A) : M S A := fun s => Some (Ok a, s).

Definition raise {S A} (e : Exn) : M S A := fun s => Some (Raise e, s).

Definition bind {S A B} (m : M S A) (k : A -> M S B) : M S B :=
  fun s =>
    match m s with
    | Some (Ok a, s') => k a s'
    | Some (Raise e, s') => Some (Raise e, s')
    | None => None
    end.

Declare Scope prog_scope.
Delimit Scope prog_scope with prog.
Notation "x <- m ;; k" := (bind m (fun x => k))
  (at level 100, m at next level, k at level 200, right associativity)
  : prog_scope.
Notation "m ;; k" := (bind m (fun _ => k))
  (at level 100, k at level 200, right associativity) : prog_scope.
Local Open Scope prog_scope.

(** A fallible read of data that is already at hand. *)
Definition lift {S A} (r : result A) : M S A := fun s => Some (r, s).

Definition get {S} : M S S := fun s => Some (Ok s, s).

Definition modify {S} (f : S -> S) : M S unit := fun s => Some (Ok tt, f s).

(** [try: body / except Exception: handler]. *)
Definition try_except {S A} (body : M S A) (handler : Exn -> M S A) : M S A :=
  fun s =>
    match body s with
    | Some (Ok a, s') => Some (Ok a, s')
    | Some (Raise e, s') => handler e s'
    | None => None
    end.

(** [try: body / finally: cleanup].  The cleanup runs on both exits of the
    body; an exception of the cleanup replaces the body's outcome. *)
Definition try_finally {S A} (body : M S A) (cleanup : M S unit) : M S A :=
  fun s =>
    match body s with
    | Some (r, s') =>
        match cleanup s' with
        | Some (Ok _, s'') => Some (r, s'')
        | Some (Raise e, s'') => Some (Raise e, s'')
        | None => None
        end
    | None => None
    end.

(** ** [automate/common.py] *)
Module Common.

Record Point : Type := mkPoint { x : Z; y : Z }.

(** [Rect.__init__] copies the four edges of the native rectangle. *)
Record Rect : Type := mkRect { left : Z; top : Z; right : Z; bottom : Z }.

(** [Rect.width]: [self.right - self.left]. *)
Definition width (r : Rect) : Z := right r - left r.

(** [Rect.height]: [self.bottom - self.top]. *)
Definition height (r : Rect) : Z := bottom r - top r.

(** [int(float(n) / 2.0)].  The edges come from a native [RECT] of 32-bit
    fields, so [n] is below 2^33 in magnitude and both the conversion to a
    double and the halving are exact; [int] then truncates towards zero,
    which is [Z.quot]. *)
Definition half (n : Z) : Z := Z.quot n 2.

(** [Rect.center]. *)
Definition center (r : Rect) : Point :=
  mkPoint (left r + half (width r)) (top r + half (height r)).

(** [Rect.has_area]. *)
Definition has_area (r : Rect) : bool :=
  negb (right r - left r =? 0) && negb (bottom r - top r =? 0).

(** The closed box [[left, right] x [top, bottom]]. *)
Definition in_box (r : Rect) (p : Point) : Prop :=
  left r <= x p <= right r /\ top r <= y p <= bottom r.

End Common.

(** ** [automate/impl/base.py]: what both backends share *)
Module Base.

(** A snapshot of an element tree.  A node carries what the platform
    answers about the element ([attrs], backend specific) and what
    enumerating its children gives: the children in enumeration order, or
    the error the enumeration ends in. *)
#[local] Unset Elimination Schemes.
Inductive Node (A : Type) : Type :=
| mkNode (attrs : A) (kids : result (list (Node A))).
#[local] Set Elimination Schemes.
Arguments mkNode {A} attrs kids.

Definition attrs {A} (e : Node A) : A :=
  match e with mkNode a _ => a end.

(** [BaseElement.children] on the snapshot. *)
Definition children {A} (e : Node A) : result (list (Node A)) :=
  match e with mkNode _ k => k end.

(** The reads [tree] makes of an element; each backend supplies its own. *)
Record Reads (A : Type) : Type := mkReads {
  type_key : Node A -> result string;       (* [element_ctrl] *)
  label : Node A -> result (list string);   (* the texts shown after it *)
  rect : Node A -> result Common.Rect       (* [element.rect] *)
}.
Arguments type_key {A} _ _.
Arguments label {A} _ _.
Arguments rect {A} _ _.

(** One printed line of [tree]: the indentation depth, the type key with
    its ordinal, the label texts, and the rectangle, or [None] where the
    code prints ["(COMError)"] in its place. *)
Record Line : Type := mkLine {
  line_depth : Z;
  line_key : string;
  line_idx : Z;
  line_label : list string;
  line_rect : option Common.Rect
}.

(** The store of a walk: the [counters] dict shared by all recursive
    calls, standard output, and the outlines drawn ([D] is the type of the
    duration argument, which is only handed through). *)
Record Walk (D : Type) : Type := mkWalk {
  counters : gmap string Z;
  stdout : list Line;
  outlined : list (Common.Rect * D)
}.
Arguments mkWalk {D} _ _ _.
Arguments counters {D} _.
Arguments stdout {D} _.
Arguments outlined {D} _.

Definition set_counters {D} (c : gmap string Z) : M (Walk D) unit :=
  modify (fun w => mkWalk c (stdout w) (outlined w)).

Definition print {D} (l : Line) : M (Walk D) unit :=
  modify (fun w => mkWalk (counters w) (stdout w ++ [l]) (outlined w)).

(** [counters.get(key, 0)]. *)
Definition counters_get (c : gmap string Z) (key : string) : Z :=
  default 0 (c !! key).

(** [max_depth] is [None] or not negative. *)
Definition valid_depth (max_depth : option Z) : Prop :=
  match max_depth with Some m => 0 <= m | None => True end.

(** The dict after the walk has entered a node of key [k]: the dict it
    was called with (a fresh one for [None]) with the count of [k]
    raised by one. *)
Definition entered (counters_arg : option (gmap string Z)) (k : string)
  : gmap string Z :=
  let c := default ∅ counters_arg in <[k := counters_get c k + 1]> c.

Section Tree.
Context {A D : Type} (reads : Reads A).

(** [BaseElement.outline] with [rect=None], on a snapshot: the rectangle
    it reads anew is the one the snapshot holds, and it draws it unless it
    has no area.  ([Walker.outline] below is the method with its read as a
    read of its own.) *)
Definition outline (element : Node A) (duration_ms : D) : M (Walk D) unit :=
  rect <- lift (rect reads element) ;;
  if negb (Common.has_area rect) then ret tt
  else modify (fun w =>
         mkWalk (counters w) (stdout w) (outlined w ++ [(rect, duration_ms)])).

(** [Element.tree] ([impl/uia.py] and [impl/win32.py] have the same body up
    to the reads), on a snapshot.  [counters = None] starts a fresh dict;
    the recursive calls pass the dict on. *)
Fixpoint tree (element : Node A) (max_depth : option Z)
    (counters_arg : option (gmap string Z)) (depth : Z)
    (draw_outline : bool) (outline_duration : D) {struct element}
  : M (Walk D) unit :=
  if match max_depth with Some m => m <? 0 | None => false end
  then raise (ValueError "max_depth must be a non-negative integer or None")
  else
    match counters_arg with
    | None => set_counters ∅
    | Some c => set_counters c
    end ;;
    element_ctrl <- lift (type_key reads element) ;;
    w <- get ;;
    set_counters (<[element_ctrl := counters_get (counters w) element_ctrl + 1]>
                    (counters w)) ;;
    w <- get ;;
    let element_idx := counters_get (counters w) element_ctrl - 1 in
    texts <- lift (label reads element) ;;
    let element_repr := mkLine depth element_ctrl element_idx texts in
    shown <- try_except
               (r <- lift (rect reads element) ;;
                print (element_repr (Some r)) ;;
                ret true)
               (fun _ => print (element_repr None) ;; ret false) ;;
    if negb shown then ret tt
    else
      (if draw_outline then outline element outline_duration else ret tt) ;;
      if match max_depth with None => true | Some m => depth <? m end
      then
        match element with
        | mkNode _ (Raise e) => raise e
        | mkNode _ (Ok kids) =>
            (fix loop (l : list (Node A)) : M (Walk D) unit :=
               match l with
               | [] => ret tt
               | child :: rest =>
                   w <- get ;;
                   tree child max_depth (Some (counters w)) (depth + 1)
                        draw_outline outline_duration ;;
                   loop rest
               end) kids
        end
      else ret tt.

(** The two later phases of [tree], named for the statements about it:
    the loop over the children, and what follows the [try] once the
    rectangle has been printed. *)
Definition tree_children (max_depth : option Z) (depth : Z)
    (draw_outline : bool) (outline_duration : D)
  : list (Node A) -> M (Walk D) unit :=
  fix loop (l : list (Node A)) : M (Walk D) unit :=
    match l with
    | [] => ret tt
    | child :: rest =>
        w <- get ;;
        tree child max_depth (Some (counters w)) (depth + 1)
             draw_outline outline_duration ;;
        loop rest
    end.

Definition tree_after (element : Node A) (max_depth : option Z) (depth : Z)
    (draw_outline : bool) (outline_duration : D) : M (Walk D) unit :=
  (if draw_outline then outline element outline_duration else ret tt) ;;
  if match max_depth with None => true | Some m => depth <? m end
  then match element with
       | mkNode _ (Raise e) => raise e
       | mkNode _ (Ok kids) =>
           tree_children max_depth depth draw_outline outline_duration kids
       end
  else ret tt.

(** The nodes a walk that runs to its end visits, with their depths, in
    the order of the walk: the element, then (when its rectangle can be
    read and the depth bound allows) what the walk of each child
    visits. *)
Fixpoint visited (max_depth : option Z) (depth : Z) (element : Node A)
    {struct element} : list (Z * Node A) :=
  (depth, element) ::
  match rect reads element with
  | Raise _ => []
  | Ok _ =>
      if match max_depth with None => true | Some m => depth <? m end
      then match element with
           | mkNode _ (Ok kids) =>
               (fix loop (l : list (Node A)) : list (Z * Node A) :=
                  match l with
                  | [] => []
                  | child :: rest =>
                      visited max_depth (depth + 1) child ++ loop rest
                  end) kids
           | mkNode _ (Raise _) => []
           end
      else []
  end.

(** What a printed line shows of the node: depth, key, label, and the
    rectangle or its absence. *)
Definition shown (l : Line) : Z * string * list string * option Common.Rect :=
  (line_depth l, line_key l, line_label l, line_rect l).

Definition expected (v : Z * Node A)
  : option (Z * string * list string * option Common.Rect) :=
  match type_key reads (snd v), label reads (snd v) with
  | Ok k, Ok t =>
      Some (fst v, k, t,
            match rect reads (snd v) with Ok r => Some r | Raise _ => None end)
  | _, _ => None
  end.

(** What standard output shows, line by line. *)
Definition lines (s : Walk D)
  : list (option (Z * string * list string * option Common.Rect)) :=
  map (fun l => Some (shown l)) (stdout s).

End Tree.

(** Every enumeration of children in the snapshot succeeds. *)
Fixpoint enumerable {A} (element : Node A) : bool :=
  match element with
  | mkNode _ (Raise _) => false
  | mkNode _ (Ok kids) =>
      (fix loop (l : list (Node A)) : bool :=
         match l with
         | [] => true
         | child :: rest => enumerable child && loop rest
         end) kids
  end.

(** Induction over a snapshot, with the hypothesis for every child. *)
Section NodeInduction.
Context {A : Type} (P : Node A -> Prop).
Hypothesis P_raise : forall a e, P (mkNode a (Raise e)).
Hypothesis P_ok : forall a kids, Forall P kids -> P (mkNode a (Ok kids)).

Fixpoint Node_ind (n : Node A) : P n :=
  match n with
  | mkNode a (Raise e) => P_raise a e
  | mkNode a (Ok kids) =>
      P_ok a kids
        ((fix all (l : list (Node A)) : Forall P l :=
            match l with
            | [] => Forall_nil_2 P
            | k :: l' => Forall_cons_2 P k l' (Node_ind k) (all l')
            end) kids)
  end.

End NodeInduction.

End Base.

(** ** The tree walk over live reads

    [Base.tree] reads a snapshot, on which the second read of a rectangle
    answers as the first.  In the source the two are native reads of their
    own: the walker reads [element.rect] inside its [try], and
    [BaseElement.outline], called after the [try], reads [self.rect]
    again; the second read can fail where the first succeeded.  Here the
    second read is the function [again].  It is the one read a walk
    repeats on an element: [children] makes fresh elements, and the
    cached properties are stored by their first read. *)
Module Walker.

Section Tree.
Context {A D : Type} (reads : Base.Reads A)
  (again : Base.Node A -> result Common.Rect).

(** [BaseElement.outline] with [rect=None]. *)
Definition outline (element : Base.Node A) (duration_ms : D)
  : M (Base.Walk D) unit :=
  rect <- lift (again element) ;;
  if negb (Common.has_area rect) then ret tt
  else modify (fun w =>
         Base.mkWalk (Base.counters w) (Base.stdout w)
           (Base.outlined w ++ [(rect, duration_ms)])).

(** [Element.tree]. *)
Fixpoint tree (element : Base.Node A) (max_depth : option Z)
    (counters_arg : option (gmap string Z)) (depth : Z)
    (draw_outline : bool) (outline_duration : D) {struct element}
  : M (Base.Walk D) unit :=
  if match max_depth with Some m => m <? 0 | None => false end
  then raise (ValueError "max_depth must be a non-negative integer or None")
  else
    match counters_arg with
    | None => Base.set_counters ∅
    | Some c => Base.set_counters c
    end ;;
    element_ctrl <- lift (Base.type_key reads element) ;;
    w <- get ;;
    Base.set_counters
      (<[element_ctrl :=
           Base.counters_get (Base.counters w) element_ctrl + 1]>
         (Base.counters w)) ;;
    w <- get ;;
    let element_idx :=
      Base.counters_get (Base.counters w) element_ctrl - 1 in
    texts <- lift (Base.label reads element) ;;
    let element_repr := Base.mkLine depth element_ctrl element_idx texts in
    shown <- try_except
               (r <- lift (Base.rect reads element) ;;
                Base.print (element_repr (Some r)) ;;
                ret true)
               (fun _ => Base.print (element_repr None) ;; ret false) ;;
    if negb shown then ret tt
    else
      (if draw_outline then outline element outline_duration else ret tt) ;;
      if match max_depth with None => true | Some m => depth <? m end
      then
        match element with
        | Base.mkNode _ (Raise e) => raise e
        | Base.mkNode _ (Ok kids) =>
            (fix loop (l : list (Base.Node A)) : M (Base.Walk D) unit :=
               match l with
               | [] => ret tt
               | child :: rest =>
                   w <- get ;;
                   tree child max_depth (Some (Base.counters w)) (depth + 1)
                        draw_outline outline_duration ;;
                   loop rest
               end) kids
        end
      else ret tt.

(** The two later phases of [tree], named for the statements about it. *)
Definition tree_children (max_depth : option Z) (depth : Z)
    (draw_outline : bool) (outline_duration : D)
  : list (Base.Node A) -> M (Base.Walk D) unit :=
  fix loop (l : list (Base.Node A)) : M (Base.Walk D) unit :=
    match l with
    | [] => ret tt
    | child :: rest =>
        w <- get ;;
        tree child max_depth (Some (Base.counters w)) (depth + 1)
             draw_outline outline_duration ;;
        loop rest
    end.

Definition tree_after (element : Base.Node A) (max_depth : option Z)
    (depth : Z) (draw_outline : bool) (outline_duration : D)
  : M (Base.Walk D) unit :=
  (if draw_outline then outline element outline_duration else ret tt) ;;
  if match max_depth with None => true | Some m => depth <? m end
  then match element with
       | Base.mkNode _ (Raise e) => raise e
       | Base.mkNode _ (Ok kids) =>
           tree_children max_depth depth draw_outline outline_duration kids
       end
  else ret tt.

(** The reads the walk makes outside its [try] succeed: the key and the
    label of every visited node; when outlines are drawn, the second read
    of every rectangle that was printed; and the enumeration of the
    children of every node the walk descends into.  Nothing is asked of
    the reads inside the [try]. *)
Fixpoint walkable (max_depth : option Z) (depth : Z) (draw_outline : bool)
    (element : Base.Node A) {struct element} : bool :=
  match Base.type_key reads element, Base.label reads element with
  | Ok _, Ok _ =>
      match Base.rect reads element with
      | Raise _ => true
      | Ok _ =>
          (if draw_outline
           then match again element with Ok _ => true | Raise _ => false end
           else true) &&
          (if match max_depth with None => true | Some m => depth <? m end
           then match element with
                | Base.mkNode _ (Ok kids) =>
                    (fix loop (l : list (Base.Node A)) : bool :=
                       match l with
                       | [] => true
                       | child :: rest =>
                           walkable max_depth (depth + 1) draw_outline child
                           && loop rest
                       end) kids
                | Base.mkNode _ (Raise _) => false
                end
           else true)
      end
  | _, _ => false
  end.

(** The walk of [element] returns normally and prints one line per
    visited node, in the order of [Base.visited]. *)
Definition walks (element : Base.Node A) : Prop :=
  forall max_depth counters depth draw_outline (outline_duration : D) s,
    Base.valid_depth max_depth ->
    walkable max_depth depth draw_outline element = true ->
    exists s',
      tree element max_depth counters depth draw_outline outline_duration s
      = Some (Ok tt, s') /\
      Base.lines s' =
      Base.lines s ++
      map (Base.expected reads) (Base.visited reads max_depth depth element).

End Tree.

End Walker.

(** Sequencing of fallible pure reads. *)
Definition result_bind {A B} (r : result A) (k : A -> result B) : result B :=
  match r with
  | Ok a => k a
  | Raise e => Raise e
  end.

Notation "'let!' x ':=' r 'in' k" := (result_bind r (fun x => k))
  (at level 10, x name, r at level 100, k at level 200) : prog_scope.

(** ** [automate/impl/uia.py]: the accessibility backend *)
Module Uia.

(** [class Property(int, Enum)]. *)
Inductive Property : Type :=
| Property_ProcessId
| Property_ControlType
| Property_ClassName
| Property_Title.

(** The value handed to the engine with a property id. *)
Inductive PropertyValue : Type :=
| IntValue (z : Z)
| StrValue (s : string).

(** The condition objects the automation engine hands out. *)
#[local] Unset Elimination Schemes.
Inductive IUIAutomationCondition : Type :=
| TrueCondition
| PropertyCondition (p : Property) (v : PropertyValue) (flags : Z)
| AndCondition (cs : list IUIAutomationCondition).
#[local] Set Elimination Schemes.

(** The outcome of a COM call: the value, or a failing [HRESULT]. *)
Inductive com (A : Type) : Type :=
| Done (a : A)
| Failed (hresult : Z).
Arguments Done {A} a.
Arguments Failed {A} hresult.

(** comtypes turns a failing [HRESULT] into a raised [COMError]. *)
Definition com_call {A} (c : com A) : result A :=
  match c with
  | Done a => Ok a
  | Failed hr => Raise (COMError hr)
  end.

(** The part of the engine ([UIA().instance()]) that builds conditions. *)
Record IUIAutomation : Type := mkIUIAutomation {
  CreateTrueCondition : com IUIAutomationCondition;
  CreatePropertyConditionEx :
    Property -> PropertyValue -> Z -> com IUIAutomationCondition;
  CreateAndConditionFromArray :
    list IUIAutomationCondition -> com IUIAutomationCondition
}.

Definition PropertyConditionFlags_IgnoreCase : Z := 1.

(** An entry of [Condition.reprs]; it stands for the formatted text. *)
Inductive Repr : Type :=
| ReprTrue
| ReprProperty (p : Property) (v : PropertyValue).

(** [class Condition]: [__init__] stores its three arguments. *)
Record Condition : Type := mkCondition {
  _native : option IUIAutomationCondition;
  conditions : list IUIAutomationCondition;
  reprs : list Repr
}.

(** [Condition()]: no native condition, no refinement. *)
Definition Condition_new : Condition := mkCondition None [] [].

Section Engine.
Variable uia : IUIAutomation.

(** [Condition.create_property_condition]. *)
Definition create_property_condition (self : Condition)
    (property_id : Property) (value : PropertyValue)
  : result IUIAutomationCondition :=
  com_call (CreatePropertyConditionEx uia property_id value
              PropertyConditionFlags_IgnoreCase).

(** What [pid], [control_type], [class_name] and [title] share: a new
    [Condition] whose tuple is the old one with the new native condition
    appended.  [_native] is left at its default. *)
Definition refined (self : Condition) (property_id : Property)
    (value : PropertyValue) : result Condition :=
  let! cond := create_property_condition self property_id value in
  Ok (mkCondition None
        (conditions self ++ [cond])
        (reprs self ++ [ReprProperty property_id value])).

(** [Condition.pid]. *)
Definition pid (self : Condition) (pid : Z) : result Condition :=
  refined self Property_ProcessId (IntValue pid).

(** [Condition.control_type]; the argument is the enum member's value. *)
Definition control_type (self : Condition) (control_type : Z)
  : result Condition :=
  refined self Property_ControlType (IntValue control_type).

(** [Condition.class_name]. *)
Definition class_name (self : Condition) (class_name : string)
  : result Condition :=
  refined self Property_ClassName (StrValue class_name).

(** [Condition.title]. *)
Definition title (self : Condition) (title : string) : result Condition :=
  refined self Property_Title (StrValue title).

(** [Condition.native]: the materialized condition. *)
Definition native (self : Condition) : result IUIAutomationCondition :=
  match _native self with
  | Some n => Ok n
  | None =>
      let length := Z.of_nat (List.length (conditions self)) in
      if length =? 0
      then Raise (UIAConditionNotCreatedError "Unable to create a condition...")
      else if length >? 1
      then com_call (CreateAndConditionFromArray uia (conditions self))
      else match conditions self with
           | c :: _ => Ok c
           | [] => Raise IndexError
           end
  end.


(** A refinement step of the builder, as a value, and a chain of them
    applied left to right to a condition. *)
Inductive Refinement : Type :=
| by_pid (p : Z)
| by_control_type (ct : Z)
| by_class_name (s : string)
| by_title (s : string).

Definition refine (self : Condition) (r : Refinement) : result Condition :=
  match r with
  | by_pid p => pid self p
  | by_control_type ct => control_type self ct
  | by_class_name s => class_name self s
  | by_title s => title self s
  end.

Fixpoint chain (self : Condition) (rs : list Refinement) : result Condition :=
  match rs with
  | [] => Ok self
  | r :: rs' => let! c := refine self r in chain c rs'
  end.

End Engine.

(** [class ControlType(int, Enum)]: the members by value. *)
Definition ControlType_members : list (Z * string) :=
  [ (50040, "AppBar"); (50000, "Button"); (50001, "Calendar");
    (50002, "CheckBox"); (50003, "ComboBox"); (50025, "Custom");
    (50028, "DataGrid"); (50029, "DataItem"); (50030, "Document");
    (50004, "Edit"); (50026, "Group"); (50034, "Header");
    (50035, "HeaderItem"); (50005, "Hyperlink"); (50006, "Image");
    (50008, "List"); (50007, "ListItem"); (50010, "MenuBar");
    (50009, "Menu"); (50011, "MenuItem"); (50033, "Pane");
    (50012, "ProgressBar"); (50013, "RadioButton"); (50014, "ScrollBar");
    (50039, "SemanticZoom"); (50038, "Separator"); (50015, "Slider");
    (50016, "Spinner"); (50031, "SplitButton"); (50017, "StatusBar");
    (50018, "Tab"); (50019, "TabItem"); (50036, "Table"); (50020, "Text");
    (50027, "Thumb"); (50037, "TitleBar"); (50021, "ToolBar");
    (50022, "ToolTip"); (50023, "Tree"); (50024, "TreeItem");
    (50032, "Window") ].

(** [ControlType(value).name]; the enum lookup raises [ValueError] on a
    value that is no member. *)
Definition ControlType_name (value : Z) : result string :=
  match List.find (fun m => fst m =? value) ControlType_members with
  | Some m => Ok (snd m)
  | None => Raise (ValueError "not a valid ControlType")
  end.

(** What the live accessibility node answers to the [Current...] reads. *)
Record Attrs : Type := mkAttrs {
  CurrentName : result string;
  CurrentControlType : result Z;
  CurrentAutomationId : result string;
  CurrentBoundingRectangle : result Common.Rect
}.

Definition Element : Type := Base.Node Attrs.

(** [Element.title]. *)
Definition Element_title (self : Element) : result string :=
  CurrentName (Base.attrs self).

(** [Element.control_type], as the member's name. *)
Definition Element_control_type (self : Element) : result string :=
  let! v := CurrentControlType (Base.attrs self) in ControlType_name v.

(** [Element.auto_id]. *)
Definition Element_auto_id (self : Element) : result string :=
  CurrentAutomationId (Base.attrs self).

(** [Element.text]: every case of the [match] returns the title. *)
Definition text (self : Element) : result string :=
  let! _ := Element_control_type self in Element_title self.

(** [Element.rect]. *)
Definition Element_rect (self : Element) : result Common.Rect :=
  CurrentBoundingRectangle (Base.attrs self).

(** The reads of [Element.tree]: the key is the control type's name; the
    label is the automation id, when it is not empty, and the text. *)
Definition reads : Base.Reads Attrs :=
  Base.mkReads Attrs
    Element_control_type
    (fun self =>
       let! auto_id := Element_auto_id self in
       let! t := text self in
       Ok (if String.eqb auto_id "" then [t] else [auto_id; t]))
    Element_rect.

(** [Element.tree]. *)
Definition tree {D} (element : Element) (max_depth : option Z)
    (counters : option (gmap string Z)) (depth : Z) (draw_outline : bool)
    (outline_duration_ms : D) : M (Base.Walk D) unit :=
  Base.tree reads element max_depth counters depth draw_outline
    outline_duration_ms.

End Uia.

(** ** [automate/impl/win32.py]: elements of the window-handle backend *)
Module Win32.

(** What the [user32] wrappers answer for a window handle.  The class name
    and the window text never raise (the wrappers return the empty string
    when the call fails); the other reads raise [WinError]. *)
Record Attrs : Type := mkAttrs {
  hwnd : Z;
  thread_process_id : result (Z * Z);   (* GetWindowThreadProcessId *)
  window_long_id : result Z;            (* GetWindowLongW(hwnd, GWL_ID) *)
  class_name_w : string;                (* GetClassNameW *)
  window_text_w : string;               (* GetWindowTextW *)
  window_rect : result Common.Rect      (* GetWindowRect *)
}.

(** An [Element] wraps a handle; on the snapshot it is the handle's node.
    [children] makes fresh elements, so no cached property of an element
    met during a search has been read before. *)
Definition Element : Type := Base.Node Attrs.

(** [Element.title]. *)
Definition Element_title (self : Element) : string :=
  window_text_w (Base.attrs self).

(** [Element.control_id]. *)
Definition Element_control_id (self : Element) : result Z :=
  window_long_id (Base.attrs self).

(** [Element.class_name]. *)
Definition Element_class_name (self : Element) : string :=
  class_name_w (Base.attrs self).

(** [Element.pid], on an element whose [_pid] is still [None]. *)
Definition Element_pid (self : Element) : result Z :=
  let! tp := thread_process_id (Base.attrs self) in Ok (snd tp).

(** [Element.rect]. *)
Definition Element_rect (self : Element) : result Common.Rect :=
  window_rect (Base.attrs self).

(** A compiled regular expression, by what [re.match(p, s) is not None]
    answers. *)
Record Pattern : Type := mkPattern { re_match : string -> bool }.

(** [str | Pattern[str]]. *)
Inductive TitleArg : Type :=
| TitleStr (s : string)
| TitlePattern (p : Pattern).

(** [class Condition(NamedTuple)]; every field defaults to [None]. *)
Record Condition : Type := mkCondition {
  pid : option Z;
  control_id : option Z;
  class_name : option string;
  title : option TitleArg
}.

(** [Condition()]. *)
Definition Condition_new : Condition := mkCondition None None None None.

(** [str.lower], on ASCII text: the letters [A] to [Z] are lowered and
    every other byte is left as it is.  (Python lowers the letters outside
    ASCII as well; titles are taken to be ASCII, as strings are
    throughout.) *)
Definition lower_ascii (c : ascii) : ascii :=
  let n := nat_of_ascii c in
  if ((65 <=? n) && (n <=? 90))%nat then ascii_of_nat (n + 32) else c.

Fixpoint lower (s : string) : string :=
  match s with
  | EmptyString => EmptyString
  | String c s' => String (lower_ascii c) (lower s')
  end.

(** [Element.satisfies].  [result] is assigned once per supplied field, in
    the order pid, control_id, class_name, title.  A field is supplied
    when it is true in Python's sense: not [None], not [0], not the empty
    string (a compiled pattern is always true). *)
Definition satisfies (self : Element) (condition : Condition) : result bool :=
  let result := false in
  let! result :=
    match pid condition with
    | Some pid =>
        if pid =? 0 then Ok result
        else let! p := Element_pid self in Ok (pid =? p)
    | None => Ok result
    end in
  let! result :=
    match control_id condition with
    | Some control_id =>
        if control_id =? 0 then Ok result
        else let! c := Element_control_id self in Ok (control_id =? c)
    | None => Ok result
    end in
  let result :=
    match class_name condition with
    | Some class_name =>
        if String.eqb class_name "" then result
        else String.eqb class_name (Element_class_name self)
    | None => result
    end in
  let result :=
    match title condition with
    | Some (TitleStr title) =>
        if String.eqb title "" then result
        else String.eqb (lower title) (lower (Element_title self))
    | Some (TitlePattern title) => re_match title (Element_title self)
    | None => result
    end in
  Ok result.

(** The older revision of the module keeps the test in the condition
    ([Condition.matches]) and has a match-everything subclass. *)
Module Legacy.

(** [Condition] and its subclass [TrueCondition]. *)
Inductive Condition : Type :=
| Plain (c : Win32.Condition)
| TrueCondition.

(** [Condition.matches] and its override in [TrueCondition]. *)
Definition matches (self : Condition) (element : option Element)
  : result bool :=
  match self with
  | TrueCondition => Ok true
  | Plain c =>
      match element with
      | None => Ok false
      | Some element => satisfies element c
      end
  end.

End Legacy.

(** The test a search applies to a child: [child.satisfies(condition)] in
    the current revision, [condition.matches(child)] in the older one. *)
Class Matcher (C : Type) : Type := test : C -> Element -> result bool.

#[global] Instance Condition_matcher : Matcher Condition :=
  fun condition child => satisfies child condition.

#[global] Instance Legacy_matcher : Matcher Legacy.Condition :=
  fun condition child => Legacy.matches condition (Some child).

Section Search.
Context {C : Type} `{Matcher C}.

(** [Element.find_first]: the children in order, each child before its
    own descendants. *)
Fixpoint find_first (condition : C) (element : Element) {struct element}
  : result (option Element) :=
  match element with
  | Base.mkNode _ (Raise e) => Raise e
  | Base.mkNode _ (Ok kids) =>
      (fix loop (l : list Element) : result (option Element) :=
         match l with
         | [] => Ok None
         | child :: rest =>
             let! sat := test condition child in
             if (sat : bool) then Ok (Some child)
             else
               let! found := find_first condition child in
               match found with
               | Some f => Ok (Some f)
               | None => loop rest
               end
         end) kids
  end.

(** [Element.ifind_all], drained into a list as [Element.find_all] does
    ([list(self.ifind_all(...))]; the older revision builds the same list
    with [append] and [extend]). *)
Fixpoint find_all (condition : C) (element : Element) {struct element}
  : result (list Element) :=
  match element with
  | Base.mkNode _ (Raise e) => Raise e
  | Base.mkNode _ (Ok kids) =>
      (fix loop (l : list Element) : result (list Element) :=
         match l with
         | [] => Ok []
         | child :: rest =>
             let! sat := test condition child in
             let! below := find_all condition child in
             let! after := loop rest in
             Ok ((if (sat : bool) then [child] else []) ++ below ++ after)
         end) kids
  end.

End Search.

(** The reads of [Element.tree]: the key is the class name, the label the
    title. *)
Definition reads : Base.Reads Attrs :=
  Base.mkReads Attrs
    (fun self => Ok (Element_class_name self))
    (fun self => Ok [Element_title self])
    Element_rect.

(** [Element.tree]. *)
Definition tree {D} (element : Element) (max_depth : option Z)
    (counters : option (gmap string Z)) (depth : Z) (draw_outline : bool)
    (outline_duration : D) : M (Base.Walk D) unit :=
  Base.tree reads element max_depth counters depth draw_outline
    outline_duration.

End Win32.

(** ** The platform

    Code that calls the operating system runs against a [World]: the log
    of the native calls made so far, each with the platform's reply, and
    an [oracle] that answers the next call given that log.  Nothing is
    assumed about the oracle, so a statement about every world is a
    statement about every behaviour of the platform. *)
Module Os.

(** The native calls, with their arguments as the wrappers pass them. *)
Inductive Call : Type :=
| GetForegroundWindow
| EnumWindows
| EnumChildWindows (parent : Z)
| get_last_error
| IsWindow (hwnd : Z)
| IsWindowVisible (hwnd : Z)
| GetWindowTextW (hwnd : Z)
| GetClassNameW (hwnd : Z)
| GetWindowThreadProcessId (hwnd : Z)
| GetWindowRect (hwnd : Z)
| GetWindowLongW (hwnd : Z) (nIndex : Z)
| GetAncestor (hwnd : Z) (gaFlags : Z)
| GetLastActivePopup (hwnd : Z)
| AttachThreadInput (idAttach idAttachTo : Z) (fAttach : bool)
| IsIconic (hwnd : Z)
| IsZoomed (hwnd : Z)
| ShowWindow (hwnd : Z) (nCmdShow : Z)
| SetWindowPos (hwnd hwndInsertAfter X Y cx cy uFlags : Z)
| SetForegroundWindow (hwnd : Z)
| GetCurrentProcessId
| ProcessIdToSessionId (dwProcessId : Z)
| sleep
| win32gui_EnumWindows_error.

(** What a native call gives back: its return value, what it wrote
    through its pointer arguments, and the text buffer it filled. *)
Record Reply : Type := mkReply { ret : Z; out : list Z; text : string }.

Definition Event : Type := Call * Reply.

Record World : Type := mkWorld {
  oracle : list Event -> Call -> Reply;
  events : list Event
}.

(** The calls that change the state of the desktop. *)
Definition mutating (c : Call) : bool :=
  match c with
  | ShowWindow _ _ => true
  | SetWindowPos _ _ _ _ _ _ _ => true
  | AttachThreadInput _ _ _ => true
  | SetForegroundWindow _ => true
  | _ => false
  end.

Definition attaching (c : Call) : bool :=
  match c with
  | AttachThreadInput _ _ _ => true
  | _ => false
  end.

End Os.

(** Code over the platform and the variables [L] of an enclosing function
    that a nested function assigns to ([nonlocal], or a list it appends
    to). *)
Definition OS (L A : Type) : Type := M (Os.World * L) A.

(** One native call: the oracle answers, the log grows by the call. *)
Definition os_call {L} (c : Os.Call) : OS L Os.Reply :=
  fun s =>
    let w := fst s in
    let r := Os.oracle w (Os.events w) c in
    Some (Ok r, (Os.mkWorld (Os.oracle w) (Os.events w ++ [(c, r)]), snd s)).

Definition get_local {L} : OS L L := fun s => Some (Ok (snd s), s).

Definition set_local {L} (l : L) : OS L unit :=
  fun s => Some (Ok tt, (fst s, l)).

(** Runs [m] with fresh variables [init]; gives back their final values
    with the result.  The caller's own variables are out of [m]'s reach. *)
Definition with_local {L L' A} (init : L') (m : OS L' A) : OS L (A * L') :=
  fun s =>
    match m (fst s, init) with
    | Some (Ok a, s') => Some (Ok (a, snd s'), (fst s', snd s))
    | Some (Raise e, s') => Some (Raise e, (fst s', snd s))
    | None => None
    end.

(** A loop that has used up its fuel. *)
Definition out_of_fuel {S A} : M S A := fun _ => None.

(** A native function whose result type is a handle gives [None] for
    NULL (ctypes' conversion of a [c_void_p] result); a [None] passed
    where a handle is expected becomes NULL again. *)
Definition as_handle (z : Z) : option Z := if z =? 0 then None else Some z.

Definition handle_arg (h : option Z) : Z := default 0 h.

(** [h == z] for a handle [h] that may be [None]. *)
Definition handle_is (h : option Z) (z : Z) : bool :=
  match h with
  | Some v => v =? z
  | None => false
  end.

(** ** [automate/winterop/win32_constants.py]

    The module is not among the sources; the values are the documented
    Win32 ones, as the older revision's [win_api/win32_wrapper.py] lists
    them. *)
Module win32_constants.
Definition GA_ROOTOWNER : Z := 3.
Definition GWL_ID : Z := -12.
Definition GWL_EXSTYLE : Z := -20.
Definition HWND_TOPMOST : Z := -1.
Definition HWND_NOTOPMOST : Z := -2.
Definition SWP_NOMOVE : Z := 2.
Definition SWP_NOSIZE : Z := 1.
Definition SW_MAXIMIZE : Z := 3.
Definition SW_SHOW : Z := 5.
Definition SW_MINIMIZE : Z := 6.
Definition SW_RESTORE : Z := 9.
Definition WS_EX_TOOLWINDOW : Z := 128.
Definition STATE_SYSTEM_INVISIBLE : Z := 32768.
End win32_constants.

(** ** [automate/winterop/user32.py] and [kernel32.py] *)
Module User32.

Section Wrappers.
Context {L : Type}.

(** [ctypes.get_last_error()]. *)
Definition get_last_error : OS L Z :=
  r <- os_call Os.get_last_error ;; ret (Os.ret r).

(** [raise WinError(get_last_error())]. *)
Definition raise_WinError {A} : OS L A :=
  err <- get_last_error ;; raise (WinError err).

Definition GetLastActivePopup (hwnd : Z) : OS L (option Z) :=
  r <- os_call (Os.GetLastActivePopup hwnd) ;; ret (as_handle (Os.ret r)).

Definition IsWindow (hwnd : Z) : OS L bool :=
  r <- os_call (Os.IsWindow hwnd) ;; ret (negb (Os.ret r =? 0)).

Definition GetClassNameW (hwnd : Z) : OS L string :=
  r <- os_call (Os.GetClassNameW hwnd) ;;
  let name_length := Os.ret r in
  if name_length <=? 0 then ret "" else ret (Os.text r).

Definition GetWindowThreadProcessId (hwnd : Z) : OS L (Z * Z) :=
  r <- os_call (Os.GetWindowThreadProcessId hwnd) ;;
  let tid := Os.ret r in
  if tid =? 0 then raise_WinError
  else ret (tid, nth 0 (Os.out r) 0).

Definition GetWindowRect (hwnd : Z) : OS L Common.Rect :=
  r <- os_call (Os.GetWindowRect hwnd) ;;
  if Os.ret r =? 0 then raise_WinError
  else ret (Common.mkRect (nth 0 (Os.out r) 0) (nth 1 (Os.out r) 0)
                          (nth 2 (Os.out r) 0) (nth 3 (Os.out r) 0)).

(** The test [hwnd == 0] never holds: a NULL result is [None]. *)
Definition GetForegroundWindow : OS L (option Z) :=
  r <- os_call Os.GetForegroundWindow ;;
  let hwnd := as_handle (Os.ret r) in
  if handle_is hwnd 0
  then raise (ValueError "The result of 'GetForegroundWindow' is None.")
  else ret hwnd.

Definition IsWindowVisible (hwnd : Z) : OS L bool :=
  r <- os_call (Os.IsWindowVisible hwnd) ;; ret (negb (Os.ret r =? 0)).

Definition GetWindowTextW (hwnd : Z) : OS L string :=
  r <- os_call (Os.GetWindowTextW hwnd) ;;
  let name_length := Os.ret r in
  if name_length <=? 0 then ret "" else ret (Os.text r).

Definition AttachThreadInput (idAttach idAttachTo : Z) (fAttach : bool)
  : OS L unit :=
  r <- os_call (Os.AttachThreadInput idAttach idAttachTo fAttach) ;;
  if Os.ret r =? 0 then raise_WinError else ret tt.

Definition GetWindowLongW (hwnd nIndex : Z) : OS L Z :=
  r <- os_call (Os.GetWindowLongW hwnd nIndex) ;;
  let ok := Os.ret r in
  err <- get_last_error ;;
  if (ok =? 0) && negb (err =? 0) then raise (WinError err) else ret ok.

Definition GetAncestor (hwnd gaFlags : Z) : OS L (option Z) :=
  r <- os_call (Os.GetAncestor hwnd gaFlags) ;;
  let anc_hwnd := as_handle (Os.ret r) in
  if handle_is anc_hwnd 0 then raise_WinError else ret anc_hwnd.

Definition IsIconic (hwnd : Z) : OS L bool :=
  r <- os_call (Os.IsIconic hwnd) ;; ret (negb (Os.ret r =? 0)).

Definition IsZoomed (hwnd : Z) : OS L bool :=
  r <- os_call (Os.IsZoomed hwnd) ;; ret (negb (Os.ret r =? 0)).

Definition SetWindowPos (hwnd hwndInsertAfter X Y cx cy uFlags : Z)
  : OS L unit :=
  r <- os_call (Os.SetWindowPos hwnd hwndInsertAfter X Y cx cy uFlags) ;;
  if Os.ret r =? 0 then raise_WinError else ret tt.

Definition SetForegroundWindow (hwnd : Z) : OS L unit :=
  r <- os_call (Os.SetForegroundWindow hwnd) ;;
  if Os.ret r =? 0 then raise_WinError else ret tt.

Definition ShowWindow (hwnd nCmdShow : Z) : OS L unit :=
  os_call (Os.ShowWindow hwnd nCmdShow) ;; ret tt.

(** What the platform does with the callback it is given: it hands it the
    handles one by one and stops at the first [0] it gets back; the
    enumeration then returns [0] as well. *)
Fixpoint enumerate (c_callback : Z -> Z -> OS L Z) (handles : list Z)
  : OS L Z :=
  match handles with
  | [] => ret 1
  | hwnd :: rest =>
      go_on <- c_callback hwnd 0 ;;
      if go_on =? 0 then ret 0 else enumerate c_callback rest
  end.

(** [_user32.EnumWindows(c_callback, 0)]: the reply's [out] holds the
    top-level handles in Z order; a reply with [ret = 0] is a call that
    failed before it enumerated anything. *)
Definition native_EnumWindows (c_callback : Z -> Z -> OS L Z) : OS L Z :=
  r <- os_call Os.EnumWindows ;;
  if Os.ret r =? 0 then ret 0 else enumerate c_callback (Os.out r).

Definition native_EnumChildWindows (parent_hwnd : Z)
    (c_callback : Z -> Z -> OS L Z) : OS L Z :=
  r <- os_call (Os.EnumChildWindows parent_hwnd) ;;
  if Os.ret r =? 0 then ret 0 else enumerate c_callback (Os.out r).

(** The nested function [_callback] of [EnumWindows] and of
    [EnumChildWindows] (the two are the same): the boundary between the
    platform and the caller's callback. *)
Definition _callback (callback : Z -> OS L bool) (hwnd : Z) (_ : Z) : OS L Z :=
  try_except
    (go_on <- callback hwnd ;; ret (if (go_on : bool) then 1 else 0))
    (fun _ => ret 1).

Definition EnumWindows (callback : Z -> OS L bool) : OS L unit :=
  ok <- native_EnumWindows (_callback callback) ;;
  err <- get_last_error ;;
  if (ok =? 0) && negb (err =? 0) then raise (WinError err) else ret tt.

Definition EnumChildWindows (parent_hwnd : Z) (callback : Z -> OS L bool)
  : OS L unit :=
  ok <- native_EnumChildWindows parent_hwnd (_callback callback) ;;
  err <- get_last_error ;;
  if (ok =? 0) && negb (err =? 0) then raise (WinError err) else ret tt.

(** [user32.get_title_bar_info]: the module defines [GetTitleBarInfo] but
    no function of this name, so the attribute lookup raises. *)
Definition get_title_bar_info (hwnd : Z) : OS L (list Z) :=
  raise
    (AttributeError "module 'user32' has no attribute 'get_title_bar_info'").

(** [kernel32.GetCurrentProcessId]. *)
Definition GetCurrentProcessId : OS L Z :=
  r <- os_call Os.GetCurrentProcessId ;; ret (Os.ret r).

(** [kernel32.ProcessIdToSessionId]. *)
Definition ProcessIdToSessionId (dwProcessId : Z) : OS L Z :=
  r <- os_call (Os.ProcessIdToSessionId dwProcessId) ;;
  if Os.ret r =? 0 then raise_WinError else ret (nth 0 (Os.out r) 0).

(** [time.sleep]. *)
Definition sleep : OS L unit := os_call Os.sleep ;; ret tt.

End Wrappers.

End User32.

(** ** [automate/impl/win32.py]: [Window] and the focus protocols *)
Module Win32Window.

Import win32_constants.

(** A [Window] object: the handle, the fields [_pid] and [_tid] that
    [Element.__init__] sets to [None], and the values that
    [cached_property] has stored for [tid] and [pid].  Of the cached
    properties only these two are read more than once on one object in the
    code below, so only their caches are kept. *)
Record Window : Type := mkWindow {
  hwnd : Z;
  _pid : option Z;
  _tid : option Z;
  tid_cache : option Z;
  pid_cache : option Z
}.

(** [Element.__init__]. *)
Definition Element_init (hwnd : Z) : Window :=
  mkWindow hwnd None None None None.

(** The value of [x] where Python's [if x:] takes an [int | None] for
    true. *)
Definition truthy (o : option Z) : option Z :=
  match o with
  | Some z => if z =? 0 then None else Some z
  | None => None
  end.

Section Methods.
Context {L : Type}.

Definition is_visible (self : Window) : OS L bool :=
  User32.IsWindowVisible (hwnd self).

Definition rect (self : Window) : OS L Common.Rect :=
  User32.GetWindowRect (hwnd self).

Definition title (self : Window) : OS L string :=
  User32.GetWindowTextW (hwnd self).

Definition is_window (self : Window) : OS L bool :=
  User32.IsWindow (hwnd self).

Definition control_id (self : Window) : OS L Z :=
  User32.GetWindowLongW (hwnd self) GWL_ID.

Definition class_name (self : Window) : OS L string :=
  User32.GetClassNameW (hwnd self).

Definition exstyle (self : Window) : OS L Z :=
  User32.GetWindowLongW (hwnd self) GWL_EXSTYLE.

(** [Element.tid]: the cached value if there is one; else the body, whose
    result is cached.  The object comes back with the result. *)
Definition tid (self : Window) : OS L (Z * Window) :=
  match tid_cache self with
  | Some t => ret (t, self)
  | None =>
      match truthy (_tid self) with
      | Some t =>
          ret (t, mkWindow (hwnd self) (_pid self) (_tid self) (Some t)
                    (pid_cache self))
      | None =>
          tp <- User32.GetWindowThreadProcessId (hwnd self) ;;
          ret (fst tp,
               mkWindow (hwnd self) (Some (snd tp)) (Some (fst tp))
                 (Some (fst tp)) (pid_cache self))
      end
  end.

(** [Element.pid]. *)
Definition pid (self : Window) : OS L (Z * Window) :=
  match pid_cache self with
  | Some p => ret (p, self)
  | None =>
      match truthy (_pid self) with
      | Some p =>
          ret (p, mkWindow (hwnd self) (_pid self) (_tid self)
                    (tid_cache self) (Some p))
      | None =>
          tp <- User32.GetWindowThreadProcessId (hwnd self) ;;
          ret (snd tp,
               mkWindow (hwnd self) (Some (snd tp)) (Some (fst tp))
                 (tid_cache self) (Some (snd tp)))
      end
  end.

(** [Element.is_in_current_session]. *)
Definition is_in_current_session (self : Window) : OS L (bool * Window) :=
  current <- User32.GetCurrentProcessId ;;
  process_sid <- User32.ProcessIdToSessionId current ;;
  p <- pid self ;;
  element_sid <- User32.ProcessIdToSessionId (fst p) ;;
  ret (process_sid =? element_sid, snd p).

(** [Element.__repr__]: the reads of the f-string, left to right. *)
Definition Element_repr (self : Window) : OS L unit :=
  title self ;;
  control_id self ;;
  class_name self ;;
  pid self ;;
  rect self ;;
  ret tt.

(** [Window.__init__]. *)
Definition Window_init (hwnd : Z) : OS L Window :=
  let self := Element_init hwnd in
  w <- is_window self ;;
  if negb w then raise (PlainException "Current element is not a window...")
  else ret self.

(** The [while] loop of [is_real_window]; it returns the final
    [walk_hwnd]. *)
Fixpoint last_visible_popup (fuel : nat) (anc_hwnd walk_hwnd : option Z)
  : OS L (option Z) :=
  if bool_decide (anc_hwnd = walk_hwnd) then ret walk_hwnd
  else
    match fuel with
    | O => out_of_fuel
    | S fuel' =>
        let walk_hwnd := anc_hwnd in
        anc_hwnd <- User32.GetLastActivePopup (handle_arg walk_hwnd) ;;
        visible <- User32.IsWindowVisible (handle_arg anc_hwnd) ;;
        if visible then ret walk_hwnd
        else last_visible_popup fuel' anc_hwnd walk_hwnd
    end.

(** [Window.is_real_window]. *)
Definition is_real_window (fuel : nat) (self : Window) : OS L bool :=
  visible <- is_visible self ;;
  if negb visible then ret false
  else
    anc_hwnd <- User32.GetAncestor (hwnd self) GA_ROOTOWNER ;;
    walk_hwnd <- last_visible_popup fuel anc_hwnd None ;;
    if negb (handle_is walk_hwnd (hwnd self)) then ret false
    else
      ti <- User32.get_title_bar_info (hwnd self) ;;
      if negb (Z.land (nth 0 ti 0) STATE_SYSTEM_INVISIBLE =? 0) then ret false
      else
        style <- exstyle self ;;
        if negb (Z.land style WS_EX_TOOLWINDOW =? 0) then ret false
        else ret true.

(** [Window.__eq__]. *)
Definition Window_eq (self : Window) (window : option Window) : result bool :=
  match window with
  | None => Raise NotImplementedError
  | Some window => Ok (hwnd self =? hwnd window)
  end.

Definition is_minimized (self : Window) : OS L bool :=
  User32.IsIconic (hwnd self).

Definition is_maximized (self : Window) : OS L bool :=
  User32.IsZoomed (hwnd self).

Definition maximize (self : Window) : OS L unit :=
  User32.ShowWindow (hwnd self) SW_MAXIMIZE.

Definition restore (self : Window) : OS L unit :=
  User32.ShowWindow (hwnd self) SW_RESTORE.

Definition show (self : Window) : OS L unit :=
  User32.ShowWindow (hwnd self) SW_SHOW.

(** [Window.focus], the gentle method.  The test of [is_focused] at its
    head is commented out in the source.  ([delay_after] is a float and
    only handed to [time.sleep].) *)
Definition focus (self : Window) : OS L unit :=
  show self ;;
  User32.SetWindowPos (hwnd self) HWND_TOPMOST 0 0 0 0
    (Z.lor SWP_NOMOVE SWP_NOSIZE) ;;
  User32.SetWindowPos (hwnd self) HWND_NOTOPMOST 0 0 0 0
    (Z.lor SWP_NOMOVE SWP_NOSIZE) ;;
  User32.sleep.

End Methods.

(** The module-level [windows] (and [Context.windows], which has the same
    body): the callback appends to [_windows]. *)
Definition windows {L} (fuel : nat) : OS L (list Window) :=
  r <- with_local []
         (User32.EnumWindows
            (fun hwnd =>
               window <- Window_init hwnd ;;
               real <- is_real_window fuel window ;;
               if (real : bool)
               then _windows <- get_local ;;
                    set_local (_windows ++ [window]) ;;
                    ret true
               else ret true)) ;;
  ret (snd r).

(** The module-level [top_window]: [windows()[0]]. *)
Definition top_window {L} (fuel : nat) : OS L Window :=
  ws <- windows fuel ;;
  match ws with
  | w :: _ => ret w
  | [] => raise IndexError
  end.

(** [Window.top_window]: the callback assigns to [window]. *)
Definition Window_top_window {L} (self : Window) : OS L (option Window) :=
  r <- with_local None
         (User32.EnumWindows
            (fun hwnd =>
               window <- get_local ;;
               match window with
               | Some _ => ret false
               | None =>
                   win <- Window_init hwnd ;;
                   visible <- is_visible win ;;
                   t <- (if (visible : bool) then title win else ret "") ;;
                   if visible && negb (String.eqb t "")
                   then set_local (Some win) ;; ret false
                   else ret true
               end)) ;;
  ret (snd r).

(** [Window.is_focused], with the three [print]s that precede its
    [return]. *)
Definition is_focused {L} (fuel : nat) (self : Window) : OS L bool :=
  User32.GetForegroundWindow ;;
  w <- top_window fuel ;;
  Element_repr w ;;
  w <- top_window fuel ;;
  lift (Window_eq self (Some w)) ;;
  fg <- User32.GetForegroundWindow ;;
  if handle_is fg (hwnd self) then ret true
  else w <- Window_top_window self ;; lift (Window_eq self w).

Section Attach.
Context {L : Type}.
Variable is_focused_check : Window -> OS L bool.
Variable gentle : Window -> OS L unit.
Variable foreground : OS L (option Z).

(** The attach-based method: [Window._focus], and [Window.set_focus2] of
    the older revision, which has the same body up to the three calls
    taken as parameters here ([self.is_focused()], the fall-back
    [self.focus()] or [self.set_focus()], and [GetForegroundWindow()]). *)
Definition attach_focus (self : Window) : OS L unit :=
  focused <- is_focused_check self ;;
  if (focused : bool) then title self ;; ret tt
  else
    fg_hwnd <- foreground ;;
    tp <- User32.GetWindowThreadProcessId (handle_arg fg_hwnd) ;;
    let fg_tid := fst tp in
    session <- is_in_current_session self ;;
    let self := snd session in
    if negb (fst session) then title self ;; gentle self
    else
      attached <-
        try_except
          (t <- tid self ;;
           User32.AttachThreadInput (fst t) fg_tid true ;;
           ret (Some (snd t)))
          (fun err => gentle self ;; ret None) ;;
      match attached with
      | None => ret tt
      | Some self =>
          try_finally
            (minimized <- is_minimized self ;;
             (if (minimized : bool) then restore self
              else maximized <- is_maximized self ;;
                   if (maximized : bool) then maximize self else show self) ;;
             User32.SetForegroundWindow (hwnd self))
            (t <- tid self ;;
             User32.AttachThreadInput (fst t) fg_tid false) ;;
          title self ;;
          ret tt
      end.

End Attach.

(** [Window._focus]. *)
Definition _focus {L} (fuel : nat) (self : Window) : OS L unit :=
  attach_focus (is_focused fuel) focus User32.GetForegroundWindow self.

(** The older revision of the module. *)
Module Legacy.

(** [win32.GetForegroundWindow] of [win_api/win32_wrapper.py]: it tests
    [not hWnd], which a NULL result satisfies.  (The other wrappers the
    code below uses have the bodies of [user32.py].) *)
Definition GetForegroundWindow {L} : OS L (option Z) :=
  r <- os_call Os.GetForegroundWindow ;;
  match as_handle (Os.ret r) with
  | None => raise (ValueError "The result of 'GetForegroundWindow' is None.")
  | Some hWnd => ret (Some hWnd)
  end.

(** [Window.__init__]. *)
Definition Window_init {L} (hwnd : Z) : OS L Window :=
  let self := Element_init hwnd in
  w <- is_window self ;;
  if negb w
  then raise (Win32NotAWindowError "Current element is not a window...")
  else ret self.

(** [win32gui.EnumWindows] of pywin32, which is no part of the
    repository: it hands the handles to the callback until the callback
    returns false or raises, and an exception of the callback comes out of
    it.  Whether it reports a walk that did not reach its end by raising
    [pywintypes.error] is left to the oracle. *)
Fixpoint win32gui_enumerate {L} (callback : Z -> OS L bool)
    (handles : list Z) : OS L bool :=
  match handles with
  | [] => ret true
  | hwnd :: rest =>
      go_on <- callback hwnd ;;
      if (go_on : bool) then win32gui_enumerate callback rest else ret false
  end.

Definition win32gui_EnumWindows {L} (callback : Z -> OS L bool) : OS L unit :=
  r <- os_call Os.EnumWindows ;;
  completed <- (if Os.ret r =? 0 then ret false
                else win32gui_enumerate callback (Os.out r)) ;;
  if (completed : bool) then ret tt
  else
    e <- os_call Os.win32gui_EnumWindows_error ;;
    if Os.ret e =? 0 then ret tt else raise (pywintypes_error (Os.ret e)).

(** [Window.top_window]. *)
Definition top_window {L} (self : Window) : OS L (option Window) :=
  r <- with_local None
         (win32gui_EnumWindows
            (fun hwnd =>
               win <- Window_init hwnd ;;
               visible <- is_visible win ;;
               t <- (if (visible : bool) then title win else ret "") ;;
               if visible && negb (String.eqb t "")
               then set_local (Some win) ;; ret false
               else ret true)) ;;
  ret (snd r).

(** [Window.is_focused]. *)
Definition is_focused {L} (self : Window) : OS L bool :=
  fg <- GetForegroundWindow ;;
  if handle_is fg (hwnd self) then ret true
  else w <- top_window self ;; lift (Window_eq self w).

(** [Window.set_focus], the gentle method, with its test in place. *)
Definition set_focus {L} (self : Window) : OS L unit :=
  focused <- is_focused self ;;
  if (focused : bool) then ret tt
  else
    show self ;;
    User32.SetWindowPos (hwnd self) HWND_TOPMOST 0 0 0 0
      (Z.lor SWP_NOMOVE SWP_NOSIZE) ;;
    User32.SetWindowPos (hwnd self) HWND_NOTOPMOST 0 0 0 0
      (Z.lor SWP_NOMOVE SWP_NOSIZE) ;;
    User32.sleep.

(** [Window.set_focus2]. *)
Definition set_focus2 {L} (self : Window) : OS L unit :=
  attach_focus is_focused set_focus GetForegroundWindow self.

End Legacy.

End Win32Window.

(** ** What a run adds to the log *)
Module Trace.

(** Every run of [m] that ends adds events to the log, and the outcome
    and the added events satisfy [Q]. *)
Definition run {L A} (m : OS L A) (Q : result A -> list Os.Event -> Prop)
  : Prop :=
  forall s r s',
    m s = Some (r, s') ->
    exists evs,
      Os.events (fst s') = Os.events (fst s) ++ evs /\ Q r evs.

(** Every run of [m] ends: it returns or raises, and needs no fuel. *)
Definition ends {L A} (m : OS L A) : Prop :=
  forall s, exists r s', m s = Some (r, s').

(** Every run of [m] that ends has an outcome that satisfies [Q]. *)
Definition outcome {L A} (m : OS L A) (Q : result A -> Prop) : Prop :=
  forall s r s', m s = Some (r, s') -> Q r.

(** Every run of [m] that ends leaves the variables of the enclosing
    function as they were. *)
Definition keeps {L A} (m : OS L A) : Prop :=
  forall s r s', m s = Some (r, s') -> snd s' = snd s.

(** Every call of the list satisfies [P]. *)
Definition all_calls (P : Os.Call -> bool) (evs : list Os.Event) : Prop :=
  Forall (fun ev => P (fst ev) = true) evs.

(** [m] makes only calls that satisfy [P], however it ends. *)
Definition only {L A} (P : Os.Call -> bool) (m : OS L A) : Prop :=
  run m (fun _ evs => all_calls P evs).

Definition quiet (c : Os.Call) : bool := negb (Os.mutating c).

Definition detached (c : Os.Call) : bool := negb (Os.attaching c).

(** The event is a request to detach thread [a] from thread [b]. *)
Definition is_detach (a b : Z) (ev : Os.Event) : bool :=
  match fst ev with
  | Os.AttachThreadInput a' b' false => (a =? a') && (b =? b')
  | _ => false
  end.

(** Every attach request of the list that the platform granted (a reply
    other than 0) has a request to detach the same threads later in the
    list. *)
Fixpoint released (evs : list Os.Event) : bool :=
  match evs with
  | [] => true
  | (Os.AttachThreadInput a b true, reply) :: rest =>
      (if Os.ret reply =? 0 then true else existsb (is_detach a b) rest)
      && released rest
  | _ :: rest => released rest
  end.

(** A postcondition for [run]: whatever the outcome, the added events
    are released. *)
Definition ends_released {A} (_ : result A) (evs : list Os.Event) : Prop :=
  released evs = true.

(** The same, spelled out: wherever the list has a granted attach
    request, a request to detach the same threads comes after it. *)
Definition detach_follows (evs : list Os.Event) : Prop :=
  forall before a b reply after,
    evs = before ++ (Os.AttachThreadInput a b true, reply) :: after ->
    Os.ret reply <> 0 ->
    exists between reply' rest,
      after = between ++ (Os.AttachThreadInput a b false, reply') :: rest.

End Trace.

(** ** Sample data, for the concrete instances of the properties *)
Module Sample.

(** An engine in which every call succeeds. *)
Definition uia : Uia.IUIAutomation :=
  Uia.mkIUIAutomation
    (Uia.Done Uia.TrueCondition)
    (fun p v flags => Uia.Done (Uia.PropertyCondition p v flags))
    (fun cs => Uia.Done (Uia.AndCondition cs)).

(** A window whose reads all succeed. *)
Definition attrs (hwnd pid : Z) (class_name title : string) : Win32.Attrs :=
  Win32.mkAttrs hwnd (Ok (hwnd + 1000, pid)) (Ok hwnd) class_name title
    (Ok (Common.mkRect 0 0 10 10)).

(** A root with the children [c1] and [c2], [c1] with the child [g1]. *)
Definition g1 : Win32.Element := Base.mkNode (attrs 3 20 "Button" "OK") (Ok []).

Definition c1 : Win32.Element :=
  Base.mkNode (attrs 1 20 "Pane" "Left") (Ok [g1]).

Definition c2 : Win32.Element :=
  Base.mkNode (attrs 2 20 "Pane" "Right") (Ok []).

Definition root : Win32.Element :=
  Base.mkNode (attrs 0 20 "Frame" "Main") (Ok [c1; c2]).

(** A window that went stale: its rectangle cannot be read any more. *)
Definition stale_attrs (hwnd : Z) (class_name title : string) : Win32.Attrs :=
  Win32.mkAttrs hwnd (Ok (hwnd + 1000, 20)) (Ok hwnd) class_name title
    (Raise (WinError 1400)).

(** [root] again, with [c1] gone stale. *)
Definition stale_c1 : Win32.Element :=
  Base.mkNode (stale_attrs 1 "Pane" "Left") (Ok [g1]).

Definition stale_root : Win32.Element :=
  Base.mkNode (attrs 0 20 "Frame" "Main") (Ok [stale_c1; c2]).

(** A walk that has printed nothing yet. *)
Definition fresh_walk : Base.Walk Z := Base.mkWalk ∅ [] [].

(** The second read of a rectangle, for the outline: window 1 has gone
    in the meantime, the other windows answer as before. *)
Definition second_read (e : Win32.Element) : result Common.Rect :=
  if Win32.hwnd (Base.attrs e) =? 1 then Raise (WinError 1400)
  else Win32.Element_rect e.

(** Accessibility nodes: a window with two children, of which the first
    has gone stale, so that every read of it fails (the engine's
    [UIA_E_ELEMENTNOTAVAILABLE]). *)
Definition gone : Uia.Element :=
  Base.mkNode
    (Uia.mkAttrs (Raise (COMError (-2147220991)))
       (Raise (COMError (-2147220991))) (Raise (COMError (-2147220991)))
       (Raise (COMError (-2147220991))))
    (Raise (COMError (-2147220991))).

Definition button : Uia.Element :=
  Base.mkNode
    (Uia.mkAttrs (Ok "OK") (Ok 50000) (Ok "ok_button")
       (Ok (Common.mkRect 2 2 8 8)))
    (Ok []).

Definition gone_root : Uia.Element :=
  Base.mkNode
    (Uia.mkAttrs (Ok "Main") (Ok 50032) (Ok "")
       (Ok (Common.mkRect 0 0 10 10)))
    (Ok [gone; button]).

(** [Condition(title=re.compile(""))]: a pattern every title matches. *)
Definition any_title : Win32.Condition :=
  Win32.mkCondition None None None
    (Some (Win32.TitlePattern (Win32.mkPattern (fun _ => true)))).

(** [Condition(pid=1, title="ok")] and a window of process 20 titled
    ["OK"]. *)
Definition pid_and_title : Win32.Condition :=
  Win32.mkCondition (Some 1) None None (Some (Win32.TitleStr "ok")).

Definition pid_only : Win32.Condition :=
  Win32.mkCondition (Some 1) None None None.

(** A desktop whose foreground window is [fg]: the top-level windows
    are 200 and 100, every window is a visible window titled ["App"] of
    session 1, the thread of window [h] is [h + 1] and its process
    [h + 2]; every request is granted but [SetForegroundWindow], which is
    refused with error 5. *)
Definition desktop_oracle (fg : Z) (log : list Os.Event) (c : Os.Call)
  : Os.Reply :=
  match c with
  | Os.GetForegroundWindow => Os.mkReply fg [] ""
  | Os.EnumWindows => Os.mkReply 1 [200; 100] ""
  | Os.GetWindowTextW _ => Os.mkReply 3 [] "App"
  | Os.GetWindowThreadProcessId h => Os.mkReply (h + 1) [h + 2] ""
  | Os.ProcessIdToSessionId _ => Os.mkReply 1 [1] ""
  | Os.SetForegroundWindow _ => Os.mkReply 0 [] ""
  | Os.get_last_error => Os.mkReply 5 [] ""
  | Os.win32gui_EnumWindows_error => Os.mkReply 0 [] ""
  | _ => Os.mkReply 1 [] ""
  end.

Definition desktop (fg : Z) : Os.World * unit :=
  (Os.mkWorld (desktop_oracle fg) [], tt).

(** The window object of handle 100, fresh from its constructor. *)
Definition window_100 : Win32Window.Window := Win32Window.Element_init 100.

(** A callback that raises on handle 200 and appends every other handle
    to a list of the enclosing function. *)
Definition picky_callback (hwnd : Z) : OS (list Z) bool :=
  if hwnd =? 200 then raise (ValueError "not this one")
  else seen <- get_local ;; set_local (seen ++ [hwnd]) ;; ret true.

(** The calls of a log, without the replies. *)
Definition calls (s : Os.World * unit) : list Os.Call :=
  map fst (Os.events (fst s)).

End Sample.

(** ** [automate/common.py]: [Color] *)
Module Color.

Definition RED : Z := 0x0000FF.
Definition GREEN : Z := 0x00FF00.
Definition BLUE : Z := 0xFF0000.

(** [Color.rgb]: [r | (g << 8) | (b << 16)], on Python's unbounded
    integers. *)
Definition rgb (r g b : Z) : Z :=
  Z.lor (Z.lor r (Z.shiftl g 8)) (Z.shiftl b 16).

(** The older revision ([src/automate/common.py], and [src/main.py] with
    the same body) tests the channels first.  The message of its
    [ValueError] goes on to show the three values; it is cut short
    here. *)
Module Legacy.

Definition rgb (r g b : Z) : result Z :=
  if negb (((0 <=? r) && (r <=? 255)) &&
           ((0 <=? g) && (g <=? 255)) &&
           ((0 <=? b) && (b <=? 255)))
  then Raise (ValueError "Out of bounds")
  else Ok (Z.lor (Z.lor r (Z.shiftl g 8)) (Z.shiftl b 16)).

End Legacy.

End Color.

(** ** Vocabulary for statements about a snapshot *)
Module Snapshot.

(** The proper descendants of an element in pre-order: each child, then
    the child's descendants, then the later children.  An element whose
    children cannot be enumerated has none. *)
Fixpoint descendants {A} (element : Base.Node A) : list (Base.Node A) :=
  match element with
  | Base.mkNode _ (Raise _) => []
  | Base.mkNode _ (Ok kids) =>
      (fix loop (l : list (Base.Node A)) : list (Base.Node A) :=
         match l with
         | [] => []
         | child :: rest => child :: descendants child ++ loop rest
         end) kids
  end.

(** The verdict of a test that has been made: only [Ok true] counts. *)
Definition accepted (r : result bool) : bool :=
  match r with
  | Ok true => true
  | _ => false
  end.

End Snapshot.

(** ** Vocabulary for statements about what a walk prints *)
Module Output.

(** How many of the lines carry the key [k]. *)
Definition count_key (k : string) (ls : list Base.Line) : Z :=
  Z.of_nat
    (List.length (List.filter (fun l => String.eqb (Base.line_key l) k) ls)).

(** The outlines that go with printed lines: when [draw] is on, one for
    each line that shows a rectangle with area, in the order of the
    lines. *)
Definition outlines_of {D} (draw : bool) (dur : D) (ls : list Base.Line)
  : list (Common.Rect * D) :=
  if draw
  then map (fun r => (r, dur))
         (List.filter Common.has_area (omap Base.line_rect ls))
  else [].

(** What a walk has added to its store: the lines [added] and the outlines
    [drawn].  The lines lie between the depths [lo] and [hi]; the ordinal
    of each is the count its key had in [c0] plus the number of earlier
    lines with the same key; a walk that returned normally has left the
    counts in step with the lines; the outlines are those of the
    lines. *)
Definition grown {D} (lo : Z) (hi : option Z) (draw : bool) (dur : D)
    (c0 : gmap string Z) (s : Base.Walk D) (r : result unit)
    (s' : Base.Walk D) : Prop :=
  exists added drawn,
    Base.stdout s' = Base.stdout s ++ added /\
    Base.outlined s' = Base.outlined s ++ drawn /\
    Forall (fun l => lo <= Base.line_depth l /\
                     match hi with
                     | Some h => Base.line_depth l <= h
                     | None => True
                     end) added /\
    (forall pre l post,
        added = pre ++ l :: post ->
        Base.line_idx l =
        Base.counters_get c0 (Base.line_key l) +
        count_key (Base.line_key l) pre) /\
    (r = Ok tt ->
     forall k, Base.counters_get (Base.counters s') k =
               Base.counters_get c0 k + count_key k added) /\
    drawn = outlines_of draw dur added.

(** Every run of [tree] on [element] that ends has grown the store in
    this way, between the depth it was called with and the larger of that
    depth and [max_depth]. *)
Definition grows {A D} (reads : Base.Reads A) (element : Base.Node A)
  : Prop :=
  forall md cs d draw (dur : D) s r s',
    Base.tree reads element md cs d draw dur s = Some (r, s') ->
    grown d
      (match md with Some m => Some (Z.max d m) | None => None end)
      draw dur (default ∅ cs) s r s'.

End Output.

(** ** Vocabulary for statements about the condition builder *)
Module Builder.

(** The property and the value a refinement asks the engine for. *)
Definition request (r : Uia.Refinement) : Uia.Property * Uia.PropertyValue :=
  match r with
  | Uia.by_pid p => (Uia.Property_ProcessId, Uia.IntValue p)
  | Uia.by_control_type ct => (Uia.Property_ControlType, Uia.IntValue ct)
  | Uia.by_class_name s => (Uia.Property_ClassName, Uia.StrValue s)
  | Uia.by_title s => (Uia.Property_Title, Uia.StrValue s)
  end.

(** The engine made the native condition [n] for the refinement [r], as a
    case-insensitive property condition. *)
Definition made (uia : Uia.IUIAutomation) (r : Uia.Refinement)
    (n : Uia.IUIAutomationCondition) : Prop :=
  Uia.CreatePropertyConditionEx uia (fst (request r)) (snd (request r))
    Uia.PropertyConditionFlags_IgnoreCase = Uia.Done n.

End Builder.

(** ** [automate/impl/win32.py]: the rest of [Element] and [Context] *)
Module Win32Live.

(** [Element.children]: the callback makes an [Element] of every handle,
    appends it to [children] and asks the platform to go on. *)
Definition children {L} (self : Win32Window.Window)
  : OS L (list Win32Window.Window) :=
  r <- with_local []
         (User32.EnumChildWindows (Win32Window.hwnd self)
            (fun hwnd =>
               children <- get_local ;;
               set_local (children ++ [Win32Window.Element_init hwnd]) ;;
               ret true)) ;;
  ret (snd r).

(** [Element.satisfies] on a live element.  [pid] is a cached property
    that may store the ids on the object, so the object comes back with
    the verdict.  [control_id] and [class_name] are cached too; as in
    [Win32Window] their caches are not kept, the elements a search tests
    being fresh ones that are tested once. *)
Definition satisfies {L} (self : Win32Window.Window)
    (condition : Win32.Condition) : OS L (bool * Win32Window.Window) :=
  let result := false in
  rs <- match Win32.pid condition with
        | Some pid =>
            if pid =? 0 then ret (result, self)
            else p <- Win32Window.pid self ;; ret (pid =? fst p, snd p)
        | None => ret (result, self)
        end ;;
  let result := fst rs in
  let self := snd rs in
  result <- match Win32.control_id condition with
            | Some control_id =>
                if control_id =? 0 then ret result
                else c <- Win32Window.control_id self ;; ret (control_id =? c)
            | None => ret result
            end ;;
  result <- match Win32.class_name condition with
            | Some class_name =>
                if String.eqb class_name "" then ret result
                else c <- Win32Window.class_name self ;;
                     ret (String.eqb class_name c)
            | None => ret result
            end ;;
  result <- match Win32.title condition with
            | Some (Win32.TitleStr title) =>
                if String.eqb title "" then ret result
                else t <- Win32Window.title self ;;
                     ret (String.eqb (Win32.lower title) (Win32.lower t))
            | Some (Win32.TitlePattern title) =>
                t <- Win32Window.title self ;; ret (Win32.re_match title t)
            | None => ret result
            end ;;
  ret (result, self).


End Win32Live.

(** ** Platforms that answer the same whatever has happened *)
Module Platform.

(** The world answers every call by [f], whatever its log holds. *)
Definition static (f : Os.Call -> Os.Reply) (w : Os.World) : Prop :=
  forall log c, Os.oracle w log c = f c.

(** On a static platform, [m] started with the variables [l] ends in [r]
    with the variables [l']. *)
Definition answers {L A} (f : Os.Call -> Os.Reply) (m : OS L A) (l : L)
    (r : result A) (l' : L) : Prop :=
  forall w, static f w ->
    exists w', static f w' /\ m (w, l) = Some (r, (w', l')).

(** The handle is a window, visible, and has a title that is not
    empty. *)
Definition titled_window (f : Os.Call -> Os.Reply) (h : Z) : bool :=
  negb (Os.ret (f (Os.IsWindow h)) =? 0) &&
  negb (Os.ret (f (Os.IsWindowVisible h)) =? 0) &&
  negb (Os.ret (f (Os.GetWindowTextW h)) <=? 0) &&
  negb (String.eqb (Os.text (f (Os.GetWindowTextW h))) "").

(** What the [user32] wrappers answer for the handle [h] on a platform
    that answers by [f]: the attributes of the handle's node in a
    snapshot of that platform. *)
Definition attrs_of (f : Os.Call -> Os.Reply) (h : Z) : Win32.Attrs :=
  let err := Os.ret (f Os.get_last_error) in
  Win32.mkAttrs h
    (let r := f (Os.GetWindowThreadProcessId h) in
     if Os.ret r =? 0 then Raise (WinError err)
     else Ok (Os.ret r, nth 0 (Os.out r) 0))
    (let r := f (Os.GetWindowLongW h win32_constants.GWL_ID) in
     if (Os.ret r =? 0) && negb (err =? 0) then Raise (WinError err)
     else Ok (Os.ret r))
    (let r := f (Os.GetClassNameW h) in
     if Os.ret r <=? 0 then "" else Os.text r)
    (let r := f (Os.GetWindowTextW h) in
     if Os.ret r <=? 0 then "" else Os.text r)
    (let r := f (Os.GetWindowRect h) in
     if Os.ret r =? 0 then Raise (WinError err)
     else Ok (Common.mkRect (nth 0 (Os.out r) 0) (nth 1 (Os.out r) 0)
                (nth 2 (Os.out r) 0) (nth 3 (Os.out r) 0))).

End Platform.

(** ** The shape of a log of the attach-based focus method *)
Module Protocol.

(** Neither an attach or detach request nor a request for the
    foreground. *)
Definition plain (c : Os.Call) : bool :=
  match c with
  | Os.AttachThreadInput _ _ _ => false
  | Os.SetForegroundWindow _ => false
  | _ => true
  end.

(** No attach or detach request, and a request for the foreground only
    for the window [h]. *)
Definition inside (h : Z) (c : Os.Call) : bool :=
  match c with
  | Os.AttachThreadInput _ _ _ => false
  | Os.SetForegroundWindow h' => h' =? h
  | _ => true
  end.

(** The log holds no attach request and no request for the foreground;
    or one attach request, which was refused, and no request for the
    foreground; or one attach request, which was granted, and the request
    to detach the same threads after it, with every request for the
    foreground between the two and for the window [h]. *)
Definition bracketed (h : Z) (evs : list Os.Event) : Prop :=
  Trace.all_calls plain evs \/
  (exists e0 t fg reply rest,
      evs = e0 ++ (Os.AttachThreadInput t fg true, reply) :: rest /\
      Os.ret reply = 0 /\
      Trace.all_calls plain e0 /\ Trace.all_calls plain rest) \/
  (exists e0 t fg reply body reply' rest,
      evs = e0 ++ (Os.AttachThreadInput t fg true, reply) ::
            body ++ (Os.AttachThreadInput t fg false, reply') :: rest /\
      Os.ret reply <> 0 /\
      Trace.all_calls plain e0 /\
      Trace.all_calls (inside h) body /\
      Trace.all_calls plain rest).

End Protocol.

(** ** More sample data *)
Module Samples.

(** A window whose rectangle has no width. *)
Definition flat : Win32.Element :=
  Base.mkNode
    (Win32.mkAttrs 4 (Ok (1004, 20)) (Ok 4) "Static" "Rule"
       (Ok (Common.mkRect 5 5 5 9)))
    (Ok []).

(** A root with the children [flat] and [Sample.c2]. *)
Definition root_with_flat : Win32.Element :=
  Base.mkNode (Sample.attrs 0 20 "Frame" "Main") (Ok [flat; Sample.c2]).

(** A window whose children cannot be enumerated. *)
Definition sealed : Win32.Element :=
  Base.mkNode (Sample.attrs 5 20 "Pane" "Sealed") (Raise (WinError 5)).

(** A root with the children [Sample.g1] and [sealed]. *)
Definition root_with_sealed : Win32.Element :=
  Base.mkNode (Sample.attrs 0 20 "Frame" "Main") (Ok [Sample.g1; sealed]).

(** [Condition(title="ok")]. *)
Definition title_ok : Win32.Condition :=
  Win32.mkCondition None None None (Some (Win32.TitleStr "ok")).

(** A desktop like [Sample.desktop] on which no call leaves an error
    code behind, window 200 has no title, and every window is its own
    root owner and its own last active popup. *)
Definition calm_answers (c : Os.Call) : Os.Reply :=
  match c with
  | Os.EnumWindows => Os.mkReply 1 [200; 100] ""
  | Os.EnumChildWindows _ => Os.mkReply 1 [11; 12; 13] ""
  | Os.GetWindowTextW h => if h =? 200 then Os.mkReply 0 [] ""
                           else Os.mkReply 3 [] "App"
  | Os.GetWindowThreadProcessId h => Os.mkReply (h + 1) [h + 2] ""
  | Os.GetAncestor h _ => Os.mkReply h [] ""
  | Os.GetLastActivePopup h => Os.mkReply h [] ""
  | Os.ProcessIdToSessionId _ => Os.mkReply 1 [1] ""
  | Os.get_last_error => Os.mkReply 0 [] ""
  | _ => Os.mkReply 1 [] ""
  end.

Definition calm : Os.World * unit :=
  (Os.mkWorld (fun _ => calm_answers) [], tt).

(** An accessibility node whose control type is no member of
    [ControlType]. *)
Definition odd_node : Uia.Element :=
  Base.mkNode
    (Uia.mkAttrs (Ok "Odd") (Ok 49999) (Ok "")
       (Ok (Common.mkRect 0 0 10 10)))
    (Ok []).

End Samples.

(** * Part II: the properties *)

(** ** Geometry *)

Lemma half_between (n : Z) : 0 <= n -> 0 <= Common.half n <= n.
Proof.
  intros Hn. unfold Common.half. rewrite Z.quot_div_nonneg by lia.
  split.
  - apply Z.div_pos; lia.
  - apply Z.div_le_upper_bound; lia.
Qed.

(** C9 as stated fails: nothing orders the edges, and a rectangle whose
    right edge lies left of its left edge has area but an empty box. *)
Lemma center_in_box_inverted_fails :
  let r := Common.mkRect 10 0 0 10 in
  Common.has_area r = true /\
  Common.center r = Common.mkPoint 5 5 /\
  ~ Common.in_box r (Common.center r).
Proof.
  cbv zeta. split; [reflexivity|]. split; [reflexivity|].
  unfold Common.in_box; cbn. lia.
Qed.

(** C9 (amended): for every rectangle that has area and whose edges are
    ordered ([left <= right] and [top <= bottom]), the center lies in the
    closed box [[left, right] x [top, bottom]]. *)
Theorem center_in_box (r : Common.Rect) :
  Common.has_area r = true ->
  Common.left r <= Common.right r ->
  Common.top r <= Common.bottom r ->
  Common.in_box r (Common.center r).
Proof.
  intros _ Hx Hy.
  unfold Common.in_box, Common.center, Common.width, Common.height; cbn.
  pose proof (half_between (Common.right r - Common.left r)) as Hw.
  pose proof (half_between (Common.bottom r - Common.top r)) as Hh.
  lia.
Qed.

Lemma center_in_box_witness :
  let r := Common.mkRect 0 0 7 3 in
  Common.has_area r = true /\ Common.in_box r (Common.center r).
Proof.
  cbv zeta. split; [reflexivity|].
  apply center_in_box; [reflexivity | cbn; lia | cbn; lia].
Defined.

(** ** Conditions of the accessibility backend *)

Section UiaCondition.
Variable uia : Uia.IUIAutomation.





End UiaCondition.


(** ** Matching in the window-handle backend *)

(** C1 fails on the code: with a process id and a title supplied, the
    title alone decides.  A window of process 20 titled ["OK"] satisfies
    [Condition(pid=1, title="ok")], although it does not satisfy
    [Condition(pid=1)]. *)
Theorem satisfies_last_refinement_wins :
  Win32.satisfies Sample.g1 Sample.pid_and_title = Ok true /\
  Win32.satisfies Sample.g1 Sample.pid_only = Ok false.
Proof. split; reflexivity. Qed.

(** Whenever a title pattern is supplied and the reads succeed, the
    verdict is the pattern's, whatever the other fields ask for. *)
Lemma satisfies_pattern_decides (self : Win32.Element) (c : Win32.Condition)
    (p : Win32.Pattern) (b : bool) :
  Win32.title c = Some (Win32.TitlePattern p) ->
  Win32.satisfies self c = Ok b ->
  b = Win32.re_match p (Win32.Element_title self).
Proof.
  intros Ht. unfold Win32.satisfies. rewrite Ht.
  destruct (Win32.pid c) as [z|]; [destruct (z =? 0)|];
    try destruct (Win32.Element_pid self); cbn; try discriminate;
    (destruct (Win32.control_id c) as [z'|]; [destruct (z' =? 0)|];
     try destruct (Win32.Element_control_id self); cbn; try discriminate);
    intros [= <-]; reflexivity.
Qed.

(** A condition with no field supplied is satisfied by no element, and the
    test reads nothing, so it cannot raise. *)
Lemma satisfies_empty (self : Win32.Element) :
  Win32.satisfies self Win32.Condition_new = Ok false.
Proof. reflexivity. Qed.

Lemma matches_empty (self : Win32.Element) :
  Win32.Legacy.matches (Win32.Legacy.Plain Win32.Condition_new) (Some self)
  = Ok false.
Proof. reflexivity. Qed.

(** ** Search in the window-handle backend *)

Section SearchFacts.
Context {C : Type} `{Win32.Matcher C}.
Variable condition : C.

(** Where [find_all] returns, [find_first] returns the head of its list. *)
Lemma find_first_is_head (element : Win32.Element) : forall l,
  Win32.find_all condition element = Ok l ->
  Win32.find_first condition element = Ok (head l).
Proof.
  induction element as [a e|a kids IH] using Base.Node_ind; intros l.
  - discriminate.
  - cbn. revert l.
    induction kids as [|child rest IHrest]; intros l.
    + intros [= <-]. reflexivity.
    + apply Forall_cons_1 in IH as [IHchild IHkids].
      specialize (IHrest IHkids).
      destruct (Win32.test condition child) as [sat|e]; cbn; [|discriminate].
      destruct (Win32.find_all condition child) as [below|e]; cbn;
        [|discriminate].
      specialize (IHchild below eq_refl).
      match goal with
      | |- context [result_bind ?r _] => destruct r as [after|e] eqn:E
      end; cbn; [|discriminate].
      intros [= <-].
      destruct sat; [reflexivity|]. cbn.
      rewrite IHchild. cbn.
      destruct below as [|f below']; cbn; [|reflexivity].
      apply IHrest. reflexivity.
Qed.

(** [find_first] comes back empty-handed only when [find_all] does. *)
Lemma find_first_none (element : Win32.Element) :
  Win32.find_first condition element = Ok None ->
  Win32.find_all condition element = Ok [].
Proof.
  induction element as [a e|a kids IH] using Base.Node_ind.
  - discriminate.
  - cbn.
    induction kids as [|child rest IHrest].
    + reflexivity.
    + apply Forall_cons_1 in IH as [IHchild IHkids].
      specialize (IHrest IHkids).
      destruct (Win32.test condition child) as [[|]|e]; cbn;
        try discriminate.
      destruct (Win32.find_first condition child) as [[f|]|e]; cbn;
        try discriminate.
      rewrite (IHchild eq_refl). cbn.
      intros Hrest. rewrite (IHrest Hrest). reflexivity.
Qed.

(** C5: whenever [find_all] returns a list, [find_first] returns its first
    element ([None] for the empty list); and [find_first] returns [None]
    exactly when [find_all] returns the empty list. *)
Theorem find_first_agrees_with_find_all (element : Win32.Element) :
  (forall l, Win32.find_all condition element = Ok l ->
             Win32.find_first condition element = Ok (head l)) /\
  (Win32.find_first condition element = Ok None <->
   Win32.find_all condition element = Ok []).
Proof.
  split; [apply find_first_is_head|].
  split; [apply find_first_none|].
  intros Hall. apply (find_first_is_head element [] Hall).
Qed.

(** A test that rejects every element finds nothing, provided every
    enumeration of children succeeds. *)
Lemma find_nothing (element : Win32.Element) :
  (forall e, Win32.test condition e = Ok false) ->
  Base.enumerable element = true ->
  Win32.find_first condition element = Ok None /\
  Win32.find_all condition element = Ok [].
Proof.
  intros Hno.
  induction element as [a e|a kids IH] using Base.Node_ind.
  - discriminate.
  - cbn.
    induction kids as [|child rest IHrest].
    + auto.
    + apply Forall_cons_1 in IH as [IHchild IHkids].
      specialize (IHrest IHkids).
      intros [Hc Hr]%andb_prop.
      destruct (IHchild Hc) as [Hf Ha]. destruct (IHrest Hr) as [Hf' Ha'].
      rewrite Hno. cbn. rewrite Hf, Ha. cbn. rewrite Hf', Ha'. auto.
Qed.

(** A test that rejects every element never yields a match, also when an
    enumeration fails on the way. *)
Lemma find_no_match (element : Win32.Element) :
  (forall e, Win32.test condition e = Ok false) ->
  (forall r, Win32.find_first condition element <> Ok (Some r)) /\
  (forall l, Win32.find_all condition element = Ok l -> l = []).
Proof.
  intros Hno.
  induction element as [a e|a kids IH] using Base.Node_ind.
  - split; intros; discriminate.
  - cbn.
    induction kids as [|child rest IHrest].
    + split; [discriminate|]. intros l [= <-]. reflexivity.
    + apply Forall_cons_1 in IH as [[IHf IHa] IHkids].
      destruct (IHrest IHkids) as [IHf' IHa'].
      rewrite Hno. cbn. split.
      * intros r.
        destruct (Win32.find_first condition child) as [[f|]|e] eqn:E; cbn.
        -- exfalso. exact (IHf f eq_refl).
        -- apply IHf'.
        -- discriminate.
      * intros l.
        destruct (Win32.find_all condition child) as [below|e]; cbn;
          [|discriminate].
        rewrite (IHa below eq_refl).
        match goal with
        | |- context [result_bind ?r _] => destruct r as [after|e] eqn:E
        end; cbn; [|discriminate].
        rewrite (IHa' after eq_refl). intros [= <-]. reflexivity.
Qed.

End SearchFacts.

(** C10: a condition with no refinement is satisfied by no element (in
    either revision of the test); a search with it returns [None] and the
    empty list wherever the enumerations succeed, and never returns a
    match. *)
Theorem empty_condition_matches_nothing (element : Win32.Element) :
  (forall e,
      Win32.satisfies e Win32.Condition_new = Ok false /\
      Win32.Legacy.matches (Win32.Legacy.Plain Win32.Condition_new) (Some e)
      = Ok false) /\
  (Base.enumerable element = true ->
   Win32.find_first Win32.Condition_new element = Ok None /\
   Win32.find_all Win32.Condition_new element = Ok []) /\
  (forall r, Win32.find_first Win32.Condition_new element <> Ok (Some r)) /\
  (forall l, Win32.find_all Win32.Condition_new element = Ok l -> l = []).
Proof.
  split; [intros e; split; reflexivity|].
  split.
  - apply find_nothing. intros e. reflexivity.
  - apply find_no_match. intros e. reflexivity.
Qed.

Lemma empty_condition_matches_nothing_witness :
  Base.enumerable Sample.root = true /\
  Win32.find_first Win32.Condition_new Sample.root = Ok None /\
  Win32.find_all Win32.Condition_new Sample.root = Ok [].
Proof.
  split; [reflexivity|].
  apply (proj1 (proj2 (empty_condition_matches_nothing Sample.root))).
  reflexivity.
Defined.

(** C4: in a tree whose root has the children [c1] and [c2], in that
    order, where [c1] has the single child [g1], [find_all] with the
    match-everything condition returns [c1; g1; c2]; so does [find_all]
    with any condition that the three elements satisfy. *)
Theorem find_all_preorder (a0 a1 a2 a3 : Win32.Attrs) :
  let g1 : Win32.Element := Base.mkNode a3 (Ok []) in
  let c1 : Win32.Element := Base.mkNode a1 (Ok [g1]) in
  let c2 : Win32.Element := Base.mkNode a2 (Ok []) in
  let root : Win32.Element := Base.mkNode a0 (Ok [c1; c2]) in
  Win32.find_all Win32.Legacy.TrueCondition root = Ok [c1; g1; c2] /\
  (forall c : Win32.Condition,
      Win32.satisfies c1 c = Ok true ->
      Win32.satisfies g1 c = Ok true ->
      Win32.satisfies c2 c = Ok true ->
      Win32.find_all c root = Ok [c1; g1; c2]).
Proof.
  cbv zeta. split; [reflexivity|].
  intros c H1 H3 H2. cbn.
  unfold Win32.test, Win32.Condition_matcher.
  rewrite H1. cbn. rewrite H3. cbn. rewrite H2. reflexivity.
Qed.

Lemma find_all_preorder_witness :
  Win32.find_all Win32.Legacy.TrueCondition Sample.root
  = Ok [Sample.c1; Sample.g1; Sample.c2] /\
  Win32.find_all Sample.any_title Sample.root
  = Ok [Sample.c1; Sample.g1; Sample.c2].
Proof.
  pose proof (find_all_preorder
                (Sample.attrs 0 20 "Frame" "Main")
                (Sample.attrs 1 20 "Pane" "Left")
                (Sample.attrs 2 20 "Pane" "Right")
                (Sample.attrs 3 20 "Button" "OK")) as [Htrue Hany].
  split; [exact Htrue|].
  apply Hany; reflexivity.
Defined.

(** ** The tree walk *)

Section TreeWalk.
Context {A D : Type} (reads : Base.Reads A)
  (again : Base.Node A -> result Common.Rect).

Lemma depth_ok (md : option Z) :
  Base.valid_depth md ->
  match md with Some m => m <? 0 | None => false end = false.
Proof. destruct md; [apply Z.ltb_ge | reflexivity]. Qed.

(** [tree] up to the end of its [try]: the count of the key goes up, one
    line is printed, and only a readable rectangle leads on. *)
Lemma tree_step (element : Base.Node A) md cs d draw (dur : D) s k t :
  Base.valid_depth md ->
  Base.type_key reads element = Ok k ->
  Base.label reads element = Ok t ->
  Base.tree reads element md cs d draw dur s =
  let c := Base.entered cs k in
  let line := Base.mkLine d k (Base.counters_get c k - 1) t in
  match Base.rect reads element with
  | Raise _ =>
      Some (Ok tt,
            Base.mkWalk c (Base.stdout s ++ [line None]) (Base.outlined s))
  | Ok r =>
      Base.tree_after reads element md d draw dur
        (Base.mkWalk c (Base.stdout s ++ [line (Some r)]) (Base.outlined s))
  end.
Proof.
  intros Hmd Hk Ht.
  destruct element as [a kids]. cbn [Base.tree].
  rewrite (depth_ok md Hmd), Hk, Ht.
  unfold Base.tree_after, Base.entered.
  destruct (Base.rect reads (Base.mkNode a kids)) as [r|e]; destruct cs;
    reflexivity.
Qed.

Lemma lines_print c out (o : list (Common.Rect * D)) l :
  Base.lines (Base.mkWalk c (out ++ [l]) o) =
  map (fun l => Some (Base.shown l)) out ++ [Some (Base.shown l)].
Proof. unfold Base.lines; cbn. apply map_app. Qed.

(** [Walker.tree] up to the end of its [try]: as [tree_step]. *)
Lemma walker_step (element : Base.Node A) md cs d draw (dur : D) s k t :
  Base.valid_depth md ->
  Base.type_key reads element = Ok k ->
  Base.label reads element = Ok t ->
  Walker.tree reads again element md cs d draw dur s =
  let c := Base.entered cs k in
  let line := Base.mkLine d k (Base.counters_get c k - 1) t in
  match Base.rect reads element with
  | Raise _ =>
      Some (Ok tt,
            Base.mkWalk c (Base.stdout s ++ [line None]) (Base.outlined s))
  | Ok r =>
      Walker.tree_after reads again element md d draw dur
        (Base.mkWalk c (Base.stdout s ++ [line (Some r)]) (Base.outlined s))
  end.
Proof.
  intros Hmd Hk Ht.
  destruct element as [a kids]. cbn [Walker.tree].
  rewrite (depth_ok md Hmd), Hk, Ht.
  unfold Walker.tree_after, Base.entered.
  destruct (Base.rect reads (Base.mkNode a kids)) as [r|e]; destruct cs;
    reflexivity.
Qed.

(** The outline, when its own read of the rectangle succeeds. *)
Lemma draw_ok (element : Base.Node A) (draw : bool) (dur : D) s :
  (if draw
   then match again element with Ok _ => true | Raise _ => false end
   else true) = true ->
  exists s',
    (if draw then Walker.outline again element dur else ret tt) s
    = Some (Ok tt, s') /\
    Base.stdout s' = Base.stdout s.
Proof.
  destruct draw; [|eexists; split; reflexivity].
  unfold Walker.outline, bind, lift.
  destruct (again element) as [r|e]; [|discriminate]. intros _.
  destruct (negb (Common.has_area r)); cbn; eauto.
Qed.

(** The outline, when its own read of the rectangle fails: the exception
    leaves the walk where it was. *)
Lemma draw_fails (element : Base.Node A) (dur : D) (e : Exn) s :
  again element = Raise e ->
  Walker.outline again element dur s = Some (Raise e, s).
Proof.
  intros He. unfold Walker.outline, bind, lift. rewrite He. reflexivity.
Qed.

Lemma walks_children (kids : list (Base.Node A)) md d draw (dur : D) :
  Base.valid_depth md ->
  Forall (Walker.walks (D:=D) reads again) kids ->
  forall s,
    (fix loop (l : list (Base.Node A)) : bool :=
       match l with
       | [] => true
       | child :: rest =>
           Walker.walkable reads again md (d + 1) draw child && loop rest
       end) kids = true ->
    exists s',
      Walker.tree_children reads again md d draw dur kids s
      = Some (Ok tt, s') /\
      Base.lines s' =
      Base.lines s ++
      map (Base.expected reads)
        ((fix loop (l : list (Base.Node A)) : list (Z * Base.Node A) :=
            match l with
            | [] => []
            | child :: rest => Base.visited reads md (d + 1) child ++ loop rest
            end) kids).
Proof.
  intros Hmd IH.
  induction kids as [|child rest IHrest]; intros s Hw.
  - eexists. split; [reflexivity|]. cbn. rewrite app_nil_r. reflexivity.
  - apply Forall_cons_1 in IH as [IHchild IHkids].
    apply andb_prop in Hw as [Hc Hr].
    destruct (IHchild md (Some (Base.counters s)) (d + 1) draw dur s Hmd Hc)
      as (s1 & Ht & Hl1).
    destruct (IHrest IHkids s1 Hr) as (s2 & Hk & Hl2).
    exists s2. split.
    + cbn [Walker.tree_children]. unfold bind, get. rewrite Ht. exact Hk.
    + rewrite Hl2, Hl1, map_app, app_assoc. reflexivity.
Qed.

Lemma walks_node (a : A) (k : result (list (Base.Node A))) :
  (forall kids, k = Ok kids -> Forall (Walker.walks (D:=D) reads again) kids) ->
  Walker.walks (D:=D) reads again (Base.mkNode a k).
Proof.
  intros IH md cs d draw dur s Hmd Hw.
  cbn [Walker.walkable Base.visited] in Hw |- *.
  destruct (Base.type_key reads (Base.mkNode a k)) as [key|] eqn:Ek;
    [|discriminate].
  destruct (Base.label reads (Base.mkNode a k)) as [t|] eqn:El;
    [|discriminate].
  rewrite (walker_step _ md cs d draw dur s key t Hmd Ek El). cbv zeta.
  cbn [map]. unfold Base.expected at 1. cbn [fst snd]. rewrite Ek, El.
  destruct (Base.rect reads (Base.mkNode a k)) as [r|] eqn:Er.
  2:{ eexists. split; [reflexivity|]. apply lines_print. }
  apply andb_prop in Hw as [Hagain Hw].
  unfold Walker.tree_after, bind.
  match goal with
  | |- context [(if draw then _ else _) ?st] =>
      destruct (draw_ok (Base.mkNode a k) draw dur st Hagain)
        as (s1 & -> & Hs1)
  end.
  assert (Hl1 : Base.lines s1 = Base.lines s ++ [Some (d, key, t, Some r)]).
  { unfold Base.lines at 1. rewrite Hs1. cbn. apply map_app. }
  destruct (match md with Some m => d <? m | None => true end) eqn:Ed.
  2:{ eexists. split; [reflexivity|]. exact Hl1. }
  destruct k as [kids|e]; [|discriminate].
  destruct (walks_children kids md d draw dur Hmd (IH kids eq_refl) s1 Hw)
    as (s2 & -> & Hl2).
  exists s2. split; [reflexivity|].
  rewrite Hl2, Hl1, <- app_assoc. reflexivity.
Qed.

Lemma tree_walks (element : Base.Node A) :
  Walker.walks (D:=D) reads again element.
Proof.
  induction element as [a e|a kids IH] using Base.Node_ind;
    apply walks_node.
  - discriminate.
  - intros kids' [= <-]. exact IH.
Qed.

(** C7 (amended): a visited node whose rectangle cannot be read inside
    the [try] gets its line, with the failure in the rectangle's place,
    and the call on it returns normally without a look at its children
    and without an outline, whatever its other reads would answer; and a
    walk in which the reads outside the [try] succeed (the keys and
    labels, the enumerations of children, and with [draw_outline] the
    second reads of the rectangles that were printed) returns normally,
    whatever the reads inside the [try] do, having printed one line for
    each node of [Base.visited]: each node, then (only if its rectangle
    was read) its children's walks. *)
Theorem tree_skips_unreadable_subtree (element : Base.Node A)
    (max_depth : option Z) (counters : option (gmap string Z)) (depth : Z)
    (draw_outline : bool) (outline_duration : D) (s : Base.Walk D) :
  Base.valid_depth max_depth ->
  (forall k t e,
      Base.type_key reads element = Ok k ->
      Base.label reads element = Ok t ->
      Base.rect reads element = Raise e ->
      Base.visited reads max_depth depth element = [(depth, element)] /\
      Walker.tree reads again element max_depth counters depth draw_outline
        outline_duration s
      = Some (Ok tt,
              Base.mkWalk
                (Base.entered counters k)
                (Base.stdout s ++
                 [Base.mkLine depth k
                    (Base.counters_get (Base.entered counters k) k - 1)
                    t None])
                (Base.outlined s))) /\
  (Walker.walkable reads again max_depth depth draw_outline element = true ->
   exists s',
     Walker.tree reads again element max_depth counters depth draw_outline
       outline_duration s = Some (Ok tt, s') /\
     Base.lines s' =
     Base.lines s ++
     map (Base.expected reads) (Base.visited reads max_depth depth element)).
Proof.
  intros Hmd. split.
  - intros k t e Hk Ht Hr. split.
    + destruct element as [a kids]. cbn [Base.visited]. rewrite Hr.
      reflexivity.
    + rewrite (walker_step element max_depth counters depth draw_outline
                 outline_duration s k t Hmd Hk Ht), Hr.
      reflexivity.
  - intros Hw. apply tree_walks; assumption.
Qed.

(** The read of the outline is not guarded: where it fails after the
    rectangle was printed, the walk ends with its exception. *)
Lemma second_read_ends_walk (element : Base.Node A) md cs d (dur : D) s
    k t r e :
  Base.valid_depth md ->
  Base.type_key reads element = Ok k ->
  Base.label reads element = Ok t ->
  Base.rect reads element = Ok r ->
  again element = Raise e ->
  Walker.tree reads again element md cs d true dur s
  = Some (Raise e,
          Base.mkWalk
            (Base.entered cs k)
            (Base.stdout s ++
             [Base.mkLine d k
                (Base.counters_get (Base.entered cs k) k - 1) t (Some r)])
            (Base.outlined s)).
Proof.
  intros Hmd Hk Ht Hr He.
  rewrite (walker_step element md cs d true dur s k t Hmd Hk Ht), Hr.
  cbv zeta. unfold Walker.tree_after, bind.
  rewrite (draw_fails element dur e _ He). reflexivity.
Qed.

(** On a snapshot, where the second read of a rectangle answers as the
    first, the walker over live reads is [Base.tree]. *)
Lemma tree_on_snapshot (element : Base.Node A) md cs d draw (dur : D) :
  Walker.tree reads (Base.rect reads) element md cs d draw dur
  = Base.tree reads element md cs d draw dur.
Proof. reflexivity. Qed.

End TreeWalk.

(** The walk of [Sample.stale_root] with outlines, over reads that have
    lost window 1 for good: the root, the stale child with no rectangle,
    and the second child; the stale child's own child [g1] is never
    visited, and no second read of the stale child's rectangle is
    made. *)
Lemma stale_walk_output :
  Base.visited Win32.reads (Some 5) 0 Sample.stale_root
  = [(0, Sample.stale_root); (1, Sample.stale_c1); (1, Sample.c2)] /\
  exists s',
    Walker.tree Win32.reads Sample.second_read Sample.stale_root (Some 5)
      None 0 true 75 Sample.fresh_walk
    = Some (Ok tt, s') /\
    Base.lines s' =
    [ Some (0, "Frame", ["Main"], Some (Common.mkRect 0 0 10 10));
      Some (1, "Pane", ["Left"], None);
      Some (1, "Pane", ["Right"], Some (Common.mkRect 0 0 10 10)) ].
Proof.
  split; [reflexivity|].
  destruct (proj2 (tree_skips_unreadable_subtree Win32.reads
                     Sample.second_read Sample.stale_root (Some 5) None 0
                     true 75 Sample.fresh_walk ltac:(cbn; lia)) eq_refl)
    as (s' & Ht & Hl).
  exists s'. split; [exact Ht|]. rewrite Hl. reflexivity.
Defined.

(** C7 as stated fails on a read outside the [try].  In the accessibility
    backend the walk of [Sample.gone_root] meets the stale child [gone],
    whose rectangle cannot be read: the read of its control type, which
    comes first, raises, the walk ends with that [COMError] after the
    line of the root, no failure is recorded for the child, and its
    sibling [button] is never visited.  In the window-handle backend the
    walk of [Sample.root] with outlines reads the rectangle of [c1] for
    its line; the second read, for the outline, fails, and the walk ends
    with that [WinError] after the lines of the root and of [c1], both
    with their rectangles. *)
Lemma unguarded_read_ends_walk :
  (Base.rect Uia.reads Sample.gone = Raise (COMError (-2147220991)) /\
   exists s',
     Walker.tree Uia.reads Uia.Element_rect Sample.gone_root None None 0
       false 75 Sample.fresh_walk
     = Some (Raise (COMError (-2147220991)), s') /\
     Base.lines s' =
     [ Some (0, "Window", ["Main"], Some (Common.mkRect 0 0 10 10)) ]) /\
  (Base.rect Win32.reads Sample.c1 = Ok (Common.mkRect 0 0 10 10) /\
   Sample.second_read Sample.c1 = Raise (WinError 1400) /\
   exists s',
     Walker.tree Win32.reads Sample.second_read Sample.root None None 0
       true 75 Sample.fresh_walk
     = Some (Raise (WinError 1400), s') /\
     Base.lines s' =
     [ Some (0, "Frame", ["Main"], Some (Common.mkRect 0 0 10 10));
       Some (1, "Pane", ["Left"], Some (Common.mkRect 0 0 10 10)) ]).
Proof.
  split.
  - split; [reflexivity|].
    eexists. split; [vm_compute; reflexivity|reflexivity].
  - split; [reflexivity|]. split; [reflexivity|].
    eexists. split; [vm_compute; reflexivity|reflexivity].
Qed.

(** ** A logic of runs

    The rules below derive what a composite computation adds to the log
    from what its parts add. *)

Section Logic.
Context {L : Type}.

Lemma run_ret {A} (a : A) (Q : result A -> list Os.Event -> Prop) :
  Q (Ok a) [] -> Trace.run (L:=L) (ret a) Q.
Proof.
  intros HQ s r s' [= <- <-]. exists []. rewrite app_nil_r. auto.
Qed.

Lemma run_raise {A} (e : Exn) (Q : result A -> list Os.Event -> Prop) :
  Q (Raise e) [] -> Trace.run (L:=L) (raise e) Q.
Proof.
  intros HQ s r s' [= <- <-]. exists []. rewrite app_nil_r. auto.
Qed.

Lemma run_lift {A} (x : result A) (Q : result A -> list Os.Event -> Prop) :
  Q x [] -> Trace.run (L:=L) (lift x) Q.
Proof.
  intros HQ s r s' [= <- <-]. exists []. rewrite app_nil_r. auto.
Qed.

Lemma run_call (c : Os.Call) (Q : result Os.Reply -> list Os.Event -> Prop) :
  (forall reply, Q (Ok reply) [(c, reply)]) ->
  Trace.run (L:=L) (os_call c) Q.
Proof.
  intros HQ s r s'. unfold os_call. intros [= <- <-]. cbn.
  eexists. split; [reflexivity|]. apply HQ.
Qed.

Lemma run_bind {A B} (m : OS L A) (k : A -> OS L B)
    (Q1 : result A -> list Os.Event -> Prop)
    (Q : result B -> list Os.Event -> Prop) :
  Trace.run m Q1 ->
  (forall a e1, Q1 (Ok a) e1 ->
                Trace.run (k a) (fun r e2 => Q r (e1 ++ e2))) ->
  (forall e e1, Q1 (Raise e) e1 -> Q (Raise e) e1) ->
  Trace.run (bind m k) Q.
Proof.
  intros Hm Hk He s r s'. unfold bind.
  destruct (m s) as [[[a|e] s1]|] eqn:E; [| |discriminate].
  - destruct (Hm _ _ _ E) as (e1 & H1 & HQ1).
    intros Hka. destruct (Hk a e1 HQ1 _ _ _ Hka) as (e2 & H2 & HQ).
    exists (e1 ++ e2). split; [|exact HQ].
    rewrite H2, H1, app_assoc. reflexivity.
  - intros [= <- <-]. destruct (Hm _ _ _ E) as (e1 & H1 & HQ1).
    exists e1. split; [exact H1|]. apply He, HQ1.
Qed.

Lemma run_conseq {A} (m : OS L A) (Q Q' : result A -> list Os.Event -> Prop) :
  Trace.run m Q -> (forall r evs, Q r evs -> Q' r evs) -> Trace.run m Q'.
Proof.
  intros Hm HQ s r s' E. destruct (Hm _ _ _ E) as (evs & H & HQ1).
  exists evs. split; [exact H|]. apply HQ, HQ1.
Qed.

Lemma run_try_except {A} (body : OS L A) (handler : Exn -> OS L A)
    (Q1 Q : result A -> list Os.Event -> Prop) :
  Trace.run body Q1 ->
  (forall a e1, Q1 (Ok a) e1 -> Q (Ok a) e1) ->
  (forall e e1, Q1 (Raise e) e1 ->
                Trace.run (handler e) (fun r e2 => Q r (e1 ++ e2))) ->
  Trace.run (try_except body handler) Q.
Proof.
  intros Hb Hok Hh s r s'. unfold try_except.
  destruct (body s) as [[[a|e] s1]|] eqn:E; [| |discriminate].
  - intros [= <- <-]. destruct (Hb _ _ _ E) as (e1 & H1 & HQ1).
    exists e1. split; [exact H1|]. apply Hok, HQ1.
  - destruct (Hb _ _ _ E) as (e1 & H1 & HQ1).
    intros Hha. destruct (Hh e e1 HQ1 _ _ _ Hha) as (e2 & H2 & HQ).
    exists (e1 ++ e2). split; [|exact HQ].
    rewrite H2, H1, app_assoc. reflexivity.
Qed.

Lemma run_try_finally {A} (body : OS L A) (cleanup : OS L unit)
    (Q1 Q : result A -> list Os.Event -> Prop)
    (Q2 : result unit -> list Os.Event -> Prop) :
  Trace.run body Q1 ->
  Trace.run cleanup Q2 ->
  (forall r e1 e2, Q1 r e1 -> Q2 (Ok tt) e2 -> Q r (e1 ++ e2)) ->
  (forall r e e1 e2, Q1 r e1 -> Q2 (Raise e) e2 -> Q (Raise e) (e1 ++ e2)) ->
  Trace.run (try_finally body cleanup) Q.
Proof.
  intros Hb Hc Hok Hraise s r s'. unfold try_finally.
  destruct (body s) as [[r1 s1]|] eqn:E; [|discriminate].
  destruct (Hb _ _ _ E) as (e1 & H1 & HQ1).
  destruct (cleanup s1) as [[[[]|e] s2]|] eqn:E2; [| |discriminate].
  - intros [= <- <-]. destruct (Hc _ _ _ E2) as (e2 & H2 & HQ2).
    exists (e1 ++ e2). split; [rewrite H2, H1, app_assoc; reflexivity|].
    apply Hok; assumption.
  - intros [= <- <-]. destruct (Hc _ _ _ E2) as (e2 & H2 & HQ2).
    exists (e1 ++ e2). split; [rewrite H2, H1, app_assoc; reflexivity|].
    eapply Hraise; eassumption.
Qed.

End Logic.

Lemma run_with_local {L L' A} (init : L') (m : OS L' A)
    (Q : result A -> list Os.Event -> Prop)
    (Q' : result (A * L') -> list Os.Event -> Prop) :
  Trace.run m Q ->
  (forall a l evs, Q (Ok a) evs -> Q' (Ok (a, l)) evs) ->
  (forall e evs, Q (Raise e) evs -> Q' (Raise e) evs) ->
  Trace.run (L:=L) (with_local init m) Q'.
Proof.
  intros Hm Hok Hraise s r s'. unfold with_local.
  destruct (m (fst s, init)) as [[[a|e] s1]|] eqn:E; [| |discriminate];
    intros [= <- <-]; destruct (Hm _ _ _ E) as (evs & H & HQ);
    exists evs; (split; [exact H|]); auto.
Qed.

(** The rules for runs that make only calls of one kind. *)
Section Only.
Context {L : Type} (P : Os.Call -> bool).

Lemma only_ret {A} (a : A) : Trace.only (L:=L) P (ret a).
Proof. apply run_ret. constructor. Qed.

Lemma only_raise {A} (e : Exn) : Trace.only (L:=L) (A:=A) P (raise e).
Proof. apply run_raise. constructor. Qed.

Lemma only_lift {A} (x : result A) : Trace.only (L:=L) P (lift x).
Proof. apply run_lift. constructor. Qed.

Lemma only_out_of_fuel {A} : Trace.only (L:=L) (A:=A) P out_of_fuel.
Proof. intros s r s'. discriminate. Qed.

Lemma only_get_local : Trace.only (L:=L) P get_local.
Proof.
  intros s r s' [= <- <-]. exists []. rewrite app_nil_r.
  split; [reflexivity|constructor].
Qed.

Lemma only_set_local (l : L) : Trace.only P (set_local l).
Proof.
  intros s r s' [= <- <-]. exists []. cbn. rewrite app_nil_r.
  split; [reflexivity|constructor].
Qed.

Lemma only_call (c : Os.Call) : P c = true -> Trace.only (L:=L) P (os_call c).
Proof.
  intros Hc. apply run_call. intros reply. constructor; [exact Hc|constructor].
Qed.

Lemma all_calls_app (e1 e2 : list Os.Event) :
  Trace.all_calls P e1 -> Trace.all_calls P e2 -> Trace.all_calls P (e1 ++ e2).
Proof. apply Forall_app_2. Qed.

Lemma only_bind {A B} (m : OS L A) (k : A -> OS L B) :
  Trace.only P m -> (forall a, Trace.only P (k a)) -> Trace.only P (bind m k).
Proof.
  intros Hm Hk. eapply run_bind; [exact Hm| |auto].
  intros a e1 H1. eapply run_conseq; [apply Hk|].
  intros r evs H2. apply all_calls_app; assumption.
Qed.

Lemma only_try_except {A} (body : OS L A) (handler : Exn -> OS L A) :
  Trace.only P body -> (forall e, Trace.only P (handler e)) ->
  Trace.only P (try_except body handler).
Proof.
  intros Hb Hh. eapply run_try_except; [exact Hb|auto|].
  intros e e1 H1. eapply run_conseq; [apply Hh|].
  intros r evs H2. apply all_calls_app; assumption.
Qed.

Lemma only_try_finally {A} (body : OS L A) (cleanup : OS L unit) :
  Trace.only P body -> Trace.only P cleanup ->
  Trace.only P (try_finally body cleanup).
Proof.
  intros Hb Hc. eapply run_try_finally; [exact Hb|exact Hc| |];
    intros; apply all_calls_app; assumption.
Qed.

End Only.

Lemma only_with_local {L L' A} (P : Os.Call -> bool) (init : L') (m : OS L' A) :
  Trace.only P m -> Trace.only (L:=L) P (with_local init m).
Proof. intros Hm. eapply run_with_local; [exact Hm| |]; auto. Qed.

Lemma only_mono {L A} (P P' : Os.Call -> bool) (m : OS L A) :
  (forall c, P c = true -> P' c = true) ->
  Trace.only P m -> Trace.only P' m.
Proof.
  intros HP Hm. eapply run_conseq; [exact Hm|].
  intros r evs H. eapply Forall_impl; [exact H|]. intros ev. apply HP.
Qed.

Lemma quiet_detached (c : Os.Call) :
  Trace.quiet c = true -> Trace.detached c = true.
Proof. destruct c; cbn; auto. Qed.

Ltac only_step :=
  lazymatch goal with
  | |- Trace.only _ (ret _) => apply only_ret
  | |- Trace.only _ (raise _) => apply only_raise
  | |- Trace.only _ (lift _) => apply only_lift
  | |- Trace.only _ out_of_fuel => apply only_out_of_fuel
  | |- Trace.only _ get_local => apply only_get_local
  | |- Trace.only _ (set_local _) => apply only_set_local
  | |- Trace.only _ (os_call _) => apply only_call; reflexivity
  | |- Trace.only _ (bind _ _) => apply only_bind; [|intros ?]
  | |- Trace.only _ (try_except _ _) => apply only_try_except; [|intros ?]
  | |- Trace.only _ (try_finally _ _) => apply only_try_finally
  | |- Trace.only _ (with_local _ _) => apply only_with_local
  | |- Trace.only _ (if ?b then _ else _) => destruct b
  | |- Trace.only _ (match ?x with _ => _ end) => destruct x
  | |- Trace.only _ (let _ := _ in _) => cbv zeta
  end.

Create HintDb only discriminated.

Ltac open_user32 :=
  unfold User32.get_last_error, User32.raise_WinError,
    User32.GetLastActivePopup, User32.IsWindow, User32.GetClassNameW,
    User32.GetWindowThreadProcessId, User32.GetWindowRect,
    User32.GetForegroundWindow, User32.IsWindowVisible,
    User32.GetWindowTextW, User32.GetWindowLongW, User32.GetAncestor,
    User32.IsIconic, User32.IsZoomed, User32.get_title_bar_info,
    User32.GetCurrentProcessId, User32.ProcessIdToSessionId, User32.sleep,
    User32.AttachThreadInput, User32.SetWindowPos,
    User32.SetForegroundWindow, User32.ShowWindow.

Ltac open_window :=
  unfold Win32Window.is_visible, Win32Window.rect, Win32Window.title,
    Win32Window.is_window, Win32Window.control_id, Win32Window.class_name,
    Win32Window.exstyle, Win32Window.tid, Win32Window.pid,
    Win32Window.is_in_current_session, Win32Window.Element_repr,
    Win32Window.Window_init, Win32Window.Legacy.Window_init,
    Win32Window.is_minimized, Win32Window.is_maximized,
    Win32Window.maximize, Win32Window.restore, Win32Window.show,
    Win32Window.Legacy.GetForegroundWindow.

Ltac only_tac :=
  repeat first
    [ only_step
    | solve [eauto with only]
    | progress (open_window; open_user32) ].

Section Quiet.
Context {L : Type}.

Lemma quiet_title (self : Win32Window.Window) :
  Trace.only (L:=L) Trace.quiet (Win32Window.title self).
Proof. only_tac. Qed.

Lemma quiet_tid (self : Win32Window.Window) :
  Trace.only (L:=L) Trace.quiet (Win32Window.tid self).
Proof. only_tac. Qed.

Lemma quiet_is_in_current_session (self : Win32Window.Window) :
  Trace.only (L:=L) Trace.quiet (Win32Window.is_in_current_session self).
Proof. only_tac. Qed.

Lemma quiet_Element_repr (self : Win32Window.Window) :
  Trace.only (L:=L) Trace.quiet (Win32Window.Element_repr self).
Proof. only_tac. Qed.

Lemma quiet_GetForegroundWindow :
  Trace.only (L:=L) Trace.quiet User32.GetForegroundWindow.
Proof. only_tac. Qed.

Lemma quiet_Legacy_GetForegroundWindow :
  Trace.only (L:=L) Trace.quiet Win32Window.Legacy.GetForegroundWindow.
Proof. only_tac. Qed.

Lemma quiet_GetWindowThreadProcessId (hwnd : Z) :
  Trace.only (L:=L) Trace.quiet (User32.GetWindowThreadProcessId hwnd).
Proof. only_tac. Qed.

Lemma quiet_last_visible_popup (fuel : nat) : forall anc walk,
  Trace.only (L:=L) Trace.quiet (Win32Window.last_visible_popup fuel anc walk).
Proof.
  induction fuel as [|fuel IH]; intros anc walk; cbn;
    destruct (bool_decide (anc = walk)); only_tac.
Qed.

Lemma quiet_is_real_window (fuel : nat) (self : Win32Window.Window) :
  Trace.only (L:=L) Trace.quiet (Win32Window.is_real_window fuel self).
Proof.
  unfold Win32Window.is_real_window.
  pose proof quiet_last_visible_popup. only_tac.
Qed.

Lemma only_enumerate (P : Os.Call -> bool) (c_callback : Z -> Z -> OS L Z)
    (handles : list Z) :
  (forall hwnd lparam, Trace.only P (c_callback hwnd lparam)) ->
  Trace.only P (User32.enumerate c_callback handles).
Proof.
  intros Hc. induction handles as [|hwnd rest IH]; cbn; only_tac.
Qed.

Lemma only_callback (P : Os.Call -> bool) (callback : Z -> OS L bool)
    (hwnd lparam : Z) :
  (forall h, Trace.only P (callback h)) ->
  Trace.only P (User32._callback callback hwnd lparam).
Proof. intros Hc. unfold User32._callback. only_tac. Qed.

Lemma quiet_EnumWindows (callback : Z -> OS L bool) :
  (forall h, Trace.only Trace.quiet (callback h)) ->
  Trace.only Trace.quiet (User32.EnumWindows callback).
Proof.
  intros Hc. unfold User32.EnumWindows, User32.native_EnumWindows.
  only_tac; apply only_enumerate; intros; apply only_callback; exact Hc.
Qed.

End Quiet.

Lemma quiet_windows {L} (fuel : nat) :
  Trace.only (L:=L) Trace.quiet (Win32Window.windows fuel).
Proof.
  unfold Win32Window.windows. only_tac.
  apply quiet_EnumWindows. intros h.
  pose proof (quiet_is_real_window (L:=list Win32Window.Window)).
  only_tac.
Qed.

Lemma quiet_top_window {L} (fuel : nat) :
  Trace.only (L:=L) Trace.quiet (Win32Window.top_window fuel).
Proof.
  unfold Win32Window.top_window. pose proof (quiet_windows (L:=L)). only_tac.
Qed.

Lemma quiet_Window_top_window {L} (self : Win32Window.Window) :
  Trace.only (L:=L) Trace.quiet (Win32Window.Window_top_window self).
Proof.
  unfold Win32Window.Window_top_window. only_tac.
  apply quiet_EnumWindows. intros h. only_tac.
Qed.

Lemma quiet_is_focused {L} (fuel : nat) (self : Win32Window.Window) :
  Trace.only (L:=L) Trace.quiet (Win32Window.is_focused fuel self).
Proof.
  unfold Win32Window.is_focused.
  pose proof (quiet_top_window (L:=L)).
  pose proof (quiet_Window_top_window (L:=L)).
  pose proof (quiet_Element_repr (L:=L)).
  pose proof (quiet_GetForegroundWindow (L:=L)).
  only_tac.
Qed.

Lemma only_win32gui_enumerate {L} (P : Os.Call -> bool)
    (callback : Z -> OS L bool) (handles : list Z) :
  (forall hwnd, Trace.only P (callback hwnd)) ->
  Trace.only P (Win32Window.Legacy.win32gui_enumerate callback handles).
Proof.
  intros Hc. induction handles as [|hwnd rest IH]; cbn; only_tac.
Qed.

Lemma quiet_Legacy_top_window {L} (self : Win32Window.Window) :
  Trace.only (L:=L) Trace.quiet (Win32Window.Legacy.top_window self).
Proof.
  unfold Win32Window.Legacy.top_window, Win32Window.Legacy.win32gui_EnumWindows.
  only_tac; apply only_win32gui_enumerate; intros h; only_tac.
Qed.

Lemma quiet_Legacy_is_focused {L} (self : Win32Window.Window) :
  Trace.only (L:=L) Trace.quiet (Win32Window.Legacy.is_focused self).
Proof.
  unfold Win32Window.Legacy.is_focused.
  pose proof (quiet_Legacy_top_window (L:=L)).
  pose proof (quiet_Legacy_GetForegroundWindow (L:=L)).
  only_tac.
Qed.

Lemma detached_focus {L} (self : Win32Window.Window) :
  Trace.only (L:=L) Trace.detached (Win32Window.focus self).
Proof. unfold Win32Window.focus. only_tac. Qed.

Lemma detached_set_focus {L} (self : Win32Window.Window) :
  Trace.only (L:=L) Trace.detached (Win32Window.Legacy.set_focus self).
Proof.
  unfold Win32Window.Legacy.set_focus.
  pose proof (fun w => only_mono _ _ _ quiet_detached
                         (quiet_Legacy_is_focused (L:=L) w)).
  only_tac.
Qed.

(** Logs without attach requests, and logs whose attach requests are
    released. *)
Lemma released_cons_free (ev : Os.Event) (evs : list Os.Event) :
  Trace.detached (fst ev) = true ->
  Trace.released (ev :: evs) = Trace.released evs.
Proof. destruct ev as [[] reply]; cbn; try reflexivity. discriminate. Qed.

Lemma released_app_free (e1 e2 : list Os.Event) :
  Trace.all_calls Trace.detached e1 ->
  Trace.released (e1 ++ e2) = Trace.released e2.
Proof.
  induction 1 as [|ev e1 Hev _ IH]; [reflexivity|].
  cbn [app]. rewrite released_cons_free by exact Hev. exact IH.
Qed.

Lemma released_free (evs : list Os.Event) :
  Trace.all_calls Trace.detached evs -> Trace.released evs = true.
Proof.
  intros H. rewrite <- (app_nil_r evs). rewrite released_app_free by exact H.
  reflexivity.
Qed.

Lemma released_attach (a b : Z) (reply reply' : Os.Reply)
    (body rest : list Os.Event) :
  Trace.all_calls Trace.detached body ->
  Trace.all_calls Trace.detached rest ->
  Trace.released
    ((Os.AttachThreadInput a b true, reply) ::
     body ++ (Os.AttachThreadInput a b false, reply') :: rest) = true.
Proof.
  intros Hb Hr. cbn [Trace.released].
  rewrite released_app_free by exact Hb.
  cbn [Trace.released]. rewrite (released_free rest Hr), andb_true_r.
  destruct (Os.ret reply =? 0); [reflexivity|].
  rewrite existsb_app. apply orb_true_iff. right.
  cbn. unfold Trace.is_detach. cbn. rewrite !Z.eqb_refl. reflexivity.
Qed.

Lemma released_refused (a b : Z) (reply : Os.Reply) (rest : list Os.Event) :
  Os.ret reply = 0 ->
  Trace.all_calls Trace.detached rest ->
  Trace.released ((Os.AttachThreadInput a b true, reply) :: rest) = true.
Proof.
  intros H0 Hr. cbn [Trace.released]. rewrite H0. cbn.
  apply released_free, Hr.
Qed.

Section Attach.
Context {L : Type}.

Lemma run_prefix {A B} (m : OS L A) (k : A -> OS L B) :
  Trace.only Trace.detached m ->
  (forall a, Trace.run (k a) Trace.ends_released) ->
  Trace.run (bind m k) Trace.ends_released.
Proof.
  intros Hm Hk. eapply run_bind; [exact Hm| |].
  - intros a e1 H1. eapply run_conseq; [apply Hk|].
    intros r evs H2. unfold Trace.ends_released in *.
    rewrite released_app_free by exact H1. exact H2.
  - intros e e1 H1. apply released_free, H1.
Qed.

Lemma only_released {A} (m : OS L A) :
  Trace.only Trace.detached m -> Trace.run m Trace.ends_released.
Proof.
  intros Hm. eapply run_conseq; [exact Hm|]. intros r evs. apply released_free.
Qed.

Lemma run_raise_WinError {A} :
  Trace.run (L:=L) (A:=A) User32.raise_WinError
    (fun r evs =>
       Trace.all_calls Trace.detached evs /\ exists e, r = Raise e).
Proof.
  unfold User32.raise_WinError.
  eapply run_bind with (Q1 := fun r evs => Trace.all_calls Trace.detached evs).
  - change (Trace.only (L:=L) Trace.detached User32.get_last_error).
    only_tac.
  - intros err e1 H1. apply run_raise. rewrite app_nil_r. eauto.
  - intros e e1 H1. eauto.
Qed.

(** What a call of the wrapper [AttachThreadInput] adds to the log. *)
Lemma run_AttachThreadInput (a b : Z) (f : bool) :
  Trace.run (L:=L) (User32.AttachThreadInput a b f)
    (fun r evs =>
       exists reply rest,
         evs = (Os.AttachThreadInput a b f, reply) :: rest /\
         Trace.all_calls Trace.detached rest /\
         match r with
         | Ok _ => rest = []
         | Raise _ => Os.ret reply = 0
         end).
Proof.
  unfold User32.AttachThreadInput.
  eapply run_bind with
    (Q1 := fun r evs =>
             exists reply, r = Ok reply /\
                           evs = [(Os.AttachThreadInput a b f, reply)]).
  - apply run_call. intros reply. eauto.
  - intros reply e1 (reply' & [= <-] & ->).
    destruct (Os.ret reply =? 0) eqn:E0.
    + eapply run_conseq; [apply run_raise_WinError|].
      cbn beta. intros r evs [Hd [e ->]].
      exists reply, evs. split; [reflexivity|]. split; [exact Hd|].
      apply Z.eqb_eq, E0.
    + apply run_ret. exists reply, []. split; [reflexivity|].
      split; [constructor|reflexivity].
  - intros e e1 (reply & [=] & _).
Qed.

(** [tid] makes no attach request and leaves the thread id cached. *)
Lemma run_tid (self : Win32Window.Window) :
  Trace.run (L:=L) (Win32Window.tid self)
    (fun r evs =>
       Trace.all_calls Trace.detached evs /\
       match r with
       | Ok tw => Win32Window.tid_cache (snd tw) = Some (fst tw)
       | Raise _ => True
       end).
Proof.
  intros s r s' E.
  destruct (only_mono _ _ _ quiet_detached (quiet_tid self) s r s' E)
    as (evs & Hev & Hd).
  exists evs. split; [exact Hev|]. split; [exact Hd|].
  destruct r as [[t w]|e]; [|exact I].
  revert E. unfold Win32Window.tid.
  destruct (Win32Window.tid_cache self) as [t0|] eqn:Ec.
  - intros [= <- <- <-]. exact Ec.
  - destruct (Win32Window.truthy (Win32Window._tid self)) as [t0|].
    + intros [= <- <- <-]. reflexivity.
    + unfold bind.
      destruct (User32.GetWindowThreadProcessId _ s) as [[[tp|e] s1]|];
        [|discriminate|discriminate].
      intros [= <- <- <-]. reflexivity.
Qed.

(** A cached thread id is returned without a call. *)
Lemma tid_cached (self : Win32Window.Window) (t : Z) :
  Win32Window.tid_cache self = Some t ->
  Win32Window.tid (L:=L) self = ret (t, self).
Proof. intros H. unfold Win32Window.tid. rewrite H. reflexivity. Qed.

Variable check : Win32Window.Window -> OS L bool.
Variable gentle : Win32Window.Window -> OS L unit.
Variable foreground : OS L (option Z).
Hypothesis check_detached : forall w, Trace.only Trace.detached (check w).
Hypothesis gentle_detached : forall w, Trace.only Trace.detached (gentle w).
Hypothesis foreground_detached : Trace.only Trace.detached foreground.

Lemma detached_title (w : Win32Window.Window) :
  Trace.only (L:=L) Trace.detached (Win32Window.title w).
Proof. apply (only_mono _ _ _ quiet_detached), quiet_title. Qed.

(** The body of the second [try]: no attach request in it. *)
Lemma detached_normalize (w : Win32Window.Window) :
  Trace.only (L:=L) Trace.detached
    (minimized <- Win32Window.is_minimized w ;;
     (if (minimized : bool) then Win32Window.restore w
      else maximized <- Win32Window.is_maximized w ;;
           if (maximized : bool) then Win32Window.maximize w
           else Win32Window.show w) ;;
     User32.SetForegroundWindow (Win32Window.hwnd w)).
Proof. only_tac. Qed.

(** The [finally] clause, once the thread id is cached: the detach
    request first, and no attach request after it. *)
Lemma run_detach (w : Win32Window.Window) (t fg_tid : Z) :
  Win32Window.tid_cache w = Some t ->
  Trace.run (L:=L)
    (tw <- Win32Window.tid w ;;
     User32.AttachThreadInput (fst tw) fg_tid false)
    (fun _ evs =>
       exists reply rest,
         evs = (Os.AttachThreadInput t fg_tid false, reply) :: rest /\
         Trace.all_calls Trace.detached rest).
Proof.
  intros Hc. rewrite (tid_cached w t Hc).
  intros s r s' E.
  change (User32.AttachThreadInput t fg_tid false s = Some (r, s')) in E.
  destruct (run_AttachThreadInput t fg_tid false s r s' E)
    as (evs & Hev & reply & rest & -> & Hd & _).
  eauto 6.
Qed.

(** The first [try] with its handler: either the attach request was
    granted, it is the last event so far and the thread id is cached; or
    what was added is released already. *)
Lemma run_attach (self : Win32Window.Window) (fg_tid : Z) :
  Trace.run (L:=L)
    (try_except
       (t <- Win32Window.tid self ;;
        User32.AttachThreadInput (fst t) fg_tid true ;;
        ret (Some (snd t)))
       (fun err => gentle self ;; ret None))
    (fun r evs =>
       match r with
       | Ok (Some w) =>
           exists e0 t reply,
             evs = e0 ++ [(Os.AttachThreadInput t fg_tid true, reply)] /\
             Trace.all_calls Trace.detached e0 /\
             Win32Window.tid_cache w = Some t
       | _ => Trace.released evs = true
       end).
Proof.
  eapply run_try_except with
    (Q1 := fun r evs =>
             match r with
             | Ok (Some w) =>
                 exists e0 t reply,
                   evs = e0 ++ [(Os.AttachThreadInput t fg_tid true, reply)] /\
                   Trace.all_calls Trace.detached e0 /\
                   Win32Window.tid_cache w = Some t
             | Ok None => False
             | Raise _ =>
                 forall e2, Trace.all_calls Trace.detached e2 ->
                            Trace.released (evs ++ e2) = true
             end).
  - eapply run_bind; [apply run_tid| |].
    + intros [t w] e1 [Hd Hc]. cbn [fst snd] in *.
      eapply run_bind; [apply run_AttachThreadInput| |].
      * intros [] e2 (reply & rest & -> & _ & ->).
        apply run_ret. rewrite app_nil_r. eauto 6.
      * intros e e2 (reply & rest & -> & Hrest & H0) e3 H3.
        rewrite <- app_assoc, released_app_free by exact Hd.
        cbn [app]. apply released_refused; [exact H0|].
        apply all_calls_app; assumption.
    + intros e e1 [Hd _] e2 H2.
      apply released_free, all_calls_app; assumption.
  - intros [w|] e1 H1; [exact H1|contradiction].
  - intros e e1 H1.
    eapply run_bind; [apply gentle_detached| |].
    + intros [] e2 H2. apply run_ret. rewrite app_nil_r. apply H1, H2.
    + intros e' e2 H2. apply H1, H2.
Qed.

(** Every run of the attach-based method leaves the log released. *)
Lemma attach_focus_released (self : Win32Window.Window) :
  Trace.run (Win32Window.attach_focus check gentle foreground self)
    Trace.ends_released.
Proof.
  unfold Win32Window.attach_focus.
  apply run_prefix; [apply check_detached|]. intros focused.
  destruct focused.
  { apply only_released. pose proof detached_title. only_tac. }
  apply run_prefix; [apply foreground_detached|]. intros fg_hwnd.
  apply run_prefix;
    [apply (only_mono _ _ _ quiet_detached), quiet_GetWindowThreadProcessId|].
  intros tp.
  apply run_prefix;
    [apply (only_mono _ _ _ quiet_detached), quiet_is_in_current_session|].
  intros session. cbv zeta.
  destruct (negb (fst session)).
  { apply only_released. pose proof detached_title. only_tac. }
  eapply run_bind; [apply run_attach| |].
  - intros [w|] e1 H1.
    + destruct H1 as (e0 & t & reply & -> & Hd & Hc).
      eapply run_conseq.
      * eapply run_bind with
          (Q := fun _ evs =>
                  exists body reply' rest,
                    evs = body ++
                          (Os.AttachThreadInput t (fst tp) false, reply') :: rest /\
                    Trace.all_calls Trace.detached body /\
                    Trace.all_calls Trace.detached rest).
        -- eapply run_try_finally with
             (Q1 := fun _ evs => Trace.all_calls Trace.detached evs)
             (Q := fun _ evs =>
                     exists body reply' rest,
                       evs = body ++
                             (Os.AttachThreadInput t (fst tp) false, reply')
                             :: rest /\
                       Trace.all_calls Trace.detached body /\
                       Trace.all_calls Trace.detached rest).
           ++ apply detached_normalize.
           ++ apply (run_detach w t (fst tp) Hc).
           ++ intros r b e2 Hb (reply' & rest & -> & Hr). eauto 8.
           ++ intros r e b e2 Hb (reply' & rest & -> & Hr). eauto 8.
        -- intros [] b (body & reply' & rest & -> & Hb & Hr).
           eapply run_conseq.
           ++ assert (Ht : Trace.only (L:=L) Trace.detached
                             (Win32Window.title w ;; ret tt)).
              { pose proof detached_title. only_tac. }
              exact Ht.
           ++ cbn beta. intros r evs Hevs.
              exists body, reply', (rest ++ evs).
              split; [rewrite <- app_assoc; reflexivity|].
              split; [exact Hb|]. apply all_calls_app; assumption.
        -- intros e b Hb. exact Hb.
      * cbn beta. intros r evs (body & reply' & rest & -> & Hb & Hr).
        unfold Trace.ends_released.
        rewrite <- app_assoc, released_app_free by exact Hd.
        cbn [app]. apply released_attach; assumption.
    + apply run_ret. rewrite app_nil_r. exact H1.
  - intros e e1 H1. exact H1.
Qed.

End Attach.

(** ** Runs that end *)

Section Ends.
Context {L : Type}.

Lemma ends_ret {A} (a : A) : Trace.ends (L:=L) (ret a).
Proof. intros s. eauto. Qed.

Lemma ends_raise {A} (e : Exn) : Trace.ends (L:=L) (A:=A) (raise e).
Proof. intros s. eexists _, _. reflexivity. Qed.

Lemma ends_lift {A} (x : result A) : Trace.ends (L:=L) (lift x).
Proof. intros s. eexists _, _. reflexivity. Qed.

Lemma ends_call (c : Os.Call) : Trace.ends (L:=L) (os_call c).
Proof. intros s. eexists _, _. reflexivity. Qed.

Lemma ends_get_local : Trace.ends (L:=L) get_local.
Proof. intros s. eexists _, _. reflexivity. Qed.

Lemma ends_set_local (l : L) : Trace.ends (set_local l).
Proof. intros s. eexists _, _. reflexivity. Qed.

Lemma ends_bind {A B} (m : OS L A) (k : A -> OS L B) :
  Trace.ends m -> (forall a, Trace.ends (k a)) -> Trace.ends (bind m k).
Proof.
  intros Hm Hk s. unfold bind.
  destruct (Hm s) as ([a|e] & s1 & ->); [apply Hk|eauto].
Qed.

Lemma ends_try_except {A} (body : OS L A) (handler : Exn -> OS L A) :
  Trace.ends body -> (forall e, Trace.ends (handler e)) ->
  Trace.ends (try_except body handler).
Proof.
  intros Hb Hh s. unfold try_except.
  destruct (Hb s) as ([a|e] & s1 & ->); [eauto|apply Hh].
Qed.

Lemma ends_try_finally {A} (body : OS L A) (cleanup : OS L unit) :
  Trace.ends body -> Trace.ends cleanup ->
  Trace.ends (try_finally body cleanup).
Proof.
  intros Hb Hc s. unfold try_finally.
  destruct (Hb s) as (r & s1 & ->).
  destruct (Hc s1) as ([[]|e] & s2 & ->); eauto.
Qed.

End Ends.

Lemma ends_with_local {L L' A} (init : L') (m : OS L' A) :
  Trace.ends m -> Trace.ends (L:=L) (with_local init m).
Proof.
  intros Hm s. unfold with_local.
  destruct (Hm (fst s, init)) as ([a|e] & s1 & ->); eauto.
Qed.

Ltac ends_step :=
  lazymatch goal with
  | |- Trace.ends (ret _) => apply ends_ret
  | |- Trace.ends (raise _) => apply ends_raise
  | |- Trace.ends (lift _) => apply ends_lift
  | |- Trace.ends get_local => apply ends_get_local
  | |- Trace.ends (set_local _) => apply ends_set_local
  | |- Trace.ends (os_call _) => apply ends_call
  | |- Trace.ends (bind _ _) => apply ends_bind; [|intros ?]
  | |- Trace.ends (try_except _ _) => apply ends_try_except; [|intros ?]
  | |- Trace.ends (try_finally _ _) => apply ends_try_finally
  | |- Trace.ends (with_local _ _) => apply ends_with_local
  | |- Trace.ends (if ?b then _ else _) => destruct b
  | |- Trace.ends (match ?x with _ => _ end) => destruct x
  | |- Trace.ends (let _ := _ in _) => cbv zeta
  end.

Ltac ends_tac :=
  repeat first
    [ ends_step
    | solve [eauto]
    | progress (open_window; open_user32) ].

Lemma ends_win32gui_enumerate {L} (callback : Z -> OS L bool)
    (handles : list Z) :
  (forall hwnd, Trace.ends (callback hwnd)) ->
  Trace.ends (Win32Window.Legacy.win32gui_enumerate callback handles).
Proof.
  intros Hc. induction handles as [|hwnd rest IH]; cbn; ends_tac.
Qed.

Lemma ends_Legacy_is_focused {L} (self : Win32Window.Window) :
  Trace.ends (L:=L) (Win32Window.Legacy.is_focused self).
Proof.
  unfold Win32Window.Legacy.is_focused, Win32Window.Legacy.top_window,
    Win32Window.Legacy.win32gui_EnumWindows.
  ends_tac; apply ends_win32gui_enumerate; intros h; ends_tac.
Qed.

Lemma ends_set_focus {L} (self : Win32Window.Window) :
  Trace.ends (L:=L) (Win32Window.Legacy.set_focus self).
Proof.
  unfold Win32Window.Legacy.set_focus.
  pose proof (ends_Legacy_is_focused (L:=L)). ends_tac.
Qed.

Lemma ends_attach_focus {L} (check : Win32Window.Window -> OS L bool)
    (gentle : Win32Window.Window -> OS L unit) (foreground : OS L (option Z))
    (self : Win32Window.Window) :
  (forall w, Trace.ends (check w)) ->
  (forall w, Trace.ends (gentle w)) ->
  Trace.ends foreground ->
  Trace.ends (Win32Window.attach_focus check gentle foreground self).
Proof.
  intros Hc Hg Hf. unfold Win32Window.attach_focus. ends_tac.
Qed.

Lemma ends_set_focus2 {L} (self : Win32Window.Window) :
  Trace.ends (L:=L) (Win32Window.Legacy.set_focus2 self).
Proof.
  apply ends_attach_focus.
  - apply ends_Legacy_is_focused.
  - apply ends_set_focus.
  - ends_tac.
Qed.

(** ** The attach-based method always detaches *)

Lemma released_tail (ev : Os.Event) (evs : list Os.Event) :
  Trace.released (ev :: evs) = true -> Trace.released evs = true.
Proof.
  destruct ev as [[] reply]; cbn; auto.
  destruct fAttach; auto. intros [_ H]%andb_prop. exact H.
Qed.

Lemma released_detach_follows (evs : list Os.Event) :
  Trace.released evs = true -> Trace.detach_follows evs.
Proof.
  intros Hrel before. revert evs Hrel.
  induction before as [|ev before IH];
    intros evs Hrel a b reply after -> Hgranted.
  - cbn in Hrel. apply andb_prop in Hrel as [Hex _].
    destruct (Os.ret reply =? 0) eqn:E0; [apply Z.eqb_eq in E0; contradiction|].
    apply existsb_exists in Hex as ([c reply'] & Hin & Hdet).
    apply in_split in Hin as (between & rest & ->).
    unfold Trace.is_detach in Hdet. cbn in Hdet.
    destruct c; try discriminate. destruct fAttach; [discriminate|].
    apply andb_prop in Hdet as [->%Z.eqb_eq ->%Z.eqb_eq].
    eauto.
  - cbn [app] in Hrel. apply released_tail in Hrel.
    eapply IH; eauto.
Qed.


(** C2: in every run of the attach-based method ([_focus], and
    [set_focus2] of the older revision), whatever the platform answers and
    however the run ends, each attach request that the platform granted is
    followed, within the run, by the request to detach the same two
    threads; and every run of [set_focus2] does end. *)
Theorem attach_is_always_detached {L} (self : Win32Window.Window) :
  (forall fuel,
      Trace.run (L:=L) (Win32Window._focus fuel self)
        (fun _ evs => Trace.detach_follows evs)) /\
  Trace.run (L:=L) (Win32Window.Legacy.set_focus2 self)
    (fun _ evs => Trace.detach_follows evs) /\
  Trace.ends (L:=L) (Win32Window.Legacy.set_focus2 self).
Proof.
  split; [intros fuel|split; [|apply ends_set_focus2]];
    (eapply run_conseq; [|intros r evs; apply released_detach_follows]).
  - apply attach_focus_released.
    + intros w. apply (only_mono _ _ _ quiet_detached), quiet_is_focused.
    + apply detached_focus.
    + apply (only_mono _ _ _ quiet_detached), quiet_GetForegroundWindow.
  - apply attach_focus_released.
    + intros w. apply (only_mono _ _ _ quiet_detached), quiet_Legacy_is_focused.
    + apply detached_set_focus.
    + apply (only_mono _ _ _ quiet_detached), quiet_Legacy_GetForegroundWindow.
Qed.

(** On the sample desktop with window 200 in the foreground, [set_focus2]
    of window 100 attaches, is refused the foreground, and detaches before
    the refusal reaches the caller. *)
Lemma set_focus2_detaches_after_refusal :
  exists s',
    Win32Window.Legacy.set_focus2 Sample.window_100 (Sample.desktop 200)
    = Some (Raise (WinError 5), s') /\
    Sample.calls s' =
    [ Os.GetForegroundWindow; Os.EnumWindows; Os.IsWindow 200;
      Os.IsWindowVisible 200; Os.GetWindowTextW 200;
      Os.win32gui_EnumWindows_error; Os.GetForegroundWindow;
      Os.GetWindowThreadProcessId 200; Os.GetCurrentProcessId;
      Os.ProcessIdToSessionId 1; Os.GetWindowThreadProcessId 100;
      Os.ProcessIdToSessionId 102; Os.AttachThreadInput 101 201 true;
      Os.IsIconic 100; Os.ShowWindow 100 9; Os.SetForegroundWindow 100;
      Os.get_last_error; Os.AttachThreadInput 101 201 false ] /\
    Trace.detach_follows (Os.events (fst s')).
Proof.
  destruct (Win32Window.Legacy.set_focus2 Sample.window_100
              (Sample.desktop 200)) as [[r s']|] eqn:E;
    [|lazy in E; discriminate].
  destruct (proj1 (proj2 (attach_is_always_detached Sample.window_100))
              _ _ _ E) as (evs & Hev & Hd).
  lazy in E. injection E as <- <-.
  eexists. split; [reflexivity|]. split; [reflexivity|].
  cbn in Hev. subst evs. exact Hd.
Defined.

(** ** A window that is focused already *)



(** ** The callback boundary *)

Section Boundary.
Context {L : Type} (callback : Z -> OS L bool).

Lemma callback_equation (hwnd lparam : Z) (s : Os.World * L) :
  User32._callback callback hwnd lparam s =
  match callback hwnd s with
  | Some (Ok go_on, s') => Some (Ok (if (go_on : bool) then 1 else 0), s')
  | Some (Raise _, s') => Some (Ok 1, s')
  | None => None
  end.
Proof.
  unfold User32._callback, try_except, bind, ret.
  destruct (callback hwnd s) as [[[go_on|e] s']|]; reflexivity.
Qed.

Lemma enumerate_returns (handles : list Z) :
  Trace.outcome (User32.enumerate (User32._callback callback) handles)
    (fun r => exists ok, r = Ok ok).
Proof.
  induction handles as [|hwnd rest IH]; intros s r s'; cbn.
  - intros [= <- <-]. eauto.
  - unfold bind. rewrite callback_equation.
    destruct (callback hwnd s) as [[[[|]|e] s1]|]; cbn;
      try discriminate; try apply IH.
    intros [= <- <-]. eauto.
Qed.

Lemma raises_only_WinError (native : OS L Z) :
  Trace.outcome native (fun r => exists ok, r = Ok ok) ->
  Trace.outcome
    (ok <- native ;;
     err <- User32.get_last_error ;;
     if (ok =? 0) && negb (err =? 0) then raise (WinError err) else ret tt)
    (fun r => r = Ok tt \/ exists code, r = Raise (WinError code)).
Proof.
  intros Hn s r s'. unfold bind at 1.
  destruct (native s) as [[r1 s1]|] eqn:E; [|discriminate].
  destruct (Hn _ _ _ E) as [ok ->].
  unfold User32.get_last_error, bind, os_call, ret, raise. cbn.
  destruct ((ok =? 0) && negb (_ =? 0)); intros [= <- <-]; eauto.
Qed.

Lemma native_returns (c : Os.Call) (handles_of : Os.Reply -> list Z) :
  Trace.outcome
    (r <- os_call c ;;
     if Os.ret r =? 0 then ret 0
     else User32.enumerate (User32._callback callback) (handles_of r))
    (fun r => exists ok, r = Ok ok).
Proof.
  intros s r s'. unfold bind, os_call. cbn.
  destruct (Os.ret _ =? 0).
  - intros [= <- <-]. eauto.
  - apply enumerate_returns.
Qed.


(** C3 (amended): whatever the caller's callback does, [_callback] returns
    to the platform without raising: [1] (go on) where the callback
    returned true and where it raised, [0] (stop) where it returned
    false.  So the enumeration never ends in an exception of the callback,
    and all that [EnumWindows] and [EnumChildWindows] can raise is their
    own [WinError]. *)
Theorem callback_boundary :
  (forall hwnd lparam s,
      User32._callback callback hwnd lparam s =
      match callback hwnd s with
      | Some (Ok go_on, s') => Some (Ok (if (go_on : bool) then 1 else 0), s')
      | Some (Raise _, s') => Some (Ok 1, s')
      | None => None
      end) /\
  (forall handles,
      Trace.outcome (User32.enumerate (User32._callback callback) handles)
        (fun r => exists ok, r = Ok ok)) /\
  Trace.outcome (User32.EnumWindows callback)
    (fun r => r = Ok tt \/ exists code, r = Raise (WinError code)) /\
  (forall parent_hwnd,
      Trace.outcome (User32.EnumChildWindows parent_hwnd callback)
        (fun r => r = Ok tt \/ exists code, r = Raise (WinError code))).
Proof.
  split; [apply callback_equation|].
  split; [apply enumerate_returns|].
  split; [|intros parent_hwnd];
    apply raises_only_WinError, native_returns.
Qed.

End Boundary.

(** C3 as stated fails: the exception of a callback is turned into [1],
    which tells the platform to go on, not into [0].  On the sample
    desktop, whose top-level windows are 200 and 100, the callback raises
    on 200 and is called on 100 all the same. *)
Lemma raising_callback_continues :
  (exists s',
      Sample.picky_callback 200 (fst (Sample.desktop 100), [])
      = Some (Raise (ValueError "not this one"), s')) /\
  (exists s',
      User32._callback Sample.picky_callback 200 0
        (fst (Sample.desktop 100), [])
      = Some (Ok 1, s')) /\
  exists s',
    with_local [] (User32.EnumWindows Sample.picky_callback)
      (Sample.desktop 100)
    = Some (Ok (tt, [100]), s') /\
    Sample.calls s' = [Os.EnumWindows; Os.get_last_error].
Proof.
  split; [eexists; lazy; reflexivity|].
  split; [eexists; lazy; reflexivity|].
  eexists. split; [lazy; reflexivity|reflexivity].
Qed.

(** ** The current [is_focused] never returns *)

Section Keeps.
Context {L : Type}.

Lemma keeps_ret {A} (a : A) : Trace.keeps (L:=L) (ret a).
Proof. intros s r s' [= <- <-]. reflexivity. Qed.

Lemma keeps_raise {A} (e : Exn) : Trace.keeps (L:=L) (A:=A) (raise e).
Proof. intros s r s' [= <- <-]. reflexivity. Qed.

Lemma keeps_lift {A} (x : result A) : Trace.keeps (L:=L) (lift x).
Proof. intros s r s' [= <- <-]. reflexivity. Qed.

Lemma keeps_out_of_fuel {A} : Trace.keeps (L:=L) (A:=A) out_of_fuel.
Proof. intros s r s'. discriminate. Qed.

Lemma keeps_call (c : Os.Call) : Trace.keeps (L:=L) (os_call c).
Proof. intros s r s' [= <- <-]. reflexivity. Qed.

Lemma keeps_get_local : Trace.keeps (L:=L) get_local.
Proof. intros s r s' [= <- <-]. reflexivity. Qed.

Lemma keeps_bind_outcome {A B} (m : OS L A) (k : A -> OS L B)
    (Q : result A -> Prop) :
  Trace.keeps m -> Trace.outcome m Q ->
  (forall a, Q (Ok a) -> Trace.keeps (k a)) ->
  Trace.keeps (bind m k).
Proof.
  intros Hm HQ Hk s r s'. unfold bind.
  destruct (m s) as [[[a|e] s1]|] eqn:E; [| |discriminate].
  - intros Hka. rewrite (Hk a (HQ _ _ _ E) _ _ _ Hka). apply (Hm _ _ _ E).
  - intros [= <- <-]. apply (Hm _ _ _ E).
Qed.

Lemma keeps_bind {A B} (m : OS L A) (k : A -> OS L B) :
  Trace.keeps m -> (forall a, Trace.keeps (k a)) -> Trace.keeps (bind m k).
Proof.
  intros Hm Hk. apply (keeps_bind_outcome m k (fun _ => True)); auto.
  intros s r s' _. exact I.
Qed.

Lemma keeps_try_except {A} (body : OS L A) (handler : Exn -> OS L A) :
  Trace.keeps body -> (forall e, Trace.keeps (handler e)) ->
  Trace.keeps (try_except body handler).
Proof.
  intros Hb Hh s r s'. unfold try_except.
  destruct (body s) as [[[a|e] s1]|] eqn:E; [| |discriminate].
  - intros [= <- <-]. apply (Hb _ _ _ E).
  - intros Hha. rewrite (Hh e _ _ _ Hha). apply (Hb _ _ _ E).
Qed.

End Keeps.

Lemma keeps_with_local {L L' A} (init : L') (m : OS L' A) :
  Trace.keeps (L:=L) (with_local init m).
Proof.
  intros s r s'. unfold with_local.
  destruct (m (fst s, init)) as [[[a|e] s1]|]; [| |discriminate];
    intros [= <- <-]; reflexivity.
Qed.

Ltac keeps_step :=
  lazymatch goal with
  | |- Trace.keeps (ret _) => apply keeps_ret
  | |- Trace.keeps (raise _) => apply keeps_raise
  | |- Trace.keeps (lift _) => apply keeps_lift
  | |- Trace.keeps out_of_fuel => apply keeps_out_of_fuel
  | |- Trace.keeps get_local => apply keeps_get_local
  | |- Trace.keeps (os_call _) => apply keeps_call
  | |- Trace.keeps (bind _ _) => apply keeps_bind; [|intros ?]
  | |- Trace.keeps (try_except _ _) => apply keeps_try_except; [|intros ?]
  | |- Trace.keeps (with_local _ _) => apply keeps_with_local
  | |- Trace.keeps (if ?b then _ else _) => destruct b
  | |- Trace.keeps (match ?x with _ => _ end) => destruct x
  | |- Trace.keeps (let _ := _ in _) => cbv zeta
  end.

Ltac keeps_tac :=
  repeat first
    [ keeps_step
    | solve [eauto]
    | progress (open_window; open_user32) ].

Section NeverReal.
Context {L : Type}.

Lemma keeps_last_visible_popup (fuel : nat) : forall anc walk,
  Trace.keeps (L:=L) (Win32Window.last_visible_popup fuel anc walk).
Proof.
  induction fuel as [|fuel IH]; intros anc walk; cbn;
    destruct (bool_decide (anc = walk)); keeps_tac.
Qed.

Lemma keeps_is_real_window (fuel : nat) (self : Win32Window.Window) :
  Trace.keeps (L:=L) (Win32Window.is_real_window fuel self).
Proof.
  unfold Win32Window.is_real_window.
  pose proof keeps_last_visible_popup. keeps_tac.
Qed.

Lemma outcome_bind {A B} (m : OS L A) (k : A -> OS L B) (Q : result B -> Prop) :
  (forall a, Trace.outcome (k a) Q) ->
  (forall e, Q (Raise e)) ->
  Trace.outcome (bind m k) Q.
Proof.
  intros Hk He s r s'. unfold bind.
  destruct (m s) as [[[a|e] s1]|]; [apply Hk| |discriminate].
  intros [= <- <-]. apply He.
Qed.

Lemma outcome_ret {A} (a : A) (Q : result A -> Prop) :
  Q (Ok a) -> Trace.outcome (L:=L) (ret a) Q.
Proof. intros HQ s r s' [= <- <-]. exact HQ. Qed.

Lemma outcome_raise {A} (e : Exn) (Q : result A -> Prop) :
  Q (Raise e) -> Trace.outcome (L:=L) (raise e) Q.
Proof. intros HQ s r s' [= <- <-]. exact HQ. Qed.

(** [is_real_window] never answers [True]: where its first two tests
    pass, the call of [get_title_bar_info] raises. *)
Lemma is_real_window_never_true (fuel : nat) (self : Win32Window.Window) :
  Trace.outcome (L:=L) (Win32Window.is_real_window fuel self)
    (fun r => r <> Ok true).
Proof.
  unfold Win32Window.is_real_window.
  apply outcome_bind; [intros visible|discriminate].
  destruct (negb visible); [apply outcome_ret; discriminate|].
  apply outcome_bind; [intros anc|discriminate].
  apply outcome_bind; [intros walk|discriminate].
  destruct (negb _); [apply outcome_ret; discriminate|].
  intros s r s'. unfold User32.get_title_bar_info, bind, raise.
  intros [= <- <-]. discriminate.
Qed.

End NeverReal.

(** The callback of [windows] never appends: [_windows] stays as it
    was. *)
Lemma keeps_windows_callback (fuel : nat) (hwnd : Z) :
  Trace.keeps
    (window <- Win32Window.Window_init hwnd ;;
     real <- Win32Window.is_real_window fuel window ;;
     if (real : bool)
     then _windows <- get_local ;;
          set_local (_windows ++ [window]) ;;
          ret true
     else ret true).
Proof.
  apply keeps_bind; [keeps_tac|]. intros window.
  eapply keeps_bind_outcome;
    [apply keeps_is_real_window|apply is_real_window_never_true|].
  intros [|] Hreal; [contradiction|]. keeps_tac.
Qed.

Lemma keeps_enumerate {L} (c_callback : Z -> Z -> OS L Z) (handles : list Z) :
  (forall hwnd lparam, Trace.keeps (c_callback hwnd lparam)) ->
  Trace.keeps (User32.enumerate c_callback handles).
Proof.
  intros Hc. induction handles as [|hwnd rest IH]; cbn; keeps_tac.
Qed.

Lemma keeps_EnumWindows {L} (callback : Z -> OS L bool) :
  (forall hwnd, Trace.keeps (callback hwnd)) ->
  Trace.keeps (User32.EnumWindows callback).
Proof.
  intros Hc. unfold User32.EnumWindows, User32.native_EnumWindows.
  keeps_tac; apply keeps_enumerate; intros hwnd lparam;
    unfold User32._callback; keeps_tac.
Qed.

(** [windows] returns the empty list whenever it returns. *)
Lemma windows_is_empty {L} (fuel : nat) :
  Trace.outcome (L:=L) (Win32Window.windows fuel)
    (fun r => forall ws, r = Ok ws -> ws = []).
Proof.
  intros s r s'. unfold Win32Window.windows, bind at 1, with_local.
  match goal with
  | |- context [User32.EnumWindows ?cb ?st] =>
      pose proof (keeps_EnumWindows cb (keeps_windows_callback fuel) st) as Hk;
      destruct (User32.EnumWindows cb st) as [[[[]|e] s1]|]
  end; try discriminate.
  - specialize (Hk _ _ eq_refl). cbn in Hk.
    intros [= <- <-] ws [= <-]. exact Hk.
  - intros [= <- <-] ws [=].
Qed.

(** So the module-level [top_window] always raises, and with it
    [is_focused]: in this revision the attach-based method never gets
    past its first test. *)
Lemma top_window_raises {L} (fuel : nat) :
  Trace.outcome (L:=L) (Win32Window.top_window fuel)
    (fun r => exists e, r = Raise e).
Proof.
  intros s r s'. unfold Win32Window.top_window, bind.
  destruct (Win32Window.windows fuel s) as [[[ws|e] s1]|] eqn:E;
    [| |discriminate].
  - rewrite (windows_is_empty fuel _ _ _ E ws eq_refl).
    intros [= <- <-]. eauto.
  - intros [= <- <-]. eauto.
Qed.

Lemma is_focused_raises {L} (fuel : nat) (self : Win32Window.Window) :
  Trace.outcome (L:=L) (Win32Window.is_focused fuel self)
    (fun r => exists e, r = Raise e).
Proof.
  unfold Win32Window.is_focused.
  apply outcome_bind; [intros fg|eauto].
  intros s r s'. unfold bind at 1.
  destruct (Win32Window.top_window fuel s) as [[r1 s1]|] eqn:E;
    [|discriminate].
  destruct (top_window_raises fuel _ _ _ E) as [e ->].
  intros [= <- <-]. eauto.
Qed.

Lemma focus_raises {L} (fuel : nat) (self : Win32Window.Window) :
  Trace.outcome (L:=L) (Win32Window._focus fuel self)
    (fun r => exists e, r = Raise e).
Proof.
  intros s r s'. unfold Win32Window._focus, Win32Window.attach_focus, bind at 1.
  destruct (Win32Window.is_focused fuel self s) as [[r1 s1]|] eqn:E;
    [|discriminate].
  destruct (is_focused_raises fuel self _ _ _ E) as [e ->].
  intros [= <- <-]. eauto.
Qed.

(** ** A window that is focused already *)



(** The gentle [focus] of the current revision makes no check: on a
    desktop whose foreground window is window 100 it shows the window and
    toggles its Z order all the same.  (The check of this revision raises
    on that desktop, as on every other.) *)
Lemma focus_makes_no_check :
  (exists s1,
      User32.GetForegroundWindow (Sample.desktop 100)
      = Some (Ok (Some (Win32Window.hwnd Sample.window_100)), s1)) /\
  (exists s1,
      Win32Window.is_focused 5 Sample.window_100 (Sample.desktop 100)
      = Some (Raise IndexError, s1)) /\
  exists s',
    Win32Window.focus Sample.window_100 (Sample.desktop 100)
    = Some (Ok tt, s') /\
    Sample.calls s' =
    [ Os.ShowWindow 100 5;
      Os.SetWindowPos 100 (-1) 0 0 0 0 3;
      Os.SetWindowPos 100 (-2) 0 0 0 0 3;
      Os.sleep ].
Proof.
  split; [eexists; lazy; reflexivity|].
  split; [eexists; vm_compute; reflexivity|].
  eexists. split; [lazy; reflexivity|reflexivity].
Qed.
(** ** Geometry and colour *)

(** X1: [Rect.center] is the midpoint of the rectangle up to the rounding
    of [int(float(n) / 2.0)]: for every rectangle, an inverted one too,
    twice a coordinate of the centre differs from the sum of the two edges
    by at most 1, and by nothing when the width (or height) is even. *)
Theorem center_near_midpoint (r : Common.Rect) :
  Z.abs (Common.left r + Common.right r - 2 * Common.x (Common.center r)) <= 1 /\
  Z.abs (Common.top r + Common.bottom r - 2 * Common.y (Common.center r)) <= 1 /\
  (Z.even (Common.width r) = true ->
   2 * Common.x (Common.center r) = Common.left r + Common.right r) /\
  (Z.even (Common.height r) = true ->
   2 * Common.y (Common.center r) = Common.top r + Common.bottom r).
Proof.
  unfold Common.center, Common.half, Common.width, Common.height; cbn.
  pose proof (Z.quot_rem' (Common.right r - Common.left r) 2) as Hw.
  pose proof (Z.quot_rem' (Common.bottom r - Common.top r) 2) as Hh.
  pose proof (Z.rem_bound_abs (Common.right r - Common.left r) 2 ltac:(lia)).
  pose proof (Z.rem_bound_abs (Common.bottom r - Common.top r) 2 ltac:(lia)).
  repeat split; try lia.
  - intros He. apply Z.even_spec in He as [k Hk]. rewrite Hk.
    rewrite (Z.mul_comm 2 k), Z.quot_mul by lia. lia.
  - intros He. apply Z.even_spec in He as [k Hk]. rewrite Hk.
    rewrite (Z.mul_comm 2 k), Z.quot_mul by lia. lia.
Qed.

Lemma lor_shiftl_add (a b n : Z) :
  0 <= n -> 0 <= a < 2 ^ n -> Z.lor a (Z.shiftl b n) = a + b * 2 ^ n.
Proof.
  intros Hn Ha.
  assert (Hl : Z.land a (Z.shiftl b n) = 0).
  { apply Z.bits_inj'. intros i Hi.
    rewrite Z.land_spec, Z.bits_0, Z.shiftl_spec by lia.
    destruct (Z.ltb_spec i n).
    - rewrite (Z.testbit_neg_r b) by lia. apply andb_false_r.
    - destruct (Z.eqb_spec a 0) as [->|Hne]; [rewrite Z.bits_0; reflexivity|].
      rewrite Z.bits_above_log2; [reflexivity|lia|].
      apply Z.log2_lt_pow2; [lia|].
      apply Z.lt_le_trans with (2 ^ n); [lia|].
      apply Z.pow_le_mono_r; lia. }
  rewrite <- Z.lxor_lor by exact Hl.
  rewrite <- Z.add_nocarry_lxor by exact Hl.
  rewrite Z.shiftl_mul_pow2 by lia. reflexivity.
Qed.

Lemma rgb_sum (r g b : Z) :
  0 <= r <= 255 -> 0 <= g <= 255 ->
  Color.rgb r g b = r + 256 * g + 65536 * b.
Proof.
  intros Hr Hg. unfold Color.rgb.
  rewrite (lor_shiftl_add r g 8) by lia.
  rewrite (lor_shiftl_add (r + g * 2 ^ 8) b 16) by lia.
  lia.
Qed.

(** X2: for channels between 0 and 255, [Color.rgb] packs them into a
    24-bit value from which each can be read back: the low byte is the
    red channel, the next the green one, the third the blue one. *)
Theorem rgb_round_trip (r g b : Z) :
  0 <= r <= 255 -> 0 <= g <= 255 -> 0 <= b <= 255 ->
  let c := Color.rgb r g b in
  0 <= c <= 0xFFFFFF /\
  Z.land c 0xFF = r /\
  Z.land (Z.shiftr c 8) 0xFF = g /\
  Z.land (Z.shiftr c 16) 0xFF = b.
Proof.
  intros Hr Hg Hb. cbv zeta. rewrite rgb_sum by assumption.
  change 0xFF with (Z.ones 8).
  rewrite !Z.land_ones, !Z.shiftr_div_pow2 by lia.
  change (2 ^ 8) with 256. change (2 ^ 16) with 65536.
  repeat split; try lia.
  - Z.div_mod_to_equations. lia.
  - Z.div_mod_to_equations. lia.
  - Z.div_mod_to_equations. lia.
Qed.

Lemma rgb_round_trip_witness :
  Color.rgb 255 128 0 = 0x0080FF /\
  Z.land (Color.rgb 255 128 0) 0xFF = 255 /\
  Z.land (Z.shiftr (Color.rgb 255 128 0) 8) 0xFF = 128 /\
  Z.land (Z.shiftr (Color.rgb 255 128 0) 16) 0xFF = 0.
Proof.
  split; [reflexivity|].
  apply (rgb_round_trip 255 128 0); lia.
Defined.

Lemma legacy_rgb_in_range (r g b : Z) :
  0 <= r <= 255 -> 0 <= g <= 255 -> 0 <= b <= 255 ->
  Color.Legacy.rgb r g b = Ok (r + 256 * g + 65536 * b).
Proof.
  intros Hr Hg Hb. unfold Color.Legacy.rgb.
  replace ((0 <=? r) && (r <=? 255)) with true by (symmetry; lia).
  replace ((0 <=? g) && (g <=? 255)) with true by (symmetry; lia).
  replace ((0 <=? b) && (b <=? 255)) with true by (symmetry; lia).
  cbn [andb negb]. f_equal. apply rgb_sum; assumption.
Qed.

Lemma legacy_rgb_ok (r g b c : Z) :
  Color.Legacy.rgb r g b = Ok c ->
  (0 <= r <= 255 /\ 0 <= g <= 255 /\ 0 <= b <= 255) /\
  c = r + 256 * g + 65536 * b.
Proof.
  intros E.
  assert (Hrange : 0 <= r <= 255 /\ 0 <= g <= 255 /\ 0 <= b <= 255).
  { unfold Color.Legacy.rgb in E.
    destruct (((0 <=? r) && (r <=? 255)) && ((0 <=? g) && (g <=? 255)) &&
              ((0 <=? b) && (b <=? 255))) eqn:Et; [|discriminate].
    lia. }
  split; [exact Hrange|]. destruct Hrange as (Hr & Hg & Hb).
  rewrite legacy_rgb_in_range in E by assumption. congruence.
Qed.

(** X3: [Color.rgb] of the older revision returns a colour exactly when
    the three channels lie between 0 and 255, and raises [ValueError]
    otherwise; the colour is a 24-bit value, and two calls that return the
    same colour were given the same channels. *)
Theorem legacy_rgb_checks_its_channels (r g b : Z) :
  let in_range := 0 <= r <= 255 /\ 0 <= g <= 255 /\ 0 <= b <= 255 in
  (in_range -> Color.Legacy.rgb r g b = Ok (r + 256 * g + 65536 * b)) /\
  (~ in_range -> Color.Legacy.rgb r g b = Raise (ValueError "Out of bounds")) /\
  (forall c,
      Color.Legacy.rgb r g b = Ok c ->
      in_range /\ 0 <= c <= 0xFFFFFF /\
      forall r' g' b',
        Color.Legacy.rgb r' g' b' = Ok c -> r' = r /\ g' = g /\ b' = b) /\
  Color.Legacy.rgb 255 0 0 = Ok Color.RED /\
  Color.Legacy.rgb 0 255 0 = Ok Color.GREEN /\
  Color.Legacy.rgb 0 0 255 = Ok Color.BLUE.
Proof.
  cbv zeta. split; [|split; [|split]].
  - intros (Hr & Hg & Hb). apply legacy_rgb_in_range; assumption.
  - intros Hout. unfold Color.Legacy.rgb.
    destruct (((0 <=? r) && (r <=? 255)) && ((0 <=? g) && (g <=? 255)) &&
              ((0 <=? b) && (b <=? 255))) eqn:Et; [|reflexivity].
    exfalso. apply Hout. lia.
  - intros c E. apply legacy_rgb_ok in E as [Hrange ->].
    split; [exact Hrange|]. split; [lia|].
    intros r' g' b' E'. apply legacy_rgb_ok in E' as [Hrange' Heq]. lia.
  - repeat split; reflexivity.
Qed.

(** ** The order of a search *)

Section SearchOrder.
Context {C : Type} `{Win32.Matcher C}.
Variable condition : C.

Lemma find_all_sound (element : Win32.Element) : forall l,
  Win32.find_all condition element = Ok l ->
  l = List.filter (fun d => Snapshot.accepted (Win32.test condition d))
        (Snapshot.descendants element) /\
  Base.enumerable element = true /\
  Forall (fun d => exists b, Win32.test condition d = Ok b)
    (Snapshot.descendants element).
Proof.
  induction element as [a e|a kids IH] using Base.Node_ind; intros l.
  - discriminate.
  - cbn. revert l.
    induction kids as [|child rest IHrest]; intros l.
    + intros [= <-]. auto.
    + apply Forall_cons_1 in IH as [IHchild IHkids].
      specialize (IHrest IHkids).
      destruct (Win32.test condition child) as [b|e] eqn:Et; cbn;
        [|discriminate].
      destruct (Win32.find_all condition child) as [below|e]; cbn;
        [|discriminate].
      destruct (IHchild below eq_refl) as (-> & Hen & Hall).
      match goal with
      | |- context [result_bind ?r _] => destruct r as [after|e] eqn:E
      end; cbn; [|discriminate].
      destruct (IHrest after eq_refl) as (-> & Hen' & Hall').
      intros [= <-]. split; [|split].
      * rewrite Et, List.filter_app. destruct b; reflexivity.
      * rewrite Hen, Hen'. reflexivity.
      * constructor; [eauto|]. apply Forall_app; auto.
Qed.

Lemma find_all_complete (element : Win32.Element) :
  Base.enumerable element = true ->
  Forall (fun d => exists b, Win32.test condition d = Ok b)
    (Snapshot.descendants element) ->
  Win32.find_all condition element
  = Ok (List.filter (fun d => Snapshot.accepted (Win32.test condition d))
          (Snapshot.descendants element)).
Proof.
  induction element as [a e|a kids IH] using Base.Node_ind.
  - discriminate.
  - cbn.
    induction kids as [|child rest IHrest].
    + reflexivity.
    + apply Forall_cons_1 in IH as [IHchild IHkids].
      specialize (IHrest IHkids).
      intros [Hc Hr]%andb_prop Hall.
      apply Forall_cons_1 in Hall as [[b Hb] Hall].
      apply Forall_app in Hall as [Hall1 Hall2].
      rewrite Hb. cbn. rewrite (IHchild Hc Hall1). cbn.
      rewrite (IHrest Hr Hall2). cbn.
      rewrite Hb, List.filter_app. destruct b; reflexivity.
Qed.

(** What [find_first] returns: the first descendant in pre-order that
    passes the test, all before it having failed it; or [None] after every
    descendant has failed it. *)
Lemma find_first_spec (element : Win32.Element) :
  match Win32.find_first condition element with
  | Ok (Some f) =>
      exists pre post,
        Snapshot.descendants element = pre ++ f :: post /\
        Win32.test condition f = Ok true /\
        Forall (fun d => Win32.test condition d = Ok false) pre
  | Ok None =>
      Base.enumerable element = true /\
      Forall (fun d => Win32.test condition d = Ok false)
        (Snapshot.descendants element)
  | Raise _ => True
  end.
Proof.
  induction element as [a e|a kids IH] using Base.Node_ind.
  - exact I.
  - cbn [Win32.find_first Snapshot.descendants Base.enumerable].
    induction kids as [|child rest IHrest].
    + cbn. auto.
    + apply Forall_cons_1 in IH as [IHchild IHkids].
      specialize (IHrest IHkids).
      destruct (Win32.test condition child) as [[|]|e] eqn:Et; cbn;
        [| |exact I].
      * eexists [], _. split; [reflexivity|]. split; [exact Et|constructor].
      * destruct (Win32.find_first condition child) as [[g|]|e] eqn:Ef; cbn;
          [| |exact I].
        -- destruct IHchild as (pre & post & Hd & Hg & Hpre).
           eexists (child :: pre), _.
           split; [rewrite Hd, <- app_assoc; reflexivity|].
           split; [exact Hg|]. constructor; assumption.
        -- destruct IHchild as [Hen Hall].
           match type of IHrest with
           | match ?r with Ok _ => _ | Raise _ => _ end =>
               destruct r as [[g|]|e]
           end; [| |exact I].
           ++ destruct IHrest as (pre & post & Hd & Hg & Hpre).
              exists (child :: Snapshot.descendants child ++ pre), post.
              split; [rewrite Hd; cbn; rewrite <- app_assoc; reflexivity|].
              split; [exact Hg|].
              constructor; [exact Et|]. apply Forall_app; auto.
           ++ destruct IHrest as [Hen' Hall']. split.
              ** rewrite Hen. exact Hen'.
              ** constructor; [exact Et|]. apply Forall_app; auto.
Qed.

End SearchOrder.

Lemma filter_all {X} (l : list X) : List.filter (fun _ => true) l = l.
Proof. induction l as [|x l IH]; cbn; [|rewrite IH]; reflexivity. Qed.

(** X4: [find_all] returns exactly the proper descendants that pass the
    test, in pre-order (a parent before its children, siblings in
    enumeration order).  Whenever it returns a list, the list is that
    one; it does return when every enumeration of children succeeds and
    the test can be made on every descendant; with the match-everything
    condition of the older revision the list is that of all
    descendants. *)
Theorem find_all_is_filtered_preorder {C : Type} `{Win32.Matcher C}
    (condition : C) (element : Win32.Element) :
  (forall l,
      Win32.find_all condition element = Ok l ->
      l = List.filter (fun d => Snapshot.accepted (Win32.test condition d))
            (Snapshot.descendants element)) /\
  (Base.enumerable element = true ->
   Forall (fun d => exists b, Win32.test condition d = Ok b)
     (Snapshot.descendants element) ->
   Win32.find_all condition element
   = Ok (List.filter (fun d => Snapshot.accepted (Win32.test condition d))
           (Snapshot.descendants element))) /\
  (Base.enumerable element = true ->
   Win32.find_all Win32.Legacy.TrueCondition element
   = Ok (Snapshot.descendants element)).
Proof.
  split; [|split].
  - intros l E. apply (find_all_sound condition element l E).
  - apply find_all_complete.
  - intros Hen.
    rewrite (find_all_complete Win32.Legacy.TrueCondition element Hen).
    + f_equal. apply filter_all.
    + apply Forall_forall. intros d _. exists true. reflexivity.
Qed.

(** On the sample tree, [Condition(title="ok")] picks the grandchild [g1]
    out of the pre-order [c1; g1; c2]. *)
Lemma find_all_is_filtered_preorder_witness :
  Snapshot.descendants Sample.root = [Sample.c1; Sample.g1; Sample.c2] /\
  Win32.find_all Samples.title_ok Sample.root = Ok [Sample.g1] /\
  Win32.find_all Win32.Legacy.TrueCondition Sample.root
  = Ok [Sample.c1; Sample.g1; Sample.c2].
Proof.
  pose proof (find_all_is_filtered_preorder Samples.title_ok Sample.root)
    as (_ & Hfilter & _).
  pose proof (find_all_is_filtered_preorder Win32.Legacy.TrueCondition
                Sample.root) as (_ & _ & Hall).
  split; [reflexivity|]. split.
  - rewrite Hfilter; [reflexivity|reflexivity|].
    repeat constructor; eexists; reflexivity.
  - rewrite Hall; reflexivity.
Defined.

(** X5: [find_first] returns the first proper descendant, in pre-order,
    that passes the test: every descendant before it was tested and failed,
    and nothing after it is read.  It returns [None] only after every
    enumeration succeeded and every descendant failed the test. *)
Theorem find_first_is_first_in_preorder {C : Type} `{Win32.Matcher C}
    (condition : C) (element : Win32.Element) :
  (forall f,
      Win32.find_first condition element = Ok (Some f) ->
      exists pre post,
        Snapshot.descendants element = pre ++ f :: post /\
        Win32.test condition f = Ok true /\
        Forall (fun d => Win32.test condition d = Ok false) pre) /\
  (Win32.find_first condition element = Ok None ->
   Base.enumerable element = true /\
   Forall (fun d => Win32.test condition d = Ok false)
     (Snapshot.descendants element)).
Proof.
  pose proof (find_first_spec condition element) as Hspec.
  split.
  - intros f E. rewrite E in Hspec. exact Hspec.
  - intros E. rewrite E in Hspec. exact Hspec.
Qed.

(** The match [g1] comes before the child whose children cannot be
    enumerated: [find_first] returns it, while [find_all] raises. *)
Lemma find_first_is_first_in_preorder_witness :
  Win32.find_first Samples.title_ok Samples.root_with_sealed
  = Ok (Some Sample.g1) /\
  Win32.find_all Samples.title_ok Samples.root_with_sealed
  = Raise (WinError 5) /\
  exists pre post,
    Snapshot.descendants Samples.root_with_sealed = pre ++ Sample.g1 :: post /\
    Win32.test Samples.title_ok Sample.g1 = Ok true /\
    Forall (fun d => Win32.test Samples.title_ok d = Ok false) pre.
Proof.
  split; [reflexivity|]. split; [reflexivity|].
  apply (proj1 (find_first_is_first_in_preorder Samples.title_ok
                  Samples.root_with_sealed)).
  reflexivity.
Defined.

(** ** What a walk prints, whatever its reads do *)

Section WalkInvariants.
Context {A D : Type} (reads : Base.Reads A).

Lemma count_key_nil k : Output.count_key k [] = 0.
Proof. reflexivity. Qed.

Lemma count_key_app k l1 l2 :
  Output.count_key k (l1 ++ l2) = Output.count_key k l1 + Output.count_key k l2.
Proof.
  unfold Output.count_key. rewrite List.filter_app, List.length_app. lia.
Qed.

Lemma count_key_one k l :
  Output.count_key k [l] = if String.eqb (Base.line_key l) k then 1 else 0.
Proof. unfold Output.count_key. cbn. destruct (String.eqb _ _); reflexivity. Qed.

Lemma counters_get_insert (c : gmap string Z) (k k' : string) (v : Z) :
  Base.counters_get (<[k := v]> c) k' =
  if String.eqb k k' then v else Base.counters_get c k'.
Proof.
  unfold Base.counters_get.
  destruct (String.eqb_spec k k') as [->|Hne].
  - rewrite lookup_insert_eq. reflexivity.
  - rewrite lookup_insert_ne by exact Hne. reflexivity.
Qed.

Lemma grown_nothing lo hi draw (dur : D) c0 (s s' : Base.Walk D) r :
  Base.stdout s' = Base.stdout s ->
  Base.outlined s' = Base.outlined s ->
  (r = Ok tt -> Base.counters s' = c0) ->
  Output.grown lo hi draw dur c0 s r s'.
Proof.
  intros Hs Ho Hc. exists [], []. rewrite !app_nil_r.
  split; [exact Hs|]. split; [exact Ho|]. split; [constructor|].
  split; [intros [|] ? ? [=]|].
  split; [intros Hr k; rewrite (Hc Hr), count_key_nil; lia|].
  destruct draw; reflexivity.
Qed.

Lemma outlines_of_app draw (dur : D) (l1 l2 : list Base.Line) :
  Output.outlines_of draw dur (l1 ++ l2) =
  Output.outlines_of draw dur l1 ++ Output.outlines_of draw dur l2.
Proof.
  unfold Output.outlines_of. destruct draw; [|reflexivity].
  rewrite omap_app, List.filter_app, map_app. reflexivity.
Qed.

Lemma app_split {X} (a1 a2 pre : list X) (l : X) (post : list X) :
  a1 ++ a2 = pre ++ l :: post ->
  (exists post1, a1 = pre ++ l :: post1 /\ post = post1 ++ a2) \/
  (exists pre2, pre = a1 ++ pre2 /\ a2 = pre2 ++ l :: post).
Proof.
  intros Heq. apply app_eq_app in Heq as [l0 [[-> Hl]|[-> Hl]]].
  - destruct l0 as [|x l0]; cbn in Hl.
    + right. exists []. rewrite !app_nil_r. auto.
    + injection Hl as <- ->. left. eauto.
  - right. eauto.
Qed.

(** Sequencing: what two walks add, one after the other. *)
Lemma grown_seq lo hi draw (dur : D) c0 (s s1 s2 : Base.Walk D) r :
  Output.grown lo hi draw dur c0 s (Ok tt) s1 ->
  Output.grown lo hi draw dur (Base.counters s1) s1 r s2 ->
  Output.grown lo hi draw dur c0 s r s2.
Proof.
  intros (a1 & d1 & Hs1 & Ho1 & Hd1 & Hi1 & Hc1 & ->)
         (a2 & d2 & Hs2 & Ho2 & Hd2 & Hi2 & Hc2 & ->).
  specialize (Hc1 eq_refl).
  exists (a1 ++ a2), (Output.outlines_of draw dur a1 ++
                      Output.outlines_of draw dur a2).
  split; [rewrite Hs2, Hs1, app_assoc; reflexivity|].
  split; [rewrite Ho2, Ho1, app_assoc; reflexivity|].
  split; [apply Forall_app; auto|].
  split.
  { intros pre l post Heq.
    destruct (app_split a1 a2 pre l post Heq)
      as [(post1 & -> & ->)|(pre2 & -> & ->)].
    - apply (Hi1 pre l post1 eq_refl).
    - rewrite (Hi2 pre2 l post eq_refl), Hc1, count_key_app. lia. }
  split.
  { intros Hr k. rewrite (Hc2 Hr), Hc1, count_key_app. lia. }
  symmetry. apply outlines_of_app.
Qed.

Lemma grown_weaken lo lo' hi hi' draw (dur : D) c0 (s s' : Base.Walk D) r :
  lo' <= lo ->
  match hi', hi with
  | Some h', Some h => h <= h'
  | Some _, None => False
  | None, _ => True
  end ->
  Output.grown lo hi draw dur c0 s r s' ->
  Output.grown lo' hi' draw dur c0 s r s'.
Proof.
  intros Hlo Hhi (a & dr & Hs & Ho & Hd & Hrest).
  exists a, dr. split; [exact Hs|]. split; [exact Ho|]. split; [|exact Hrest].
  eapply Forall_impl; [exact Hd|]. cbn. intros l [H1 H2]. split; [lia|].
  destruct hi' as [h'|]; [|exact I]. destruct hi as [h|]; [lia|contradiction].
Qed.

Lemma children_grow (kids : list (Base.Node A)) md d draw (dur : D) :
  Forall (Output.grows (D:=D) reads) kids ->
  forall s r s',
    Base.tree_children reads md d draw dur kids s = Some (r, s') ->
    Output.grown (d + 1)
      (match md with Some m => Some (Z.max (d + 1) m) | None => None end)
      draw dur (Base.counters s) s r s'.
Proof.
  intros IH. induction kids as [|child rest IHrest]; intros s r s'.
  - intros [= <- <-]. apply grown_nothing; reflexivity.
  - apply Forall_cons_1 in IH as [IHchild IHkids].
    cbn [Base.tree_children]. unfold bind at 1 2, get.
    destruct (Base.tree reads child md (Some (Base.counters s)) (d + 1)
                draw dur s) as [[[[]|e] s1]|] eqn:E; [| |discriminate].
    + intros Hrest.
      eapply grown_seq; [exact (IHchild _ _ _ _ _ _ _ _ E)|].
      exact (IHrest IHkids _ _ _ Hrest).
    + intros [= <- <-]. exact (IHchild _ _ _ _ _ _ _ _ E).
Qed.

Lemma node_grows (a : A) (k : result (list (Base.Node A))) :
  (forall kids, k = Ok kids -> Forall (Output.grows (D:=D) reads) kids) ->
  Output.grows (D:=D) reads (Base.mkNode a k).
Proof.
  intros IH md cs d draw dur s r s'.
  destruct (match md with Some m => m <? 0 | None => false end) eqn:Emd.
  { cbn [Base.tree]. rewrite Emd. intros [= <- <-].
    apply grown_nothing; [reflexivity|reflexivity|discriminate]. }
  assert (Hmd : Base.valid_depth md).
  { destruct md as [m|]; [apply Z.ltb_ge, Emd|exact I]. }
  destruct (Base.type_key reads (Base.mkNode a k)) as [key|e] eqn:Ek.
  2:{ cbn [Base.tree]. rewrite Emd, Ek.
      destruct cs; intros [= <- <-];
        (apply grown_nothing; [reflexivity|reflexivity|discriminate]). }
  destruct (Base.label reads (Base.mkNode a k)) as [t|e] eqn:El.
  2:{ cbn [Base.tree]. rewrite Emd, Ek, El.
      destruct cs; intros [= <- <-];
        (apply grown_nothing; [reflexivity|reflexivity|discriminate]). }
  rewrite (tree_step reads _ md cs d draw dur s key t Hmd Ek El). cbv zeta.
  set (c1 := Base.entered cs key).
  set (line := Base.mkLine d key (Base.counters_get c1 key - 1) t).
  assert (Hc1 : forall k', Base.counters_get c1 k' =
                           Base.counters_get (default ∅ cs) k' +
                           if String.eqb key k' then 1 else 0).
  { intros k'. unfold c1, Base.entered. rewrite counters_get_insert.
    destruct (String.eqb_spec key k') as [->|]; lia. }
  assert (Hline : forall o,
             Output.grown d
               (match md with Some m => Some (Z.max d m) | None => None end)
               draw dur (default ∅ cs) s (Ok tt)
               (Base.mkWalk c1 (Base.stdout s ++ [line o])
                  (Base.outlined s ++ Output.outlines_of draw dur [line o]))).
  { intros o. exists [line o], (Output.outlines_of draw dur [line o]). cbn.
    split; [reflexivity|]. split; [reflexivity|].
    split; [constructor; [|constructor]; cbn; split;
            [lia|destruct md; [lia|exact I]]|].
    split.
    { intros [|x pre] l post; cbn.
      - intros [= <- <-]. cbn. rewrite Hc1, String.eqb_refl, count_key_nil.
        lia.
      - intros [= _ Hnil]. destruct pre; discriminate. }
    split; [|reflexivity].
    intros _ k'. rewrite Hc1, count_key_one. reflexivity. }
  destruct (Base.rect reads (Base.mkNode a k)) as [rc|e] eqn:Er.
  2:{ intros [= <- <-]. specialize (Hline None).
      replace (Output.outlines_of draw dur [line None]) with
        (@nil (Common.Rect * D)) in Hline by (destruct draw; reflexivity).
      rewrite app_nil_r in Hline. exact Hline. }
  unfold Base.tree_after, bind at 1.
  set (s1 := Base.mkWalk c1 (Base.stdout s ++ [line (Some rc)])
               (Base.outlined s)).
  assert (Hdraw :
            (if draw then Base.outline reads (Base.mkNode a k) dur
             else ret tt) s1
            = Some (Ok tt,
                    Base.mkWalk c1 (Base.stdout s ++ [line (Some rc)])
                      (Base.outlined s ++
                       Output.outlines_of draw dur [line (Some rc)]))).
  { unfold Output.outlines_of. destruct draw.
    - unfold Base.outline, bind, lift. rewrite Er. cbn.
      destruct (Common.has_area rc) eqn:Ea; cbn.
      + reflexivity.
      + rewrite app_nil_r. reflexivity.
    - rewrite app_nil_r. reflexivity. }
  rewrite Hdraw. specialize (Hline (Some rc)).
  destruct (match md with Some m => d <? m | None => true end) eqn:Ed.
  2:{ intros [= <- <-]. exact Hline. }
  destruct k as [kids|e].
  2:{ intros [= <- <-].
      destruct Hline as (ad & dr & H1 & H2 & H3 & H4 & H5 & H6).
      exists ad, dr. split; [exact H1|]. split; [exact H2|].
      split; [exact H3|]. split; [exact H4|].
      split; [discriminate|exact H6]. }
  intros Hkids.
  eapply grown_seq; [exact Hline|].
  eapply grown_weaken;
    [| |exact (children_grow kids md d draw dur (IH kids eq_refl) _ _ _ Hkids)].
  - lia.
  - destruct md as [m|]; [|exact I]. apply Z.ltb_lt in Ed. lia.
Qed.

Lemma tree_grown (element : Base.Node A) : Output.grows (D:=D) reads element.
Proof.
  induction element as [a e|a kids IH] using Base.Node_ind;
    apply node_grows.
  - discriminate.
  - intros kids' [= <-]. exact IH.
Qed.

End WalkInvariants.





(** X8: on a snapshot, [tree] draws exactly the rectangles it prints that
    have area, in the order of the lines, each with the duration it was
    given; a line without a rectangle and a rectangle without area get
    no outline, and with [draw_outline] off nothing is drawn. *)
Theorem tree_outlines_what_it_prints {A D} (reads : Base.Reads A)
    (element : Base.Node A) (max_depth : option Z)
    (counters : option (gmap string Z)) (depth : Z) (draw_outline : bool)
    (outline_duration : D) (s s' : Base.Walk D) (r : result unit) :
  Base.tree reads element max_depth counters depth draw_outline
    outline_duration s = Some (r, s') ->
  exists added drawn,
    Base.stdout s' = Base.stdout s ++ added /\
    Base.outlined s' = Base.outlined s ++ drawn /\
    drawn = Output.outlines_of draw_outline outline_duration added /\
    (draw_outline = false -> drawn = []) /\
    Forall (fun o => Common.has_area (fst o) = true /\
                     snd o = outline_duration) drawn.
Proof.
  intros E.
  destruct (tree_grown reads element _ _ _ _ _ _ _ _ E)
    as (added & drawn & Hs & Ho & _ & _ & _ & ->).
  exists added, (Output.outlines_of draw_outline outline_duration added).
  split; [exact Hs|]. split; [exact Ho|]. split; [reflexivity|].
  unfold Output.outlines_of. split; [intros ->; reflexivity|].
  destruct draw_outline; [|constructor].
  apply Forall_map. cbn.
  induction (omap Base.line_rect added) as [|x l IH]; cbn; [constructor|].
  destruct (Common.has_area x) eqn:Ex; [constructor; auto|exact IH].
Qed.

(** The child [flat] has a rectangle without width: it is printed and
    not outlined. *)
Lemma tree_outlines_what_it_prints_witness :
  exists s',
    Win32.tree Samples.root_with_flat None None 0 true 75 Sample.fresh_walk
    = Some (Ok tt, s') /\
    map Base.line_rect (Base.stdout s') =
    [ Some (Common.mkRect 0 0 10 10); Some (Common.mkRect 5 5 5 9);
      Some (Common.mkRect 0 0 10 10) ] /\
    Base.outlined s' =
    [ (Common.mkRect 0 0 10 10, 75); (Common.mkRect 0 0 10 10, 75) ] /\
    Forall (fun o => Common.has_area (fst o) = true /\ snd o = 75)
      (Base.outlined s').
Proof.
  destruct (Win32.tree Samples.root_with_flat None None 0 true 75
              Sample.fresh_walk) as [[r s']|] eqn:E;
    [|vm_compute in E; discriminate].
  destruct (tree_outlines_what_it_prints _ _ _ _ _ _ _ _ _ _ E)
    as (added & drawn & _ & Ho & _ & _ & Hd).
  vm_compute in E. injection E as <- <-.
  eexists. split; [reflexivity|]. split; [reflexivity|].
  split; [reflexivity|].
  cbn in Ho. subst drawn. exact Hd.
Defined.

(** ** Live elements *)

Section Children.
Context {L : Type}.

Lemma enumerate_appends (handles : list Z) : forall w (l : list Win32Window.Window),
  User32.enumerate
    (User32._callback
       (fun hwnd =>
          children <- get_local ;;
          set_local (children ++ [Win32Window.Element_init hwnd]) ;;
          ret true)) handles (w, l)
  = Some (Ok 1, (w, l ++ map Win32Window.Element_init handles)).
Proof.
  induction handles as [|h rest IH]; intros w l; cbn [User32.enumerate map].
  - rewrite app_nil_r. reflexivity.
  - unfold bind at 1. rewrite callback_equation. cbn.
    rewrite IH, <- app_assoc. reflexivity.
Qed.

(** X9: [Element.children] makes two native calls, the enumeration of
    the child windows and the read of the last-error value, and returns
    one element for every handle the platform enumerated, in the
    platform's order.  It raises only when the enumeration reports [0]
    and the last-error value is not [0], and then [WinError] with that
    value. *)
Theorem children_are_the_enumerated_handles (self : Win32Window.Window) :
  Trace.run (L:=L) (Win32Live.children self)
    (fun r evs =>
       exists reply err,
         evs = [(Os.EnumChildWindows (Win32Window.hwnd self), reply);
                (Os.get_last_error, err)] /\
         r = if Os.ret reply =? 0
             then if Os.ret err =? 0 then Ok []
                  else Raise (WinError (Os.ret err))
             else Ok (map Win32Window.Element_init (Os.out reply))).
Proof.
  intros [w l] r s'.
  unfold Win32Live.children, with_local, User32.EnumChildWindows,
    User32.native_EnumChildWindows, User32.get_last_error.
  unfold bind at 1 2 3. unfold os_call at 1. cbn [fst snd].
  set (reply := Os.oracle w (Os.events w) _).
  destruct (Os.ret reply =? 0) eqn:E0.
  - unfold ret at 1. unfold bind, os_call, ret, raise. cbn.
    set (err := Os.oracle w _ _).
    destruct (Os.ret err =? 0) eqn:E1; cbn; intros [= <- <-]; cbn;
      exists [(Os.EnumChildWindows (Win32Window.hwnd self), reply);
              (Os.get_last_error, err)];
      (split; [rewrite <- app_assoc; reflexivity|]);
      exists reply, err; rewrite E0, E1; auto.
  - rewrite enumerate_appends. unfold bind, os_call, ret. cbn.
    set (err := Os.oracle w _ _).
    intros [= <- <-]. cbn.
    exists [(Os.EnumChildWindows (Win32Window.hwnd self), reply);
            (Os.get_last_error, err)].
    split; [rewrite <- app_assoc; reflexivity|].
    exists reply, err. rewrite E0. auto.
Qed.

End Children.

Lemma children_are_the_enumerated_handles_witness :
  exists s',
    Win32Live.children Sample.window_100 Samples.calm
    = Some (Ok (map Win32Window.Element_init [11; 12; 13]), s') /\
    Sample.calls s' = [Os.EnumChildWindows 100; Os.get_last_error].
Proof.
  destruct (Win32Live.children Sample.window_100 Samples.calm)
    as [[r s']|] eqn:E; [|vm_compute in E; discriminate].
  destruct (children_are_the_enumerated_handles Sample.window_100 _ _ _ E)
    as (evs & Hev & reply & err & -> & Hr).
  vm_compute in E. injection E as <- <-.
  eexists. split; reflexivity.
Defined.

(** ** Runs on a static platform *)

Section Static.
Context {L : Type} (f : Os.Call -> Os.Reply).

Lemma answers_ret {A} (a : A) (l : L) :
  Platform.answers f (ret a) l (Ok a) l.
Proof. intros w Hw. exists w. split; [exact Hw|reflexivity]. Qed.

Lemma answers_raise {A} (e : Exn) (l : L) :
  Platform.answers (A:=A) f (raise e) l (Raise e) l.
Proof. intros w Hw. exists w. split; [exact Hw|reflexivity]. Qed.

Lemma answers_get_local (l : L) :
  Platform.answers f get_local l (Ok l) l.
Proof. intros w Hw. exists w. split; [exact Hw|reflexivity]. Qed.

Lemma answers_set_local (l l' : L) :
  Platform.answers f (set_local l') l (Ok tt) l'.
Proof. intros w Hw. exists w. split; [exact Hw|reflexivity]. Qed.

Lemma answers_call (c : Os.Call) (l : L) :
  Platform.answers f (os_call c) l (Ok (f c)) l.
Proof.
  intros w Hw. unfold os_call. cbn. rewrite Hw.
  eexists. split; [|reflexivity]. intros log c'. apply Hw.
Qed.

Lemma answers_bind {A B} (m : OS L A) (k : A -> OS L B) (l l1 l2 : L)
    (a : A) (r : result B) :
  Platform.answers f m l (Ok a) l1 ->
  Platform.answers f (k a) l1 r l2 ->
  Platform.answers f (bind m k) l r l2.
Proof.
  intros Hm Hk w Hw. destruct (Hm w Hw) as (w1 & Hw1 & E1).
  destruct (Hk w1 Hw1) as (w2 & Hw2 & E2).
  exists w2. split; [exact Hw2|]. unfold bind. rewrite E1. exact E2.
Qed.

Lemma answers_bind_raise {A B} (m : OS L A) (k : A -> OS L B) (l l1 : L)
    (e : Exn) :
  Platform.answers f m l (Raise e) l1 ->
  Platform.answers f (bind m k) l (Raise e) l1.
Proof.
  intros Hm w Hw. destruct (Hm w Hw) as (w1 & Hw1 & E1).
  exists w1. split; [exact Hw1|]. unfold bind. rewrite E1. reflexivity.
Qed.

Lemma answers_try_ok {A} (body : OS L A) (handler : Exn -> OS L A)
    (l l1 : L) (a : A) :
  Platform.answers f body l (Ok a) l1 ->
  Platform.answers f (try_except body handler) l (Ok a) l1.
Proof.
  intros Hm w Hw. destruct (Hm w Hw) as (w1 & Hw1 & E1).
  exists w1. split; [exact Hw1|]. unfold try_except. rewrite E1. reflexivity.
Qed.

Lemma answers_try_raise {A} (body : OS L A) (handler : Exn -> OS L A)
    (l l1 l2 : L) (e : Exn) (r : result A) :
  Platform.answers f body l (Raise e) l1 ->
  Platform.answers f (handler e) l1 r l2 ->
  Platform.answers f (try_except body handler) l r l2.
Proof.
  intros Hm Hk w Hw. destruct (Hm w Hw) as (w1 & Hw1 & E1).
  destruct (Hk w1 Hw1) as (w2 & Hw2 & E2).
  exists w2. split; [exact Hw2|]. unfold try_except. rewrite E1. exact E2.
Qed.

End Static.

Lemma answers_with_local {L L' A} (f : Os.Call -> Os.Reply) (init l' : L')
    (m : OS L' A) (l : L) (a : A) :
  Platform.answers f m init (Ok a) l' ->
  Platform.answers f (with_local init m) l (Ok (a, l')) l.
Proof.
  intros Hm w Hw. destruct (Hm w Hw) as (w1 & Hw1 & E1).
  exists w1. split; [exact Hw1|]. unfold with_local. cbn. rewrite E1.
  reflexivity.
Qed.

Lemma answers_with_local_raise {L L' A} (f : Os.Call -> Os.Reply)
    (init l' : L') (m : OS L' A) (l : L) (e : Exn) :
  Platform.answers f m init (Raise e) l' ->
  Platform.answers f (with_local init m) l (Raise e) l.
Proof.
  intros Hm w Hw. destruct (Hm w Hw) as (w1 & Hw1 & E1).
  exists w1. split; [exact Hw1|]. unfold with_local. cbn. rewrite E1.
  reflexivity.
Qed.

Section TopWindow.
Context {L : Type} (f : Os.Call -> Os.Reply).

Lemma answers_snd {A B} (m : OS L (A * B)) (l : L) (a : A) (b : B) :
  Platform.answers f m l (Ok (a, b)) l ->
  Platform.answers f (r <- m ;; ret (snd r)) l (Ok b) l.
Proof.
  intros Hm. eapply answers_bind; [exact Hm|]. apply (answers_ret f b).
Qed.

(** The callback of [Window.top_window], as [_callback] hands it to the
    platform, on a handle met while [window] is still [None]: [0] and the
    window stored for a titled window, [1] otherwise. *)
Lemma top_window_callback (h : Z) :
  Platform.answers f
    (User32._callback
       (fun hwnd =>
          window <- get_local ;;
          match window with
          | Some _ => ret false
          | None =>
              win <- Win32Window.Window_init hwnd ;;
              visible <- Win32Window.is_visible win ;;
              t <- (if (visible : bool) then Win32Window.title win
                    else ret "") ;;
              if visible && negb (String.eqb t "")
              then set_local (Some win) ;; ret false
              else ret true
          end) h 0)
    None
    (Ok (if Platform.titled_window f h then 0 else 1))
    (if Platform.titled_window f h
     then Some (Win32Window.Element_init h) else None).
Proof.
  intros [o evs] Hw. unfold Platform.static in Hw. cbn in Hw.
  unfold Platform.titled_window, User32._callback, try_except,
    Win32Window.Window_init, Win32Window.is_window, User32.IsWindow,
    Win32Window.is_visible, User32.IsWindowVisible, Win32Window.title,
    User32.GetWindowTextW, bind, get_local, set_local, os_call, ret, raise.
  cbn. rewrite !Hw.
  destruct (Os.ret (f (Os.IsWindow h)) =? 0); cbn.
  { eexists. split; [|reflexivity]. intros log c. apply Hw. }
  rewrite !Hw.
  destruct (Os.ret (f (Os.IsWindowVisible h)) =? 0); cbn.
  { eexists. split; [|reflexivity]. intros log c. apply Hw. }
  rewrite !Hw.
  destruct (Os.ret (f (Os.GetWindowTextW h)) <=? 0); cbn.
  { eexists. split; [|reflexivity]. intros log c. apply Hw. }
  destruct (String.eqb (Os.text (f (Os.GetWindowTextW h))) ""); cbn;
    (eexists; split; [|reflexivity]; intros log c; apply Hw).
Qed.

(** The enumeration with that callback stops at the first titled window. *)
Lemma top_window_enumerate (handles : list Z) :
  Platform.answers f
    (User32.enumerate
       (User32._callback
          (fun hwnd =>
             window <- get_local ;;
             match window with
             | Some _ => ret false
             | None =>
                 win <- Win32Window.Window_init hwnd ;;
                 visible <- Win32Window.is_visible win ;;
                 t <- (if (visible : bool) then Win32Window.title win
                       else ret "") ;;
                 if visible && negb (String.eqb t "")
                 then set_local (Some win) ;; ret false
                 else ret true
             end)) handles)
    None
    (Ok (match List.find (Platform.titled_window f) handles with
         | Some _ => 0
         | None => 1
         end))
    (option_map Win32Window.Element_init
       (List.find (Platform.titled_window f) handles)).
Proof.
  induction handles as [|h rest IH]; cbn [User32.enumerate List.find].
  - apply answers_ret.
  - pose proof (top_window_callback h) as Hcb.
    destruct (Platform.titled_window f h).
    + eapply answers_bind; [exact Hcb|]. cbn. apply answers_ret.
    + eapply answers_bind; [exact Hcb|]. cbn. exact IH.
Qed.

(** What [Window.top_window] answers on a static platform. *)
Lemma top_window_answers (self : Win32Window.Window) (l : L) :
  let e := f Os.EnumWindows in
  let err := Os.ret (f Os.get_last_error) in
  let found :=
    if Os.ret e =? 0 then None
    else List.find (Platform.titled_window f) (Os.out e) in
  Platform.answers f (Win32Window.Window_top_window self) l
    (match found with
     | Some h =>
         if err =? 0 then Ok (Some (Win32Window.Element_init h))
         else Raise (WinError err)
     | None =>
         if (Os.ret e =? 0) && negb (err =? 0) then Raise (WinError err)
         else Ok None
     end) l.
Proof.
  cbv zeta. unfold Win32Window.Window_top_window, User32.EnumWindows,
    User32.native_EnumWindows, User32.get_last_error.
  pose proof (top_window_enumerate (Os.out (f Os.EnumWindows))) as Hen.
  assert (Hnative :
    Platform.answers f
      (r <- os_call Os.EnumWindows ;;
       if Os.ret r =? 0 then ret 0
       else User32.enumerate
              (User32._callback
                 (fun hwnd =>
                    window <- get_local ;;
                    match window with
                    | Some _ => ret false
                    | None =>
                        win <- Win32Window.Window_init hwnd ;;
                        visible <- Win32Window.is_visible win ;;
                        t <- (if (visible : bool) then Win32Window.title win
                              else ret "") ;;
                        if visible && negb (String.eqb t "")
                        then set_local (Some win) ;; ret false
                        else ret true
                    end)) (Os.out r))
      None
      (Ok (if Os.ret (f Os.EnumWindows) =? 0 then 0
           else match List.find (Platform.titled_window f)
                        (Os.out (f Os.EnumWindows)) with
                | Some _ => 0
                | None => 1
                end))
      (if Os.ret (f Os.EnumWindows) =? 0 then None
       else option_map Win32Window.Element_init
              (List.find (Platform.titled_window f)
                 (Os.out (f Os.EnumWindows))))).
  { eapply answers_bind; [apply answers_call|].
    destruct (Os.ret (f Os.EnumWindows) =? 0); [apply answers_ret|exact Hen]. }
  assert (Herr : forall l0 : option Win32Window.Window,
    Platform.answers f (r <- os_call Os.get_last_error ;; ret (Os.ret r)) l0
      (Ok (Os.ret (f Os.get_last_error))) l0).
  { intros l0. eapply answers_bind; [apply answers_call|apply answers_ret]. }
  destruct (Os.ret (f Os.EnumWindows) =? 0) eqn:E0; cbn [andb].
  - destruct (Os.ret (f Os.get_last_error) =? 0) eqn:E1; cbn [negb].
    + apply answers_snd with (a := tt).
      eapply (answers_with_local f None None).
      eapply answers_bind; [exact Hnative|].
      eapply answers_bind; [apply Herr|].
      rewrite E1. cbn. apply answers_ret.
    + apply answers_bind_raise.
      eapply (answers_with_local_raise f None None).
      eapply answers_bind; [exact Hnative|].
      eapply answers_bind; [apply Herr|].
      rewrite E1. cbn. apply answers_raise.
  - destruct (List.find (Platform.titled_window f) (Os.out (f Os.EnumWindows)))
      as [h|]; cbn [option_map] in Hnative.
    + destruct (Os.ret (f Os.get_last_error) =? 0) eqn:E1.
      * apply answers_snd with (a := tt).
        eapply (answers_with_local f None
                  (Some (Win32Window.Element_init h))).
        eapply answers_bind; [exact Hnative|].
        eapply answers_bind; [apply Herr|].
        rewrite E1. cbn. apply answers_ret.
      * apply answers_bind_raise.
        eapply (answers_with_local_raise f None
                  (Some (Win32Window.Element_init h))).
        eapply answers_bind; [exact Hnative|].
        eapply answers_bind; [apply Herr|].
        rewrite E1. cbn. apply answers_raise.
    + apply answers_snd with (a := tt).
      eapply (answers_with_local f None None).
      eapply answers_bind; [exact Hnative|].
      eapply answers_bind; [apply Herr|].
      cbn. apply answers_ret.
Qed.

End TopWindow.

(** X10: on a platform that answers the same whatever has happened,
    [Window.top_window] finds the first top-level handle, in enumeration
    order, that is a window, visible and titled.  Finding it stops the
    enumeration, so the native call reports [0]; the window is returned
    only if the last-error value is [0] then, otherwise [WinError] is
    raised in its place. *)
Theorem top_window_is_first_titled_window {L} (f : Os.Call -> Os.Reply)
    (w : Os.World) (l : L) (self : Win32Window.Window) :
  Platform.static f w ->
  let e := f Os.EnumWindows in
  let err := Os.ret (f Os.get_last_error) in
  let found :=
    if Os.ret e =? 0 then None
    else List.find (Platform.titled_window f) (Os.out e) in
  exists w',
    Win32Window.Window_top_window self (w, l) =
    Some (match found with
          | Some h =>
              if err =? 0 then Ok (Some (Win32Window.Element_init h))
              else Raise (WinError err)
          | None =>
              if (Os.ret e =? 0) && negb (err =? 0)
              then Raise (WinError err)
              else Ok None
          end, (w', l)).
Proof.
  intros Hw. cbv zeta.
  destruct (top_window_answers f self l w Hw) as (w' & _ & E).
  exists w'. exact E.
Qed.

Lemma top_window_is_first_titled_window_witness :
  Platform.static Samples.calm_answers (fst Samples.calm) /\
  (exists s',
      Win32Window.Window_top_window Sample.window_100 Samples.calm
      = Some (Ok (Some (Win32Window.Element_init 100)), s')) /\
  Platform.static (Sample.desktop_oracle 100 []) (fst (Sample.desktop 100)) /\
  exists s',
    Win32Window.Window_top_window Sample.window_100 (Sample.desktop 100)
    = Some (Raise (WinError 5), s').
Proof.
  assert (H1 : Platform.static Samples.calm_answers (fst Samples.calm))
    by (intros log c; reflexivity).
  assert (H2 : Platform.static (Sample.desktop_oracle 100 [])
                 (fst (Sample.desktop 100)))
    by (intros log c; destruct c; reflexivity).
  split; [exact H1|]. split; [|split; [exact H2|]].
  - destruct (top_window_is_first_titled_window Samples.calm_answers
                (fst Samples.calm) tt Sample.window_100 H1) as [w' E].
    exists (w', tt). exact E.
  - destruct (top_window_is_first_titled_window (Sample.desktop_oracle 100 [])
                (fst (Sample.desktop 100)) tt Sample.window_100 H2)
      as [w' E].
    exists (w', tt). exact E.
Defined.


(** ** Window discovery in the current revision *)






(** ** The foreground is asked for only while attached *)

Lemma quiet_plain (c : Os.Call) :
  Trace.quiet c = true -> Protocol.plain c = true.
Proof. destruct c; cbn; auto. Qed.

Lemma plain_inside (h : Z) (c : Os.Call) :
  Protocol.plain c = true -> Protocol.inside h c = true.
Proof. destruct c; cbn; try discriminate; auto. Qed.

Lemma bracketed_prepend (h : Z) (e1 e2 : list Os.Event) :
  Trace.all_calls Protocol.plain e1 ->
  Protocol.bracketed h e2 -> Protocol.bracketed h (e1 ++ e2).
Proof.
  intros H1 [H2|[(e0 & t & fg & reply & rest & -> & H0 & He0 & Hr)|
                 (e0 & t & fg & reply & body & reply' & rest & -> & H0 & He0
                  & Hb & Hr)]].
  - left. apply all_calls_app; assumption.
  - right. left. exists (e1 ++ e0), t, fg, reply, rest.
    split; [rewrite <- app_assoc; reflexivity|].
    split; [exact H0|]. split; [apply all_calls_app; assumption|exact Hr].
  - right. right. exists (e1 ++ e0), t, fg, reply, body, reply', rest.
    split; [rewrite <- app_assoc; reflexivity|].
    split; [exact H0|]. split; [apply all_calls_app; assumption|auto].
Qed.

Section Bracket.
Context {L : Type}.

Lemma run_plain_prefix {A B} (h : Z) (m : OS L A) (k : A -> OS L B) :
  Trace.only Protocol.plain m ->
  (forall a, Trace.run (k a) (fun _ evs => Protocol.bracketed h evs)) ->
  Trace.run (bind m k) (fun _ evs => Protocol.bracketed h evs).
Proof.
  intros Hm Hk. eapply run_bind; [exact Hm| |].
  - intros a e1 H1. eapply run_conseq; [apply Hk|].
    cbn beta. intros r evs H2. apply bracketed_prepend; assumption.
  - intros e e1 H1. left. exact H1.
Qed.

Lemma only_bracketed {A} (h : Z) (m : OS L A) :
  Trace.only Protocol.plain m ->
  Trace.run m (fun _ evs => Protocol.bracketed h evs).
Proof.
  intros Hm. eapply run_conseq; [exact Hm|]. intros r evs H. left. exact H.
Qed.

(** What the wrapper [AttachThreadInput] adds to the log. *)
Lemma run_AttachThreadInput_exact (a b : Z) (f : bool) :
  Trace.run (L:=L) (User32.AttachThreadInput a b f)
    (fun r evs =>
       exists reply,
         (r = Ok tt /\ evs = [(Os.AttachThreadInput a b f, reply)] /\
          Os.ret reply <> 0) \/
         (exists err,
             r = Raise (WinError (Os.ret err)) /\
             evs = [(Os.AttachThreadInput a b f, reply);
                    (Os.get_last_error, err)] /\
             Os.ret reply = 0)).
Proof.
  intros [w l] r s'.
  unfold User32.AttachThreadInput, User32.raise_WinError,
    User32.get_last_error, bind, os_call, ret, raise. cbn.
  set (reply := Os.oracle w (Os.events w) _).
  destruct (Os.ret reply =? 0) eqn:E0; cbn [fst snd Os.oracle Os.events].
  - set (err := Os.oracle w _ Os.get_last_error). intros [= <- <-]. cbn.
    eexists. split; [rewrite <- app_assoc; reflexivity|].
    exists reply. right. exists err. split; [reflexivity|].
    split; [reflexivity|]. apply Z.eqb_eq, E0.
  - intros [= <- <-]. cbn.
    eexists. split; [reflexivity|]. exists reply. left.
    split; [reflexivity|]. split; [reflexivity|]. apply Z.eqb_neq, E0.
Qed.

(** [tid] and [pid] leave the handle as it is. *)
Lemma tid_keeps_hwnd (self : Win32Window.Window) :
  Trace.outcome (L:=L) (Win32Window.tid self)
    (fun r => match r with
              | Ok tw => Win32Window.hwnd (snd tw) = Win32Window.hwnd self /\
                         Win32Window.tid_cache (snd tw) = Some (fst tw)
              | Raise _ => True
              end).
Proof.
  intros s r s'. unfold Win32Window.tid.
  destruct (Win32Window.tid_cache self) as [t0|] eqn:Ec.
  - intros [= <- <-]. cbn. auto.
  - destruct (Win32Window.truthy (Win32Window._tid self)) as [t0|].
    + intros [= <- <-]. cbn. auto.
    + unfold bind.
      destruct (User32.GetWindowThreadProcessId _ s) as [[[tp|e] s1]|];
        [| |discriminate]; intros [= <- <-]; cbn; auto.
Qed.

Lemma pid_keeps_hwnd (self : Win32Window.Window) :
  Trace.outcome (L:=L) (Win32Window.pid self)
    (fun r => match r with
              | Ok pw => Win32Window.hwnd (snd pw) = Win32Window.hwnd self
              | Raise _ => True
              end).
Proof.
  intros s r s'. unfold Win32Window.pid.
  destruct (Win32Window.pid_cache self) as [p0|] eqn:Ec.
  - intros [= <- <-]. reflexivity.
  - destruct (Win32Window.truthy (Win32Window._pid self)) as [p0|].
    + intros [= <- <-]. reflexivity.
    + unfold bind.
      destruct (User32.GetWindowThreadProcessId _ s) as [[[tp|e] s1]|];
        [| |discriminate]; intros [= <- <-]; cbn; auto.
Qed.

Lemma session_keeps_hwnd (self : Win32Window.Window) :
  Trace.outcome (L:=L) (Win32Window.is_in_current_session self)
    (fun r => match r with
              | Ok bw => Win32Window.hwnd (snd bw) = Win32Window.hwnd self
              | Raise _ => True
              end).
Proof.
  unfold Win32Window.is_in_current_session.
  apply outcome_bind; [intros current|intros; exact I].
  apply outcome_bind; [intros sid|intros; exact I].
  intros s r s'. unfold bind at 1.
  destruct (Win32Window.pid self s) as [[[pw|e] s1]|] eqn:E;
    [| |discriminate].
  - pose proof (pid_keeps_hwnd self s _ _ E) as Hh. cbn in Hh.
    unfold bind.
    destruct (User32.ProcessIdToSessionId (fst pw) s1) as [[[sid'|e] s2]|];
      [| |discriminate]; intros [= <- <-]; cbn; auto.
  - intros [= <- <-]. exact I.
Qed.

(** A postcondition on the outcome and one on the log hold together. *)
Lemma run_and_outcome {A} (m : OS L A) (Q : result A -> list Os.Event -> Prop)
    (R : result A -> Prop) :
  Trace.run m Q -> Trace.outcome m R ->
  Trace.run m (fun r evs => Q r evs /\ R r).
Proof.
  intros Hq Hr s r s' E. destruct (Hq _ _ _ E) as (evs & Hev & HQ).
  exists evs. split; [exact Hev|]. split; [exact HQ|]. exact (Hr _ _ _ E).
Qed.

Variable check : Win32Window.Window -> OS L bool.
Variable gentle : Win32Window.Window -> OS L unit.
Variable foreground : OS L (option Z).
Hypothesis check_plain : forall w, Trace.only Protocol.plain (check w).
Hypothesis gentle_plain : forall w, Trace.only Protocol.plain (gentle w).
Hypothesis foreground_plain : Trace.only Protocol.plain foreground.

Lemma plain_title (w : Win32Window.Window) :
  Trace.only (L:=L) Protocol.plain (Win32Window.title w).
Proof. apply (only_mono _ _ _ quiet_plain), quiet_title. Qed.

Lemma plain_tid (w : Win32Window.Window) :
  Trace.only (L:=L) Protocol.plain (Win32Window.tid w).
Proof. apply (only_mono _ _ _ quiet_plain), quiet_tid. Qed.

(** The body of the second [try]: it asks for the foreground for its own
    window only. *)
Lemma inside_normalize (w : Win32Window.Window) :
  Trace.only (L:=L) (Protocol.inside (Win32Window.hwnd w))
    (minimized <- Win32Window.is_minimized w ;;
     (if (minimized : bool) then Win32Window.restore w
      else maximized <- Win32Window.is_maximized w ;;
           if (maximized : bool) then Win32Window.maximize w
           else Win32Window.show w) ;;
     User32.SetForegroundWindow (Win32Window.hwnd w)).
Proof.
  assert (Hs : Trace.only (L:=L) (Protocol.inside (Win32Window.hwnd w))
                 (User32.SetForegroundWindow (Win32Window.hwnd w))).
  { unfold User32.SetForegroundWindow.
    apply only_bind.
    - apply only_call. cbn. apply Z.eqb_refl.
    - intros r. only_tac. }
  only_tac.
Qed.

Lemma run_detach_plain (w : Win32Window.Window) (t fg_tid : Z) :
  Win32Window.tid_cache w = Some t ->
  Trace.run (L:=L)
    (tw <- Win32Window.tid w ;;
     User32.AttachThreadInput (fst tw) fg_tid false)
    (fun _ evs =>
       exists reply rest,
         evs = (Os.AttachThreadInput t fg_tid false, reply) :: rest /\
         Trace.all_calls Protocol.plain rest).
Proof.
  intros Hc. rewrite (tid_cached w t Hc).
  intros s r s' E.
  change (User32.AttachThreadInput t fg_tid false s = Some (r, s')) in E.
  destruct (run_AttachThreadInput_exact t fg_tid false s r s' E)
    as (evs & Hev & reply & [(_ & -> & _)|(err & _ & -> & _)]).
  - exists [(Os.AttachThreadInput t fg_tid false, reply)].
    split; [exact Hev|]. exists reply, []. split; [reflexivity|constructor].
  - eexists. split; [exact Hev|]. exists reply, [(Os.get_last_error, err)].
    split; [reflexivity|]. constructor; [reflexivity|constructor].
Qed.

(** The first [try] with its handler. *)
Lemma run_attach_plain (self : Win32Window.Window) (fg_tid : Z) :
  Trace.run (L:=L)
    (try_except
       (t <- Win32Window.tid self ;;
        User32.AttachThreadInput (fst t) fg_tid true ;;
        ret (Some (snd t)))
       (fun err => gentle self ;; ret None))
    (fun r evs =>
       match r with
       | Ok (Some w) =>
           exists e0 t reply,
             evs = e0 ++ [(Os.AttachThreadInput t fg_tid true, reply)] /\
             Os.ret reply <> 0 /\
             Trace.all_calls Protocol.plain e0 /\
             Win32Window.tid_cache w = Some t /\
             Win32Window.hwnd w = Win32Window.hwnd self
       | _ => Protocol.bracketed (Win32Window.hwnd self) evs
       end).
Proof.
  eapply run_try_except with
    (Q1 := fun r evs =>
             match r with
             | Ok (Some w) =>
                 exists e0 t reply,
                   evs = e0 ++ [(Os.AttachThreadInput t fg_tid true, reply)] /\
                   Os.ret reply <> 0 /\
                   Trace.all_calls Protocol.plain e0 /\
                   Win32Window.tid_cache w = Some t /\
                   Win32Window.hwnd w = Win32Window.hwnd self
             | Ok None => False
             | Raise _ =>
                 forall e2, Trace.all_calls Protocol.plain e2 ->
                            Protocol.bracketed (Win32Window.hwnd self)
                              (evs ++ e2)
             end).
  - eapply run_bind;
      [apply (run_and_outcome _ _ _ (plain_tid self) (tid_keeps_hwnd self))| |].
    + intros [t w] e1 [Hd [Hh Hc]]. cbn [fst snd] in *.
      eapply run_bind; [apply run_AttachThreadInput_exact| |].
      * intros [] e2 (reply & [(_ & -> & Hg)|(err & [=] & _)]).
        apply run_ret. rewrite app_nil_r.
        exists e1, t, reply. auto.
      * intros e e2 (reply & [([=] & _)|(err & _ & -> & H0)]) e3 H3.
        right. left. exists e1, t, fg_tid, reply, ((Os.get_last_error, err) :: e3).
        split; [rewrite <- app_assoc; reflexivity|].
        split; [exact H0|]. split; [exact Hd|].
        constructor; [reflexivity|exact H3].
    + intros e e1 [Hd _] e2 H2. left. apply all_calls_app; assumption.
  - intros [w|] e1 H1; [exact H1|contradiction].
  - intros e e1 H1.
    eapply run_bind; [apply gentle_plain| |].
    + intros [] e2 H2. apply run_ret. rewrite app_nil_r. apply H1, H2.
    + intros e' e2 H2. apply H1, H2.
Qed.

Lemma attach_focus_bracketed (self : Win32Window.Window) :
  Trace.run (Win32Window.attach_focus check gentle foreground self)
    (fun _ evs => Protocol.bracketed (Win32Window.hwnd self) evs).
Proof.
  unfold Win32Window.attach_focus.
  apply run_plain_prefix; [apply check_plain|]. intros focused.
  destruct focused.
  { apply only_bracketed. pose proof plain_title. only_tac. }
  apply run_plain_prefix; [apply foreground_plain|]. intros fg_hwnd.
  apply run_plain_prefix;
    [apply (only_mono _ _ _ quiet_plain), quiet_GetWindowThreadProcessId|].
  intros tp.
  eapply run_bind;
    [apply (run_and_outcome _ _ _
              (only_mono _ _ _ quiet_plain (quiet_is_in_current_session self))
              (session_keeps_hwnd self))| |].
  2:{ intros e e1 [H1 _]. left. exact H1. }
  intros session e1 [H1 Hh1]. cbv zeta.
  eapply run_conseq with
    (Q := fun _ evs => Protocol.bracketed (Win32Window.hwnd self) evs);
    [|intros r evs H; apply bracketed_prepend; assumption].
  destruct (negb (fst session)).
  { apply only_bracketed. pose proof plain_title. only_tac. }
  eapply run_bind; [apply run_attach_plain| |].
  - intros [w|] e2 H2.
    + destruct H2 as (e0 & t & reply & -> & Hg & Hd & Hc & Hh).
      eapply run_conseq.
      * eapply run_bind with
          (Q := fun _ evs =>
                  exists body reply' rest,
                    evs = body ++
                          (Os.AttachThreadInput t (fst tp) false, reply')
                          :: rest /\
                    Trace.all_calls (Protocol.inside (Win32Window.hwnd w))
                      body /\
                    Trace.all_calls Protocol.plain rest).
        -- eapply run_try_finally with
             (Q1 := fun _ evs =>
                      Trace.all_calls (Protocol.inside (Win32Window.hwnd w))
                        evs)
             (Q := fun _ evs =>
                     exists body reply' rest,
                       evs = body ++
                             (Os.AttachThreadInput t (fst tp) false, reply')
                             :: rest /\
                       Trace.all_calls (Protocol.inside (Win32Window.hwnd w))
                         body /\
                       Trace.all_calls Protocol.plain rest).
           ++ apply inside_normalize.
           ++ apply (run_detach_plain w t (fst tp) Hc).
           ++ intros r b e3 Hb (reply' & rest & -> & Hr). eauto 8.
           ++ intros r e b e3 Hb (reply' & rest & -> & Hr). eauto 8.
        -- intros [] b (body & reply' & rest & -> & Hb & Hr).
           eapply run_conseq.
           ++ assert (Ht : Trace.only (L:=L) Protocol.plain
                             (Win32Window.title w ;; ret tt)).
              { pose proof plain_title. only_tac. }
              exact Ht.
           ++ cbn beta. intros r evs Hevs.
              exists body, reply', (rest ++ evs).
              split; [rewrite <- app_assoc; reflexivity|].
              split; [exact Hb|]. apply all_calls_app; assumption.
        -- intros e b Hb. exact Hb.
      * cbn beta. intros r evs (body & reply' & rest & -> & Hb & Hr).
        right. right.
        exists e0, t, (fst tp), reply, body, reply', rest.
        split; [rewrite <- app_assoc; reflexivity|].
        split; [exact Hg|]. split; [exact Hd|].
        split; [|exact Hr]. rewrite <- Hh1, <- Hh. exact Hb.
    + apply run_ret. rewrite app_nil_r, <- Hh1. exact H2.
  - intros e e2 H2. rewrite <- Hh1. exact H2.
Qed.

End Bracket.

Lemma plain_focus {L} (self : Win32Window.Window) :
  Trace.only (L:=L) Protocol.plain (Win32Window.focus self).
Proof. unfold Win32Window.focus. only_tac. Qed.

Lemma plain_set_focus {L} (self : Win32Window.Window) :
  Trace.only (L:=L) Protocol.plain (Win32Window.Legacy.set_focus self).
Proof.
  unfold Win32Window.Legacy.set_focus.
  pose proof (fun w => only_mono _ _ _ quiet_plain
                         (quiet_Legacy_is_focused (L:=L) w)).
  only_tac.
Qed.

(** X13: in every run of the attach-based method ([_focus], and
    [set_focus2] of the older revision) the log has one of three shapes:
    no attach request and no request for the foreground; one attach
    request, refused, and no request for the foreground; or one attach
    request, granted, followed by the request to detach the same threads,
    with every [SetForegroundWindow] between the two and for the method's
    own window.  The foreground is never asked for outside a granted
    attachment. *)
Theorem foreground_requested_only_while_attached {L}
    (self : Win32Window.Window) :
  (forall fuel,
      Trace.run (L:=L) (Win32Window._focus fuel self)
        (fun _ evs => Protocol.bracketed (Win32Window.hwnd self) evs)) /\
  Trace.run (L:=L) (Win32Window.Legacy.set_focus2 self)
    (fun _ evs => Protocol.bracketed (Win32Window.hwnd self) evs).
Proof.
  split; [intros fuel|].
  - apply attach_focus_bracketed.
    + intros w. apply (only_mono _ _ _ quiet_plain), quiet_is_focused.
    + apply plain_focus.
    + apply (only_mono _ _ _ quiet_plain), quiet_GetForegroundWindow.
  - apply attach_focus_bracketed.
    + intros w. apply (only_mono _ _ _ quiet_plain), quiet_Legacy_is_focused.
    + apply plain_set_focus.
    + apply (only_mono _ _ _ quiet_plain), quiet_Legacy_GetForegroundWindow.
Qed.

(** The run of [set_focus2] on the sample desktop, in which the foreground
    is refused: its log has the third shape. *)
Lemma foreground_requested_only_while_attached_witness :
  exists s',
    Win32Window.Legacy.set_focus2 Sample.window_100 (Sample.desktop 200)
    = Some (Raise (WinError 5), s') /\
    Protocol.bracketed 100 (Os.events (fst s')) /\
    List.filter (fun c => negb (Protocol.plain c)) (Sample.calls s') =
    [ Os.AttachThreadInput 101 201 true; Os.SetForegroundWindow 100;
      Os.AttachThreadInput 101 201 false ].
Proof.
  destruct (Win32Window.Legacy.set_focus2 Sample.window_100
              (Sample.desktop 200)) as [[r s']|] eqn:E;
    [|lazy in E; discriminate].
  destruct (proj2 (foreground_requested_only_while_attached Sample.window_100)
              _ _ _ E) as (evs & Hev & Hb).
  lazy in E. injection E as <- <-.
  eexists. split; [reflexivity|]. split; [|reflexivity].
  cbn in Hev. subst evs. exact Hb.
Defined.

(** ** What the condition builder asks of the engine *)

Section BuilderFacts.
Variable uia : Uia.IUIAutomation.

Lemma refine_appends (c c' : Uia.Condition) (r : Uia.Refinement) :
  Uia.refine uia c r = Ok c' ->
  exists n,
    Builder.made uia r n /\
    c' = Uia.mkCondition None (Uia.conditions c ++ [n])
           (Uia.reprs c ++
            [Uia.ReprProperty (fst (Builder.request r))
               (snd (Builder.request r))]).
Proof.
  unfold Builder.made.
  destruct r; cbn;
    unfold Uia.pid, Uia.control_type, Uia.class_name, Uia.title,
      Uia.refined, Uia.create_property_condition;
    match goal with
    | |- context [Uia.CreatePropertyConditionEx ?u ?p ?v ?f] =>
        destruct (Uia.CreatePropertyConditionEx u p v f) as [n|hr] eqn:E
    end; cbn; try discriminate;
    intros [= <-]; exists n; auto.
Qed.

Lemma refine_fails (c : Uia.Condition) (r : Uia.Refinement) (e : Exn) :
  Uia.refine uia c r = Raise e ->
  exists hr,
    e = COMError hr /\
    Uia.CreatePropertyConditionEx uia (fst (Builder.request r))
      (snd (Builder.request r)) Uia.PropertyConditionFlags_IgnoreCase
    = Uia.Failed hr.
Proof.
  destruct r; cbn;
    unfold Uia.pid, Uia.control_type, Uia.class_name, Uia.title,
      Uia.refined, Uia.create_property_condition;
    match goal with
    | |- context [Uia.CreatePropertyConditionEx ?u ?p ?v ?f] =>
        destruct (Uia.CreatePropertyConditionEx u p v f) as [n|hr] eqn:E
    end; cbn; try discriminate;
    intros [= <-]; exists hr; auto.
Qed.

Lemma chain_appends (rs : list Uia.Refinement) : forall c c',
  Uia.chain uia c rs = Ok c' ->
  exists ns,
    Forall2 (Builder.made uia) rs ns /\
    Uia.conditions c' = Uia.conditions c ++ ns /\
    Uia.reprs c' =
    Uia.reprs c ++
    map (fun r => Uia.ReprProperty (fst (Builder.request r))
                    (snd (Builder.request r))) rs /\
    (rs <> [] -> Uia._native c' = None).
Proof.
  induction rs as [|r rs IH]; intros c c'; cbn.
  - intros [= <-]. exists []. rewrite !app_nil_r.
    split; [constructor|]. split; [reflexivity|]. split; [reflexivity|].
    intros Hne. contradiction.
  - destruct (Uia.refine uia c r) as [c1|e] eqn:E; cbn; [|discriminate].
    intros Hc. apply refine_appends in E as (n & Hn & ->).
    destruct (IH _ _ Hc) as (ns & Hns & Hcs & Hrs & Hnat).
    cbn in Hcs, Hrs. exists (n :: ns).
    split; [constructor; assumption|].
    split; [rewrite Hcs, <- app_assoc; reflexivity|].
    split; [rewrite Hrs, <- app_assoc; reflexivity|].
    intros _. destruct rs as [|r' rs']; [|apply Hnat; discriminate].
    cbn in Hc. injection Hc as <-. reflexivity.
Qed.

Lemma chain_fails (rs : list Uia.Refinement) : forall c e,
  Uia.chain uia c rs = Raise e -> exists hr, e = COMError hr.
Proof.
  induction rs as [|r rs IH]; intros c e; cbn; [discriminate|].
  destruct (Uia.refine uia c r) as [c1|e1] eqn:E; cbn.
  - apply IH.
  - intros [= <-]. destruct (refine_fails _ _ _ E) as (hr & -> & _). eauto.
Qed.

End BuilderFacts.

(** X14: a condition built from [Condition()] by the calls [rs] of [pid],
    [control_type], [class_name] and [title] holds one native condition
    for each call, in the order of the calls: the case-insensitive
    property condition the engine made for the call's property and value;
    [reprs] lists the same properties and values.  [native] gives that
    native condition itself when there is one call, and asks the engine
    for the conjunction of the whole tuple when there are more.  A chain
    of calls fails only with the [COMError] of the engine. *)
Theorem builder_ands_its_refinements (uia : Uia.IUIAutomation)
    (rs : list Uia.Refinement) :
  (forall c,
      Uia.chain uia Uia.Condition_new rs = Ok c ->
      Forall2 (Builder.made uia) rs (Uia.conditions c) /\
      Uia.reprs c =
      map (fun r => Uia.ReprProperty (fst (Builder.request r))
                      (snd (Builder.request r))) rs /\
      Uia.native uia c =
      match Uia.conditions c with
      | [] => Raise (UIAConditionNotCreatedError
                       "Unable to create a condition...")
      | [n] => Ok n
      | ns => Uia.com_call (Uia.CreateAndConditionFromArray uia ns)
      end) /\
  (forall e,
      Uia.chain uia Uia.Condition_new rs = Raise e ->
      exists hr, e = COMError hr).
Proof.
  split; [|apply chain_fails].
  intros c Hc.
  destruct (chain_appends uia rs _ _ Hc) as (ns & Hns & Hcs & Hrs & Hnat).
  cbn in Hcs, Hrs. rewrite Hcs, Hrs.
  split; [exact Hns|]. split; [reflexivity|].
  unfold Uia.native. rewrite Hcs.
  destruct rs as [|r rs'].
  - cbn in Hc. injection Hc as <-. inversion Hns; subst. reflexivity.
  - rewrite (Hnat ltac:(discriminate)).
    destruct ns as [|n [|n' ns']]; [inversion Hns|reflexivity|].
    cbn [length]. cbv zeta.
    destruct (Z.eqb_spec (Z.of_nat (S (S (length ns')))) 0) as [H0|_]; [lia|].
    destruct (Z.gtb_spec (Z.of_nat (S (S (length ns')))) 1) as [_|H1];
      [reflexivity|lia].
Qed.

Lemma builder_ands_its_refinements_witness :
  exists c,
    Uia.chain Sample.uia Uia.Condition_new
      [Uia.by_control_type 50032; Uia.by_title "Save"] = Ok c /\
    Uia.native Sample.uia c =
    Ok (Uia.AndCondition
          [ Uia.PropertyCondition Uia.Property_ControlType
              (Uia.IntValue 50032) 1;
            Uia.PropertyCondition Uia.Property_Title (Uia.StrValue "Save") 1 ]).
Proof.
  eexists. split; [reflexivity|].
  rewrite (proj2 (proj2 (proj1 (builder_ands_its_refinements Sample.uia
              [Uia.by_control_type 50032; Uia.by_title "Save"]) _ eq_refl))).
  reflexivity.
Defined.

(** ** The control types *)

Lemma ControlType_name_found (v : Z) (n : string) :
  Uia.ControlType_name v = Ok n -> In (v, n) Uia.ControlType_members.
Proof.
  unfold Uia.ControlType_name.
  destruct (List.find _ Uia.ControlType_members) as [[v' n']|] eqn:E;
    [|discriminate].
  apply List.find_some in E as [Hin Heq]. cbn in Heq.
  apply Z.eqb_eq in Heq. subst v'. intros [= <-]. exact Hin.
Qed.

(** The values of the members are the integers from 50000 to 50040. *)
Lemma control_types_cover_their_range (v : Z) :
  (exists n, Uia.ControlType_name v = Ok n) <-> 50000 <= v <= 50040.
Proof.
  split.
  - intros [n Hn]. apply ControlType_name_found in Hn.
    assert (H : forallb (fun m => (50000 <=? fst m) && (fst m <=? 50040))
                  Uia.ControlType_members = true) by reflexivity.
    rewrite forallb_forall in H. specialize (H _ Hn). cbn in H. lia.
  - intros Hv.
    assert (H : forallb
                  (fun k => match Uia.ControlType_name (50000 + Z.of_nat k) with
                            | Ok _ => true
                            | Raise _ => false
                            end) (List.seq 0 41) = true)
      by (vm_compute; reflexivity).
    rewrite forallb_forall in H.
    specialize (H (Z.to_nat (v - 50000)) ltac:(apply in_seq; lia)).
    replace (50000 + Z.of_nat (Z.to_nat (v - 50000))) with v in H by lia.
    destruct (Uia.ControlType_name v); [eauto|discriminate].
Qed.

Lemma control_type_names_differ (v1 v2 : Z) (n : string) :
  Uia.ControlType_name v1 = Ok n -> Uia.ControlType_name v2 = Ok n ->
  v1 = v2.
Proof.
  intros H1 H2. apply ControlType_name_found in H1, H2.
  assert (H : forallb
                (fun m1 =>
                   forallb
                     (fun m2 => implb (String.eqb (snd m1) (snd m2))
                                  (fst m1 =? fst m2))
                     Uia.ControlType_members)
                Uia.ControlType_members = true)
    by (vm_compute; reflexivity).
  rewrite forallb_forall in H. specialize (H _ H1).
  rewrite forallb_forall in H. specialize (H _ H2). cbn in H.
  rewrite String.eqb_refl in H. cbn in H. lia.
Qed.

(** A walk whose first read fails ends there: the dict is the one it
    was called with, nothing is printed and nothing outlined. *)
Lemma tree_unknown_control_type {D} (element : Uia.Element)
    (md : option Z) (cs : option (gmap string Z)) (d : Z) (draw : bool)
    (dur : D) (s : Base.Walk D) (e : Exn) :
  Base.valid_depth md ->
  Uia.Element_control_type element = Raise e ->
  Uia.tree element md cs d draw dur s
  = Some (Raise e,
          Base.mkWalk (default ∅ cs) (Base.stdout s) (Base.outlined s)).
Proof.
  intros Hmd He. unfold Uia.tree.
  destruct element as [a k].
  assert (Hlt : match md with Some m => m <? 0 | None => false end = false).
  { destruct md as [m|]; [|reflexivity]. cbn in Hmd. lia. }
  destruct k as [kids|e']; cbn [Base.tree]; rewrite Hlt;
    destruct cs as [c|]; cbn; unfold Uia.reads; cbn;
    unfold bind, Base.set_counters, modify, lift; cbn; rewrite He; reflexivity.
Qed.

(** X15: [ControlType(value)] succeeds exactly on the values from 50000
    to 50040, and no two values share a name, so the key of a printed
    line tells the control type.  On an element that reports a value
    outside this range, [Element.tree] of the accessibility backend
    raises [ValueError] before it prints or outlines anything, whatever
    its other arguments are (with a [max_depth] that is not negative). *)
Theorem tree_needs_a_known_control_type :
  (forall v, (exists n, Uia.ControlType_name v = Ok n) <->
             50000 <= v <= 50040) /\
  (forall v1 v2 n,
      Uia.ControlType_name v1 = Ok n -> Uia.ControlType_name v2 = Ok n ->
      v1 = v2) /\
  (forall D (element : Uia.Element) md cs d draw (dur : D) s v,
      Base.valid_depth md ->
      Uia.CurrentControlType (Base.attrs element) = Ok v ->
      ~ 50000 <= v <= 50040 ->
      exists s',
        Uia.tree element md cs d draw dur s
        = Some (Raise (ValueError "not a valid ControlType"), s') /\
        Base.stdout s' = Base.stdout s /\
        Base.outlined s' = Base.outlined s).
Proof.
  split; [exact control_types_cover_their_range|].
  split; [exact control_type_names_differ|].
  intros D element md cs d draw dur s v Hmd Hv Hout.
  assert (He : Uia.Element_control_type element
               = Raise (ValueError "not a valid ControlType")).
  { unfold Uia.Element_control_type. rewrite Hv. cbn.
    unfold Uia.ControlType_name.
    destruct (List.find _ Uia.ControlType_members) as [m|] eqn:E;
      [|reflexivity].
    exfalso. apply Hout, control_types_cover_their_range.
    unfold Uia.ControlType_name. rewrite E. eauto. }
  rewrite (tree_unknown_control_type element md cs d draw dur s _ Hmd He).
  eexists. split; [reflexivity|split; reflexivity].
Qed.

Lemma tree_needs_a_known_control_type_witness :
  exists s',
    Uia.tree Samples.odd_node (Some 2) None 0 true 75
      (Base.mkWalk ∅ [] [])
    = Some (Raise (ValueError "not a valid ControlType"), s') /\
    Base.stdout s' = [] /\ Base.outlined s' = [].
Proof.
  apply (proj2 (proj2 tree_needs_a_known_control_type) Z Samples.odd_node
           (Some 2) None 0 true 75 (Base.mkWalk ∅ [] []) 49999).
  - cbn. lia.
  - reflexivity.
  - lia.
Defined.

(** ** Live elements and their snapshot *)

(** The live test on a fresh element of a static platform: the run ends,
    leaves the platform static, and gives the verdict or the exception of
    the test on the snapshot node with the platform's answers. *)
Lemma satisfies_on_static {L} (f : Os.Call -> Os.Reply)
    (w : Os.World) (l : L) (h : Z) (kids : result (list Win32.Element))
    (condition : Win32.Condition) :
  Platform.static f w ->
  exists w' r,
    Win32Live.satisfies (Win32Window.Element_init h) condition (w, l)
    = Some (r, (w', l)) /\
    Platform.static f w' /\
    match r, Win32.satisfies (Base.mkNode (Platform.attrs_of f h) kids)
               condition with
    | Ok bw, Ok b => fst bw = b /\ Win32Window.hwnd (snd bw) = h
    | Raise e, Raise e' => e = e'
    | _, _ => False
    end.
Proof.
  intros Hw. destruct w as [o evs]. unfold Platform.static in Hw. cbn in Hw.
  destruct condition as [pid cid cn t].
  unfold Win32Live.satisfies, Win32.satisfies, Win32.Element_pid,
    Win32.Element_control_id, Win32.Element_class_name, Win32.Element_title,
    Platform.attrs_of,
    Win32Window.pid, Win32Window.control_id, Win32Window.class_name,
    Win32Window.title, User32.GetWindowThreadProcessId, User32.GetWindowLongW,
    User32.GetClassNameW, User32.GetWindowTextW, User32.raise_WinError,
    User32.get_last_error, result_bind, bind, os_call, ret, raise.
  cbn.
  destruct pid as [pid|]; [destruct (pid =? 0)|];
  destruct cid as [cid|]; try destruct (cid =? 0);
  destruct cn as [cn|]; try destruct (String.eqb cn "");
  destruct t as [[t|p]|]; try destruct (String.eqb t "");
  cbn; rewrite ?Hw; cbn;
  repeat match goal with
         | |- context [if ?b then _ else _] =>
             destruct b eqn:?; cbn; rewrite ?Hw; cbn
         end;
  try (eexists _, _; split; [reflexivity|];
       split; [intros log c; apply Hw|]; cbn; auto; fail).
Qed.

(** X16: on a platform that answers the same whatever has happened,
    [Element.satisfies] on a fresh live element gives what the test gives
    on the snapshot node that holds the platform's answers for the
    handle: the same verdict, or the same exception.  The element that
    was tested still wraps the same handle. *)
Theorem live_satisfies_agrees_with_snapshot {L} (f : Os.Call -> Os.Reply)
    (w : Os.World) (l : L) (h : Z) (kids : result (list Win32.Element))
    (condition : Win32.Condition) :
  Platform.static f w ->
  exists w' r,
    Win32Live.satisfies (Win32Window.Element_init h) condition (w, l)
    = Some (r, (w', l)) /\
    match r, Win32.satisfies (Base.mkNode (Platform.attrs_of f h) kids)
               condition with
    | Ok bw, Ok b => fst bw = b /\ Win32Window.hwnd (snd bw) = h
    | Raise e, Raise e' => e = e'
    | _, _ => False
    end.
Proof.
  intros Hw.
  destruct (satisfies_on_static f w l h kids condition Hw)
    as (w' & r & E & _ & Hr).
  exists w', r. split; [exact E|exact Hr].
Qed.

Lemma live_satisfies_agrees_with_snapshot_witness :
  Platform.static Samples.calm_answers (fst Samples.calm) /\
  Win32.satisfies
    (Base.mkNode (Platform.attrs_of Samples.calm_answers 100) (Ok []))
    Samples.title_ok = Ok false /\
  exists w' r,
    Win32Live.satisfies (Win32Window.Element_init 100) Samples.title_ok
      Samples.calm = Some (r, (w', tt)) /\
    match r with
    | Ok bw => fst bw = false /\ Win32Window.hwnd (snd bw) = 100
    | Raise _ => False
    end.
Proof.
  assert (H : Platform.static Samples.calm_answers (fst Samples.calm))
    by (intros log c; reflexivity).
  split; [exact H|]. split; [reflexivity|].
  destruct (live_satisfies_agrees_with_snapshot Samples.calm_answers
              (fst Samples.calm) tt 100 (Ok []) Samples.title_ok H)
    as (w' & r & E & Hr).
  exists w', r. split; [exact E|].
  destruct r as [bw|e]; exact Hr.
Defined.

(** ** Thread and process ids *)

(** X17: on a fresh element, reading [tid], then [pid], then [tid] again
    starts with one [GetWindowThreadProcessId] call for the element's
    handle.  When the reads succeed, the thread id is what that call
    returned and is not [0], and the second read of [tid] gives the same
    value; when the process id the call wrote is not [0], [pid] is that
    value and the three reads have made no other native call.  The reads
    raise [WinError] only. *)
Theorem ids_come_from_one_call {L} (h : Z) :
  Trace.run (L:=L)
    (tw <- Win32Window.tid (Win32Window.Element_init h) ;;
     pw <- Win32Window.pid (snd tw) ;;
     tw' <- Win32Window.tid (snd pw) ;;
     ret (fst tw, fst pw, fst tw'))
    (fun r evs =>
       exists reply rest,
         evs = (Os.GetWindowThreadProcessId h, reply) :: rest /\
         match r with
         | Ok (t, p, t') =>
             t = Os.ret reply /\ t <> 0 /\ t' = t /\
             (nth 0 (Os.out reply) 0 <> 0 ->
              p = nth 0 (Os.out reply) 0 /\ rest = [])
         | Raise e => exists code, e = WinError code
         end).
Proof.
  intros [w l] r s'.
  unfold Win32Window.tid, Win32Window.pid, Win32Window.Element_init,
    Win32Window.truthy, User32.GetWindowThreadProcessId,
    User32.raise_WinError, User32.get_last_error, bind, os_call, ret, raise.
  cbn.
  set (reply := Os.oracle w (Os.events w) _).
  destruct (Os.ret reply =? 0) eqn:E0; cbn.
  { intros [= <- <-]. cbn. eexists.
    split; [rewrite <- app_assoc; reflexivity|].
    exists reply. eexists. split; [reflexivity|]. eauto. }
  destruct (nth 0 (Os.out reply) 0 =? 0) eqn:Ep; cbn.
  - set (reply2 := Os.oracle w _ _).
    destruct (Os.ret reply2 =? 0) eqn:E2; cbn.
    + intros [= <- <-]. cbn. eexists.
      split; [rewrite <- !app_assoc; reflexivity|].
      exists reply. eexists. split; [reflexivity|]. eauto.
    + intros [= <- <-]. cbn. eexists.
      split; [rewrite <- !app_assoc; reflexivity|].
      exists reply. eexists. split; [reflexivity|].
      split; [reflexivity|]. split; [apply Z.eqb_neq, E0|].
      split; [reflexivity|]. apply Z.eqb_eq in Ep. intros Hne. contradiction.
  - intros [= <- <-]. cbn. eexists. split; [reflexivity|].
    exists reply, []. split; [reflexivity|].
    split; [reflexivity|]. split; [apply Z.eqb_neq, E0|].
    split; [reflexivity|]. auto.
Qed.
